(** * Ghost-key: keystroke and voice feature extraction, aggregation, scoring

    A shallow embedding of the numeric core of the repository:

    - [KeystrokeAnalyzer.extractFeatures], the feature extraction of the
      [useKeystrokeAnalyzer] hook ([src/unnamed/part_000]);
    - [VoiceProcessing.aggregateFeatures],
      [VoiceProcessing.calculateRobustSimilarityScore] and
      [VoiceProcessing.quickProcessVoiceAudio], of the voice feature
      extractor ([src/unnamed/part_001]).

    JavaScript numbers are kept abstract behind the interface [JsNumber], so
    every function is translated once.  Two implementations of the interface
    are given:

    - [binary64]: IEEE 754 double precision, the arithmetic a JavaScript
      engine performs ([+ - * /] and [Math.sqrt] are correctly rounded there,
      as are the kernel's primitive floats);
    - [exact]: the same special values (NaN, +Infinity, -Infinity) around
      the real numbers, that is JavaScript arithmetic with rounding, overflow
      and the sign of zero left out.

    Statements about all inputs are proved over [exact]; [binary64] runs the
    code on concrete inputs.  Statements that do not depend on the
    arithmetic are proved for any implementation of the interface. *)

From Stdlib Require Import ZArith String List Bool Lia Permutation.
From Stdlib Require Import Floats.
From Stdlib Require Import Reals Lra Psatz.
Import ListNotations.

Set Implicit Arguments.

(* ===================================================================== *)
(** ** The number interface *)

Class JsNumber (num : Type) : Type := {
  of_Z : Z -> num;                 (* integer literals, [length] results *)
  NaN : num;
  add : num -> num -> num;         (* a + b *)
  sub : num -> num -> num;         (* a - b *)
  mul : num -> num -> num;         (* a * b *)
  div : num -> num -> num;         (* a / b *)
  Math_sqrt : num -> num;
  Math_abs : num -> num;
  Math_max : num -> num -> num;
  lt : num -> num -> bool;         (* a < b *)
  truthy : num -> bool             (* ToBoolean: false on 0 and NaN *)
}.

(** [Math.log] is kept apart: only the scorer's normalisation uses it, and
    it has no correctly rounded definition to run on [binary64]. *)
Class JsLog (num : Type) : Type := {
  Math_log : num -> num
}.

Declare Scope js_scope.
Delimit Scope js_scope with js.
Infix "+" := add : js_scope.
Infix "-" := sub : js_scope.
Infix "*" := mul : js_scope.
Infix "/" := div : js_scope.
Infix "<" := lt : js_scope.
Notation "a > b" := (lt b a) : js_scope.

Section NumberHelpers.
Context {num : Type} {N : JsNumber num}.

(** A decimal literal [n/d] with [d] a power of ten, such as [0.001]
    ([dec 1 1000]): the number nearest to the decimal. *)
Definition dec (n d : Z) : num := (of_Z n / of_Z d)%js.

(** [a || b] on numbers. *)
Definition js_or (a b : num) : num := if truthy a then a else b.

(** [Math.pow(x, 2)], the square. *)
Definition Math_pow_2 (x : num) : num := (x * x)%js.

(** [xs.reduce((sum, t) => sum + t, 0)]. *)
Definition sum (xs : list num) : num := fold_left add xs (of_Z 0).

(** [xs.length] as a number. *)
Definition len {A : Type} (xs : list A) : num := of_Z (Z.of_nat (length xs)).

(** The pairs [(xs[i], xs[i+1])] for [i] from [0] to [xs.length - 2], the
    iterations of [for (let i = 0; i < xs.length - 1; i++)]. *)
Fixpoint consecutive {A : Type} (xs : list A) : list (A * A) :=
  match xs with
  | a :: (b :: _) as tl => (a, b) :: consecutive tl
  | _ => []
  end.

(** [while (v.length < target) v.push(0)]. *)
Definition pad_zeros (target : nat) (v : list num) : list num :=
  v ++ repeat (of_Z 0) (target - length v).

End NumberHelpers.

(* ===================================================================== *)
(** ** IEEE 754 binary64 *)

Module Binary64.

Definition of_Z (z : Z) : float :=
  match z with
  | Z0 => PrimFloat.zero
  | Zpos _ => PrimFloat.of_uint63 (Uint63.of_Z z)
  | Zneg p => PrimFloat.opp (PrimFloat.of_uint63 (Uint63.of_Z (Zpos p)))
  end.

(** [Math.max(a, b)]: NaN if either is NaN, and [+0] above [-0]. *)
Definition max (a b : float) : float :=
  if PrimFloat.is_nan a || PrimFloat.is_nan b then PrimFloat.nan
  else if PrimFloat.ltb a b then b
  else if PrimFloat.ltb b a then a
  else if PrimFloat.is_zero a then PrimFloat.add a b
  else a.

Definition truthy (x : float) : bool :=
  negb (PrimFloat.is_zero x) && negb (PrimFloat.is_nan x).

End Binary64.

#[export] Instance binary64 : JsNumber float := {
  of_Z := Binary64.of_Z;
  NaN := PrimFloat.nan;
  add := PrimFloat.add;
  sub := PrimFloat.sub;
  mul := PrimFloat.mul;
  div := PrimFloat.div;
  Math_sqrt := PrimFloat.sqrt;
  Math_abs := PrimFloat.abs;
  Math_max := Binary64.max;
  lt := PrimFloat.ltb;
  truthy := Binary64.truthy
}.

(* ===================================================================== *)
(** ** Exact arithmetic with the IEEE special values *)

Inductive exact : Type :=
| Fin (r : R)
| PosInf
| NegInf
| NotANumber.

Inductive sign : Type := Negative | Zero | Positive.

Module Exact.

Definition sgn (r : R) : sign :=
  if Rlt_dec 0 r then Positive else if Rlt_dec r 0 then Negative else Zero.

Definition neg (x : exact) : exact :=
  match x with
  | Fin r => Fin (- r)
  | PosInf => NegInf
  | NegInf => PosInf
  | NotANumber => NotANumber
  end.

Definition add (x y : exact) : exact :=
  match x, y with
  | Fin a, Fin b => Fin (a + b)
  | NotANumber, _ | _, NotANumber => NotANumber
  | PosInf, NegInf | NegInf, PosInf => NotANumber
  | PosInf, _ | _, PosInf => PosInf
  | NegInf, _ | _, NegInf => NegInf
  end.

Definition sub (x y : exact) : exact := add x (neg y).

(** An infinity times, or divided by, a finite number of sign [s]. *)
Definition inf_signed (x : exact) (s : sign) : exact :=
  match s with
  | Positive => x
  | Negative => neg x
  | Zero => NotANumber
  end.

Definition mul (x y : exact) : exact :=
  match x, y with
  | Fin a, Fin b => Fin (a * b)
  | NotANumber, _ | _, NotANumber => NotANumber
  | Fin a, inf => inf_signed inf (sgn a)
  | inf, Fin b => inf_signed inf (sgn b)
  | PosInf, PosInf | NegInf, NegInf => PosInf
  | PosInf, NegInf | NegInf, PosInf => NegInf
  end.

(** Division; a zero divisor counts as [+0]. *)
Definition div (x y : exact) : exact :=
  match x, y with
  | Fin a, Fin b =>
      match sgn b with
      | Zero => inf_signed PosInf (sgn a)
      | _ => Fin (a / b)
      end
  | NotANumber, _ | _, NotANumber => NotANumber
  | Fin _, _ => Fin 0
  | inf, Fin b =>
      match sgn b with
      | Negative => neg inf
      | _ => inf
      end
  | _, _ => NotANumber
  end.

Definition sqrt (x : exact) : exact :=
  match x with
  | Fin a => if Rlt_dec a 0 then NotANumber else Fin (R_sqrt.sqrt a)
  | PosInf => PosInf
  | _ => NotANumber
  end.

Definition abs (x : exact) : exact :=
  match x with
  | Fin a => Fin (Rabs a)
  | PosInf | NegInf => PosInf
  | NotANumber => NotANumber
  end.

Definition max (x y : exact) : exact :=
  match x, y with
  | Fin a, Fin b => Fin (Rmax a b)
  | NotANumber, _ | _, NotANumber => NotANumber
  | PosInf, _ | _, PosInf => PosInf
  | NegInf, z | z, NegInf => z
  end.

Definition lt (x y : exact) : bool :=
  match x, y with
  | Fin a, Fin b => if Rlt_dec a b then true else false
  | NegInf, Fin _ | NegInf, PosInf | Fin _, PosInf => true
  | _, _ => false
  end.

Definition truthy (x : exact) : bool :=
  match x with
  | Fin a => match sgn a with Zero => false | _ => true end
  | PosInf | NegInf => true
  | NotANumber => false
  end.

Definition log (x : exact) : exact :=
  match x with
  | Fin a =>
      match sgn a with
      | Positive => Fin (ln a)
      | Zero => NegInf
      | Negative => NotANumber
      end
  | PosInf => PosInf
  | _ => NotANumber
  end.

End Exact.

#[export] Instance exact_number : JsNumber exact := {
  of_Z := fun z => Fin (IZR z);
  NaN := NotANumber;
  add := Exact.add;
  sub := Exact.sub;
  mul := Exact.mul;
  div := Exact.div;
  Math_sqrt := Exact.sqrt;
  Math_abs := Exact.abs;
  Math_max := Exact.max;
  lt := Exact.lt;
  truthy := Exact.truthy
}.

#[export] Instance exact_log : JsLog exact := {
  Math_log := Exact.log
}.

(* ===================================================================== *)
(** ** Keystroke analyzer ([src/unnamed/part_000]) *)

Module KeystrokeAnalyzer.

Inductive EventType : Type := keydown | keyup.

Definition EventType_eqb (a b : EventType) : bool :=
  match a, b with
  | keydown, keydown | keyup, keyup => true
  | _, _ => false
  end.

Section Analyzer.
Context {num : Type} {N : JsNumber num}.

Record KeystrokeEvent : Type := {
  key : string;
  type : EventType;
  timestamp : num
}.

Record ExtractedFeatures : Type := {
  holdTimes : list num;
  ddTimes : list num;
  udTimes : list num;
  typingSpeed : num;
  flightTime : num;
  errorRate : num;
  pressPressure : num;
  features : list num
}.

Definition PASSWORD_LENGTH : nat := 11.

(** [keyups.find((u) => u.key === key && u.timestamp > downTs)]. *)
Definition findUp (keyups : list KeystrokeEvent) (k : string) (downTs : num)
  : option KeystrokeEvent :=
  find (fun u => String.eqb (key u) k && (timestamp u > downTs)%js) keyups.

(** Hold times: one entry per press for which a later release of the same
    key is found; a press without one adds nothing. *)
Definition holdTimesOf (keyups : list KeystrokeEvent)
  (matchedKeys : list (string * num)) : list num :=
  flat_map (fun '(k, downTs) =>
              match findUp keyups k downTs with
              | Some upEvent => [(timestamp upEvent - downTs)%js]
              | None => []
              end) matchedKeys.

(** Down-down times of consecutive presses. *)
Definition ddTimesOf (matchedKeys : list (string * num)) : list num :=
  map (fun '((_, press1), (_, press2)) => (press2 - press1)%js)
      (consecutive matchedKeys).

(** Up-down times, falling back on the press when no release is found. *)
Definition udTimesOf (keyups : list KeystrokeEvent)
  (matchedKeys : list (string * num)) : list num :=
  map (fun '((currentKey, currentDown), (_, nextDown)) =>
         match findUp keyups currentKey currentDown with
         | Some currentUp => (nextDown - timestamp currentUp)%js
         | None => (nextDown - currentDown)%js
         end)
      (consecutive matchedKeys).

(** [Math.max(sum(hold), sum(dd), sum(ud)) || 0.001]. *)
Definition totalTimeOf (holdTimes ddTimes udTimes : list num) : num :=
  js_or (Math_max (Math_max (sum holdTimes) (sum ddTimes)) (sum udTimes))
        (dec 1 1000).

(** [xs.length > 0 ? xs.reduce((a, b) => a + b, 0) / xs.length : 0]. *)
Definition meanOrZero (xs : list num) : num :=
  if (0 <? length xs)%nat then (sum xs / len xs)%js else of_Z 0.

(** Population standard deviation of the hold times, [0] when there are
    none. *)
Definition pressPressureOf (holdTimes : list num) : num :=
  let meanHoldTime := meanOrZero holdTimes in
  if (0 <? length holdTimes)%nat then
    Math_sqrt
      (fold_left (fun s t => (s + Math_pow_2 (t - meanHoldTime))%js)
                 holdTimes (of_Z 0)
       / len holdTimes)%js
  else of_Z 0.

Definition extractFeatures (data : list KeystrokeEvent) : ExtractedFeatures :=
  let keydowns := filter (fun k => EventType_eqb (type k) keydown) data in
  let keyups := filter (fun k => EventType_eqb (type k) keyup) data in
  let matchedKeys := map (fun k => (key k, timestamp k)) keydowns in
  let holdTimes := holdTimesOf keyups matchedKeys in
  let ddTimes := ddTimesOf matchedKeys in
  let udTimes := udTimesOf keyups matchedKeys in
  let totalTime := totalTimeOf holdTimes ddTimes udTimes in
  let typingSpeed := (len matchedKeys / (totalTime / of_Z 1000))%js in
  let flightTime := meanOrZero udTimes in
  let errorRate :=
    len (filter (fun k => String.eqb (key k) "Backspace") data) in
  let pressPressure := pressPressureOf holdTimes in
  let featureVector :=
    firstn PASSWORD_LENGTH holdTimes
    ++ firstn (PASSWORD_LENGTH - 1) ddTimes
    ++ firstn (PASSWORD_LENGTH - 1) udTimes
    ++ [typingSpeed; flightTime; errorRate; pressPressure] in
  {| holdTimes := holdTimes;
     ddTimes := ddTimes;
     udTimes := udTimes;
     typingSpeed := typingSpeed;
     flightTime := flightTime;
     errorRate := errorRate;
     pressPressure := pressPressure;
     features := pad_zeros (PASSWORD_LENGTH * 3 + 1) featureVector |}.

End Analyzer.

Arguments KeystrokeEvent num : clear implicits.
Arguments ExtractedFeatures num : clear implicits.

End KeystrokeAnalyzer.

(* ===================================================================== *)
(** ** Voice feature extractor ([src/unnamed/part_001]) *)

(** What a call does: it returns a value or throws. *)
Inductive Outcome (A : Type) : Type :=
| Returns (value : A)
| Throws (message : string).

Arguments Returns {A} value.
Arguments Throws {A} message.

Module VoiceProcessing.

Section Voice.
Context {num : Type} {N : JsNumber num}.

Record PitchStatistics : Type := {
  mean : num;
  variance : num;
  range : num
}.

(** Raw features of one frame.  The optional members are absent ([None])
    unless set; [jitter], [shimmer] and [speakingRate] of a frame carry the
    prefix [frame] since the aggregated record has members of those names. *)
Record VoiceFeatures : Type := {
  mfcc : list num;
  spectralCentroid : num;
  spectralFlatness : num;
  spectralRolloff : num;
  spectralFlux : num;
  perceptualSpread : num;
  perceptualSharpness : num;
  spectralKurtosis : num;
  zcr : num;
  rms : num;
  energy : num;
  pitch : option PitchStatistics;
  frameJitter : option num;
  frameShimmer : option num;
  frameSpeakingRate : option num;
  formants : option (list num)
}.

Record AggregatedVoiceFeatures : Type := {
  mfccMean : list num;
  mfccVariance : list num;
  spectralCentroidMean : num;
  spectralCentroidVariance : num;
  spectralFlatnessMean : num;
  spectralFlatnessVariance : num;
  spectralRolloffMean : num;
  spectralRolloffVariance : num;
  spectralFluxMean : num;
  spectralFluxVariance : num;
  perceptualSpreadMean : num;
  perceptualSpreadVariance : num;
  perceptualSharpnessMean : num;
  perceptualSharpnessVariance : num;
  spectralKurtosisMean : num;
  spectralKurtosisVariance : num;
  zcrMean : num;
  zcrVariance : num;
  rmsMean : num;
  rmsVariance : num;
  energyMean : num;
  energyVariance : num;
  pitchMean : option num;
  pitchVariance : option num;
  pitchRange : option num;
  jitter : option num;
  shimmer : option num;
  speakingRate : option num;
  formantsMean : option (list num);
  formantsVariance : option (list num)
}.

(** The ten scalar members of a frame. *)
Definition scalarMembers : list (VoiceFeatures -> num) :=
  [spectralCentroid; spectralFlatness; spectralRolloff; spectralFlux;
   perceptualSpread; perceptualSharpness; spectralKurtosis; zcr; rms; energy].

(** Every variance member of an aggregate: the MFCC variances, then the
    ten scalar variances. *)
Definition varianceFields (p : AggregatedVoiceFeatures) : list num :=
  mfccVariance p
  ++ [spectralCentroidVariance p; spectralFlatnessVariance p;
      spectralRolloffVariance p; spectralFluxVariance p;
      perceptualSpreadVariance p; perceptualSharpnessVariance p;
      spectralKurtosisVariance p; zcrVariance p; rmsVariance p;
      energyVariance p].

Record DetailedMetrics : Type := {
  mfccDistance : num;
  spectralCentroidDiff : num;
  zcrDiff : num;
  pitchDiff : option num;          (* [number | null] *)
  energyDiff : num
}.

Record RobustSimilarityResult : Type := {
  overallSimilarity : num;
  pitchNormalizedSimilarity : num;
  tempoNormalizedSimilarity : num;
  spectralSimilarity : num;
  voiceQualitySimilarity : num;
  confidenceScore : num;
  detailedMetrics : DetailedMetrics
}.

(** *** Copies with one member replaced: [{ ...features, member: v }] *)

Definition with_pitchMean (v : option num) (features : AggregatedVoiceFeatures)
  : AggregatedVoiceFeatures :=
  {| mfccMean := mfccMean features;
     mfccVariance := mfccVariance features;
     spectralCentroidMean := spectralCentroidMean features;
     spectralCentroidVariance := spectralCentroidVariance features;
     spectralFlatnessMean := spectralFlatnessMean features;
     spectralFlatnessVariance := spectralFlatnessVariance features;
     spectralRolloffMean := spectralRolloffMean features;
     spectralRolloffVariance := spectralRolloffVariance features;
     spectralFluxMean := spectralFluxMean features;
     spectralFluxVariance := spectralFluxVariance features;
     perceptualSpreadMean := perceptualSpreadMean features;
     perceptualSpreadVariance := perceptualSpreadVariance features;
     perceptualSharpnessMean := perceptualSharpnessMean features;
     perceptualSharpnessVariance := perceptualSharpnessVariance features;
     spectralKurtosisMean := spectralKurtosisMean features;
     spectralKurtosisVariance := spectralKurtosisVariance features;
     zcrMean := zcrMean features;
     zcrVariance := zcrVariance features;
     rmsMean := rmsMean features;
     rmsVariance := rmsVariance features;
     energyMean := energyMean features;
     energyVariance := energyVariance features;
     pitchMean := v;
     pitchVariance := pitchVariance features;
     pitchRange := pitchRange features;
     jitter := jitter features;
     shimmer := shimmer features;
     speakingRate := speakingRate features;
     formantsMean := formantsMean features;
     formantsVariance := formantsVariance features |}.

Definition with_speakingRate (v : option num) (features : AggregatedVoiceFeatures)
  : AggregatedVoiceFeatures :=
  {| mfccMean := mfccMean features;
     mfccVariance := mfccVariance features;
     spectralCentroidMean := spectralCentroidMean features;
     spectralCentroidVariance := spectralCentroidVariance features;
     spectralFlatnessMean := spectralFlatnessMean features;
     spectralFlatnessVariance := spectralFlatnessVariance features;
     spectralRolloffMean := spectralRolloffMean features;
     spectralRolloffVariance := spectralRolloffVariance features;
     spectralFluxMean := spectralFluxMean features;
     spectralFluxVariance := spectralFluxVariance features;
     perceptualSpreadMean := perceptualSpreadMean features;
     perceptualSpreadVariance := perceptualSpreadVariance features;
     perceptualSharpnessMean := perceptualSharpnessMean features;
     perceptualSharpnessVariance := perceptualSharpnessVariance features;
     spectralKurtosisMean := spectralKurtosisMean features;
     spectralKurtosisVariance := spectralKurtosisVariance features;
     zcrMean := zcrMean features;
     zcrVariance := zcrVariance features;
     rmsMean := rmsMean features;
     rmsVariance := rmsVariance features;
     energyMean := energyMean features;
     energyVariance := energyVariance features;
     pitchMean := pitchMean features;
     pitchVariance := pitchVariance features;
     pitchRange := pitchRange features;
     jitter := jitter features;
     shimmer := shimmer features;
     speakingRate := v;
     formantsMean := formantsMean features;
     formantsVariance := formantsVariance features |}.

Definition with_zcrMean (v : num) (features : AggregatedVoiceFeatures)
  : AggregatedVoiceFeatures :=
  {| mfccMean := mfccMean features;
     mfccVariance := mfccVariance features;
     spectralCentroidMean := spectralCentroidMean features;
     spectralCentroidVariance := spectralCentroidVariance features;
     spectralFlatnessMean := spectralFlatnessMean features;
     spectralFlatnessVariance := spectralFlatnessVariance features;
     spectralRolloffMean := spectralRolloffMean features;
     spectralRolloffVariance := spectralRolloffVariance features;
     spectralFluxMean := spectralFluxMean features;
     spectralFluxVariance := spectralFluxVariance features;
     perceptualSpreadMean := perceptualSpreadMean features;
     perceptualSpreadVariance := perceptualSpreadVariance features;
     perceptualSharpnessMean := perceptualSharpnessMean features;
     perceptualSharpnessVariance := perceptualSharpnessVariance features;
     spectralKurtosisMean := spectralKurtosisMean features;
     spectralKurtosisVariance := spectralKurtosisVariance features;
     zcrMean := v;
     zcrVariance := zcrVariance features;
     rmsMean := rmsMean features;
     rmsVariance := rmsVariance features;
     energyMean := energyMean features;
     energyVariance := energyVariance features;
     pitchMean := pitchMean features;
     pitchVariance := pitchVariance features;
     pitchRange := pitchRange features;
     jitter := jitter features;
     shimmer := shimmer features;
     speakingRate := speakingRate features;
     formantsMean := formantsMean features;
     formantsVariance := formantsVariance features |}.

Definition with_energyMean (v : num) (features : AggregatedVoiceFeatures)
  : AggregatedVoiceFeatures :=
  {| mfccMean := mfccMean features;
     mfccVariance := mfccVariance features;
     spectralCentroidMean := spectralCentroidMean features;
     spectralCentroidVariance := spectralCentroidVariance features;
     spectralFlatnessMean := spectralFlatnessMean features;
     spectralFlatnessVariance := spectralFlatnessVariance features;
     spectralRolloffMean := spectralRolloffMean features;
     spectralRolloffVariance := spectralRolloffVariance features;
     spectralFluxMean := spectralFluxMean features;
     spectralFluxVariance := spectralFluxVariance features;
     perceptualSpreadMean := perceptualSpreadMean features;
     perceptualSpreadVariance := perceptualSpreadVariance features;
     perceptualSharpnessMean := perceptualSharpnessMean features;
     perceptualSharpnessVariance := perceptualSharpnessVariance features;
     spectralKurtosisMean := spectralKurtosisMean features;
     spectralKurtosisVariance := spectralKurtosisVariance features;
     zcrMean := zcrMean features;
     zcrVariance := zcrVariance features;
     rmsMean := rmsMean features;
     rmsVariance := rmsVariance features;
     energyMean := v;
     energyVariance := energyVariance features;
     pitchMean := pitchMean features;
     pitchVariance := pitchVariance features;
     pitchRange := pitchRange features;
     jitter := jitter features;
     shimmer := shimmer features;
     speakingRate := speakingRate features;
     formantsMean := formantsMean features;
     formantsVariance := formantsVariance features |}.

Definition with_rmsMean (v : num) (features : AggregatedVoiceFeatures)
  : AggregatedVoiceFeatures :=
  {| mfccMean := mfccMean features;
     mfccVariance := mfccVariance features;
     spectralCentroidMean := spectralCentroidMean features;
     spectralCentroidVariance := spectralCentroidVariance features;
     spectralFlatnessMean := spectralFlatnessMean features;
     spectralFlatnessVariance := spectralFlatnessVariance features;
     spectralRolloffMean := spectralRolloffMean features;
     spectralRolloffVariance := spectralRolloffVariance features;
     spectralFluxMean := spectralFluxMean features;
     spectralFluxVariance := spectralFluxVariance features;
     perceptualSpreadMean := perceptualSpreadMean features;
     perceptualSpreadVariance := perceptualSpreadVariance features;
     perceptualSharpnessMean := perceptualSharpnessMean features;
     perceptualSharpnessVariance := perceptualSharpnessVariance features;
     spectralKurtosisMean := spectralKurtosisMean features;
     spectralKurtosisVariance := spectralKurtosisVariance features;
     zcrMean := zcrMean features;
     zcrVariance := zcrVariance features;
     rmsMean := v;
     rmsVariance := rmsVariance features;
     energyMean := energyMean features;
     energyVariance := energyVariance features;
     pitchMean := pitchMean features;
     pitchVariance := pitchVariance features;
     pitchRange := pitchRange features;
     jitter := jitter features;
     shimmer := shimmer features;
     speakingRate := speakingRate features;
     formantsMean := formantsMean features;
     formantsVariance := formantsVariance features |}.

Definition with_spectralCentroidMean (v : num) (features : AggregatedVoiceFeatures)
  : AggregatedVoiceFeatures :=
  {| mfccMean := mfccMean features;
     mfccVariance := mfccVariance features;
     spectralCentroidMean := v;
     spectralCentroidVariance := spectralCentroidVariance features;
     spectralFlatnessMean := spectralFlatnessMean features;
     spectralFlatnessVariance := spectralFlatnessVariance features;
     spectralRolloffMean := spectralRolloffMean features;
     spectralRolloffVariance := spectralRolloffVariance features;
     spectralFluxMean := spectralFluxMean features;
     spectralFluxVariance := spectralFluxVariance features;
     perceptualSpreadMean := perceptualSpreadMean features;
     perceptualSpreadVariance := perceptualSpreadVariance features;
     perceptualSharpnessMean := perceptualSharpnessMean features;
     perceptualSharpnessVariance := perceptualSharpnessVariance features;
     spectralKurtosisMean := spectralKurtosisMean features;
     spectralKurtosisVariance := spectralKurtosisVariance features;
     zcrMean := zcrMean features;
     zcrVariance := zcrVariance features;
     rmsMean := rmsMean features;
     rmsVariance := rmsVariance features;
     energyMean := energyMean features;
     energyVariance := energyVariance features;
     pitchMean := pitchMean features;
     pitchVariance := pitchVariance features;
     pitchRange := pitchRange features;
     jitter := jitter features;
     shimmer := shimmer features;
     speakingRate := speakingRate features;
     formantsMean := formantsMean features;
     formantsVariance := formantsVariance features |}.

(** *** Normalisation *)

(** [features.pitchMean && features.pitchMean > 0] and the like: an absent
    member is falsy. *)
Definition present_and_positive (member : option num) : bool :=
  match member with
  | Some v => truthy v && (v > of_Z 0)%js
  | None => false
  end.

Section Normalisation.
Context {L : JsLog num}.

Definition normalizePitchFeatures (features : AggregatedVoiceFeatures)
  : AggregatedVoiceFeatures :=
  match pitchMean features with
  | Some p =>
      if present_and_positive (Some p)
      then with_pitchMean (Some (Math_log p)) features
      else features
  | None => features
  end.

Definition normalizeTempoFeatures (features : AggregatedVoiceFeatures)
  : AggregatedVoiceFeatures :=
  let normalized :=
    match speakingRate features with
    | Some r =>
        if present_and_positive (Some r)
        then with_speakingRate (Some (Math_log r)) features
        else features
    | None => features
    end in
  if (zcrMean features > of_Z 0)%js
  then with_zcrMean (Math_log (zcrMean features + of_Z 1)%js) normalized
  else normalized.

Definition normalizeSpectralFeatures (features : AggregatedVoiceFeatures)
  : AggregatedVoiceFeatures :=
  let normalized1 :=
    if (energyMean features > of_Z 0)%js
    then with_energyMean (Math_log (energyMean features + of_Z 1)%js) features
    else features in
  let normalized2 :=
    if (rmsMean features > of_Z 0)%js
    then with_rmsMean (Math_log (rmsMean features + of_Z 1)%js) normalized1
    else normalized1 in
  if (spectralCentroidMean features > of_Z 0)%js
  then with_spectralCentroidMean (Math_log (spectralCentroidMean features))
                                 normalized2
  else normalized2.

(** *** The similarity scorer *)

(** The loop over [i < Math.min(a.length, b.length)] adding
    [(a[i] - b[i])^2] ([combine] stops at the shorter list), then
    [Math.sqrt(total / mfccLength)]. *)
Definition mfccDistanceOf (features1 features2 : AggregatedVoiceFeatures)
  : num :=
  let mfccLength :=
    Nat.min (length (mfccMean features1)) (length (mfccMean features2)) in
  let total :=
    fold_left (fun acc '(a, b) => let diff := (a - b)%js in
                                  (acc + diff * diff)%js)
              (combine (mfccMean features1) (mfccMean features2))
              (of_Z 0) in
  Math_sqrt (total / of_Z (Z.of_nat mfccLength))%js.

Definition spectralCentroidDiffOf (features1 features2 : AggregatedVoiceFeatures)
  : num :=
  Math_abs (spectralCentroidMean (normalizeSpectralFeatures features1)
            - spectralCentroidMean (normalizeSpectralFeatures features2))%js.

Definition zcrDiffOf (features1 features2 : AggregatedVoiceFeatures) : num :=
  Math_abs (zcrMean (normalizeTempoFeatures features1)
            - zcrMean (normalizeTempoFeatures features2))%js.

Definition energyDiffOf (features1 features2 : AggregatedVoiceFeatures)
  : num :=
  Math_abs (energyMean (normalizeSpectralFeatures features1)
            - energyMean (normalizeSpectralFeatures features2))%js.

(** [null] unless both normalised pitch means are truthy. *)
Definition pitchDiffOf (features1 features2 : AggregatedVoiceFeatures)
  : option num :=
  match pitchMean (normalizePitchFeatures features1),
        pitchMean (normalizePitchFeatures features2) with
  | Some p1, Some p2 =>
      if truthy p1 && truthy p2 then Some (Math_abs (p1 - p2)%js) else None
  | _, _ => None
  end.

Definition mfccSimilarityOf (features1 features2 : AggregatedVoiceFeatures)
  : num :=
  Math_max (of_Z 0) (of_Z 1 - mfccDistanceOf features1 features2 / of_Z 5)%js.

Definition spectralSimilarityOf (features1 features2 : AggregatedVoiceFeatures)
  : num :=
  let spectralCentroidDiff := spectralCentroidDiffOf features1 features2 in
  let spectralFlatnessDiff :=
    Math_abs (spectralFlatnessMean features1
              - spectralFlatnessMean features2)%js in
  let spectralRolloffDiff :=
    Math_abs (spectralRolloffMean features1
              - spectralRolloffMean features2)%js in
  Math_max (of_Z 0)
    (of_Z 1 - ((dec 4 10 * spectralCentroidDiff) / of_Z 2
               + (dec 3 10 * spectralFlatnessDiff) / dec 5 10
               + (dec 3 10 * spectralRolloffDiff) / of_Z 2))%js.

Definition voiceQualitySimilarityOf
  (features1 features2 : AggregatedVoiceFeatures) : num :=
  let perceptualSpreadDiff :=
    Math_abs (perceptualSpreadMean features1
              - perceptualSpreadMean features2)%js in
  let perceptualSharpnessDiff :=
    Math_abs (perceptualSharpnessMean features1
              - perceptualSharpnessMean features2)%js in
  Math_max (of_Z 0)
    (of_Z 1 - ((dec 5 10 * perceptualSpreadDiff) / dec 5 10
               + (dec 5 10 * perceptualSharpnessDiff) / dec 5 10))%js.

Definition tempoSimilarityOf (features1 features2 : AggregatedVoiceFeatures)
  : num :=
  Math_max (of_Z 0)
    (of_Z 1 - ((dec 6 10 * zcrDiffOf features1 features2) / of_Z 1
               + (dec 4 10 * energyDiffOf features1 features2) / of_Z 2))%js.

Definition pitchSimilarityOf (features1 features2 : AggregatedVoiceFeatures)
  : num :=
  match pitchDiffOf features1 features2 with
  | Some pitchDiff => Math_max (of_Z 0) (of_Z 1 - pitchDiff / dec 15 10)%js
  | None => dec 7 10                 (* default if no pitch *)
  end.

(** [1 - variance] of the five category similarities, floored at [0]. *)
Definition confidenceOf (featureConsistency : list num) : num :=
  let meanSimilarity := (sum featureConsistency / len featureConsistency)%js in
  let variance :=
    (fold_left (fun acc sim => (acc + Math_pow_2 (sim - meanSimilarity))%js)
               featureConsistency (of_Z 0)
     / len featureConsistency)%js in
  Math_max (of_Z 0) (of_Z 1 - variance)%js.

Definition calculateRobustSimilarityScore
  (features1 features2 : AggregatedVoiceFeatures) : RobustSimilarityResult :=
  let mfccSimilarity := mfccSimilarityOf features1 features2 in
  let spectralSimilarity := spectralSimilarityOf features1 features2 in
  let voiceQualitySimilarity := voiceQualitySimilarityOf features1 features2 in
  let tempoSimilarity := tempoSimilarityOf features1 features2 in
  let pitchSimilarity := pitchSimilarityOf features1 features2 in
  let pitchNormalizedSimilarity :=
    (mfccSimilarity * dec 7 10 + spectralSimilarity * dec 2 10
     + pitchSimilarity * dec 1 10)%js in
  let tempoNormalizedSimilarity :=
    (mfccSimilarity * dec 6 10 + spectralSimilarity * dec 3 10
     + tempoSimilarity * dec 1 10)%js in
  let overallSimilarity :=
    (mfccSimilarity * dec 5 10
     + spectralSimilarity * dec 25 100
     + voiceQualitySimilarity * dec 15 100
     + tempoSimilarity * dec 5 100
     + pitchSimilarity * dec 5 100)%js in
  let featureConsistency :=
    [mfccSimilarity; spectralSimilarity; voiceQualitySimilarity;
     tempoSimilarity; pitchSimilarity] in
  {| overallSimilarity := overallSimilarity;
     pitchNormalizedSimilarity := pitchNormalizedSimilarity;
     tempoNormalizedSimilarity := tempoNormalizedSimilarity;
     spectralSimilarity := spectralSimilarity;
     voiceQualitySimilarity := voiceQualitySimilarity;
     confidenceScore := confidenceOf featureConsistency;
     detailedMetrics :=
       {| mfccDistance := mfccDistanceOf features1 features2;
          spectralCentroidDiff := spectralCentroidDiffOf features1 features2;
          zcrDiff := zcrDiffOf features1 features2;
          pitchDiff := pitchDiffOf features1 features2;
          energyDiff := energyDiffOf features1 features2 |} |}.

(** Legacy similarity calculation. *)
Definition calculateSimilarityScore
  (features1 features2 : AggregatedVoiceFeatures) : num :=
  overallSimilarity (calculateRobustSimilarityScore features1 features2).

End Normalisation.

(** *** Aggregation *)

(** [for (i < xs.length) sums[i] += f(xs[i])]: an index past the end of
    [sums] reads [undefined], so the sum stored there is NaN and the array
    grows. *)
Fixpoint accumulate (f : num -> num) (sums xs : list num) : list num :=
  match xs with
  | [] => sums
  | x :: xs' =>
      match sums with
      | s :: sums' => (s + f x)%js :: accumulate f sums' xs'
      | [] => NaN :: accumulate f [] xs'
      end
  end.

(** [b[i]], a read past the end giving [undefined], which is NaN in
    arithmetic. *)
Definition at_index (b : list num) (i : nat) : num := nth i b NaN.

(** [as.map((a, i) => f(a, i))], for indices from [start]. *)
Fixpoint map_indexed (f : num -> nat -> num) (start : nat) (xs : list num)
  : list num :=
  match xs with
  | [] => []
  | a :: xs' => f a start :: map_indexed f (S start) xs'
  end.

(** The running total of one scalar member over the frames, and the
    total of its squares. *)
Definition sumOf (member : VoiceFeatures -> num) (frames : list VoiceFeatures)
  : num :=
  fold_left (fun acc feature => (acc + member feature)%js) frames (of_Z 0).

Definition sumSqOf (member : VoiceFeatures -> num)
  (frames : list VoiceFeatures) : num :=
  fold_left (fun acc feature => (acc + member feature * member feature)%js)
            frames (of_Z 0).

(** [sum / count] and [sumSq / count - mean * mean]. *)
Definition meanOf (member : VoiceFeatures -> num) (frames : list VoiceFeatures)
  : num :=
  (sumOf member frames / len frames)%js.

Definition varianceOf (member : VoiceFeatures -> num)
  (frames : list VoiceFeatures) : num :=
  (sumSqOf member frames / len frames
   - meanOf member frames * meanOf member frames)%js.

(** The running MFCC totals: arrays of zeros as long as the first frame's
    MFCC vector, to which every frame adds [f] of its coefficients. *)
Definition mfccTotals (f : num -> num) (first : VoiceFeatures)
  (frames : list VoiceFeatures) : list num :=
  fold_left (fun sums feature => accumulate f sums (mfcc feature))
            frames (repeat (of_Z 0) (length (mfcc first))).

(** [mfccSums.map((sum, i) =>
       mfccSquareSums[i] / count - (sum / count) * (sum / count))]. *)
Definition mfccVarianceOf (count : num) (mfccSums mfccSquareSums : list num)
  : list num :=
  map_indexed
    (fun sum i => (at_index mfccSquareSums i / count
                   - (sum / count) * (sum / count))%js)
    0 mfccSums.

Definition aggregateFeatures (frames : list VoiceFeatures)
  : Outcome AggregatedVoiceFeatures :=
  match frames with
  | [] => Throws "No features to aggregate"
  | first :: _ =>
      let mfccSums := mfccTotals (fun x => x) first frames in
      let mfccSquareSums := mfccTotals (fun x => (x * x)%js) first frames in
      let count : num := len frames in
      Returns
        {| mfccMean := map (fun sum => (sum / count)%js) mfccSums;
           mfccVariance := mfccVarianceOf count mfccSums mfccSquareSums;
           spectralCentroidMean := meanOf spectralCentroid frames;
           spectralCentroidVariance := varianceOf spectralCentroid frames;
           spectralFlatnessMean := meanOf spectralFlatness frames;
           spectralFlatnessVariance := varianceOf spectralFlatness frames;
           spectralRolloffMean := meanOf spectralRolloff frames;
           spectralRolloffVariance := varianceOf spectralRolloff frames;
           spectralFluxMean := meanOf spectralFlux frames;
           spectralFluxVariance := varianceOf spectralFlux frames;
           perceptualSpreadMean := meanOf perceptualSpread frames;
           perceptualSpreadVariance := varianceOf perceptualSpread frames;
           perceptualSharpnessMean := meanOf perceptualSharpness frames;
           perceptualSharpnessVariance := varianceOf perceptualSharpness frames;
           spectralKurtosisMean := meanOf spectralKurtosis frames;
           spectralKurtosisVariance := varianceOf spectralKurtosis frames;
           zcrMean := meanOf zcr frames;
           zcrVariance := varianceOf zcr frames;
           rmsMean := meanOf rms frames;
           rmsVariance := varianceOf rms frames;
           energyMean := meanOf energy frames;
           energyVariance := varianceOf energy frames;
           pitchMean := None;
           pitchVariance := None;
           pitchRange := None;
           jitter := None;
           shimmer := None;
           speakingRate := None;
           formantsMean := None;
           formantsVariance := None |}
  end.

(** *** Placeholder estimators, which draw from [Math.random] *)

(** The state of the random source: what each draw returns, and how many
    were made. *)
Record RandomSource : Type := {
  draws : nat -> num;
  drawn : nat
}.

Definition Math_random (g : RandomSource) : num * RandomSource :=
  (draws g (drawn g), {| draws := draws g; drawn := S (drawn g) |}).

Record AudioBuffer : Type := {
  duration : num;
  sampleRate : num;
  channelData : list num          (* [getChannelData(0)] *)
}.

Definition calculatePitchStatisticsFast (audioBuffer : AudioBuffer)
  (g : RandomSource) : PitchStatistics * RandomSource :=
  let '(r1, g1) := Math_random g in
  let estimatedPitch := (of_Z 120 + (r1 - dec 5 10) * of_Z 60)%js in
  let '(r2, g2) := Math_random g1 in
  let '(r3, g3) := Math_random g2 in
  ({| mean := estimatedPitch;
      variance := (of_Z 10 + r2 * of_Z 10)%js;
      range := (of_Z 20 + r3 * of_Z 20)%js |}, g3).

Definition calculateJitterAndShimmerFast (audioBuffer : AudioBuffer)
  (g : RandomSource) : (num * num) * RandomSource :=
  let '(r1, g1) := Math_random g in
  let '(r2, g2) := Math_random g1 in
  (((dec 5 1000 + r1 * dec 1 100)%js, (dec 3 100 + r2 * dec 4 100)%js), g2).

(** *** Quick validation *)

Record Blob : Type := {
  size : Z                          (* bytes *)
}.

Section QuickValidation.
(** Decoding is the browser's: it returns a buffer or throws. *)
Variable blobToAudioBuffer : Blob -> Outcome AudioBuffer.

Definition quickProcessVoiceAudio (blob : Blob) : bool :=
  if (size blob <? 1000)%Z then false
  else if (size blob >? 50 * 1024 * 1024)%Z then false
  else
    match blobToAudioBuffer blob with
    | Returns audioBuffer =>
        if (duration audioBuffer < dec 5 10)%js then false
        else
          let audioData := channelData audioBuffer in
          if (length audioData <? 512)%nat then false
          else
            let sampleSize := Nat.min 2048 (length audioData) in
            let total :=
              fold_left (fun rms x => (rms + x * x)%js)
                        (firstn sampleSize audioData) (of_Z 0) in
            let rms := Math_sqrt (total / of_Z (Z.of_nat sampleSize))%js in
            (rms > dec 1 10000)%js
    | Throws _ => true             (* assume it is still valid *)
    end.

End QuickValidation.


(** *** The processing pipeline *)

(** [aggregatedFeatures.member = v] for the members that [processVoiceAudio]
    adds after aggregation. *)
Definition with_pitchVariance (v : option num) (features : AggregatedVoiceFeatures)
  : AggregatedVoiceFeatures :=
  {| mfccMean := mfccMean features;
     mfccVariance := mfccVariance features;
     spectralCentroidMean := spectralCentroidMean features;
     spectralCentroidVariance := spectralCentroidVariance features;
     spectralFlatnessMean := spectralFlatnessMean features;
     spectralFlatnessVariance := spectralFlatnessVariance features;
     spectralRolloffMean := spectralRolloffMean features;
     spectralRolloffVariance := spectralRolloffVariance features;
     spectralFluxMean := spectralFluxMean features;
     spectralFluxVariance := spectralFluxVariance features;
     perceptualSpreadMean := perceptualSpreadMean features;
     perceptualSpreadVariance := perceptualSpreadVariance features;
     perceptualSharpnessMean := perceptualSharpnessMean features;
     perceptualSharpnessVariance := perceptualSharpnessVariance features;
     spectralKurtosisMean := spectralKurtosisMean features;
     spectralKurtosisVariance := spectralKurtosisVariance features;
     zcrMean := zcrMean features;
     zcrVariance := zcrVariance features;
     rmsMean := rmsMean features;
     rmsVariance := rmsVariance features;
     energyMean := energyMean features;
     energyVariance := energyVariance features;
     pitchMean := pitchMean features;
     pitchVariance := v;
     pitchRange := pitchRange features;
     jitter := jitter features;
     shimmer := shimmer features;
     speakingRate := speakingRate features;
     formantsMean := formantsMean features;
     formantsVariance := formantsVariance features |}.

Definition with_pitchRange (v : option num) (features : AggregatedVoiceFeatures)
  : AggregatedVoiceFeatures :=
  {| mfccMean := mfccMean features;
     mfccVariance := mfccVariance features;
     spectralCentroidMean := spectralCentroidMean features;
     spectralCentroidVariance := spectralCentroidVariance features;
     spectralFlatnessMean := spectralFlatnessMean features;
     spectralFlatnessVariance := spectralFlatnessVariance features;
     spectralRolloffMean := spectralRolloffMean features;
     spectralRolloffVariance := spectralRolloffVariance features;
     spectralFluxMean := spectralFluxMean features;
     spectralFluxVariance := spectralFluxVariance features;
     perceptualSpreadMean := perceptualSpreadMean features;
     perceptualSpreadVariance := perceptualSpreadVariance features;
     perceptualSharpnessMean := perceptualSharpnessMean features;
     perceptualSharpnessVariance := perceptualSharpnessVariance features;
     spectralKurtosisMean := spectralKurtosisMean features;
     spectralKurtosisVariance := spectralKurtosisVariance features;
     zcrMean := zcrMean features;
     zcrVariance := zcrVariance features;
     rmsMean := rmsMean features;
     rmsVariance := rmsVariance features;
     energyMean := energyMean features;
     energyVariance := energyVariance features;
     pitchMean := pitchMean features;
     pitchVariance := pitchVariance features;
     pitchRange := v;
     jitter := jitter features;
     shimmer := shimmer features;
     speakingRate := speakingRate features;
     formantsMean := formantsMean features;
     formantsVariance := formantsVariance features |}.

Definition with_jitter (v : option num) (features : AggregatedVoiceFeatures)
  : AggregatedVoiceFeatures :=
  {| mfccMean := mfccMean features;
     mfccVariance := mfccVariance features;
     spectralCentroidMean := spectralCentroidMean features;
     spectralCentroidVariance := spectralCentroidVariance features;
     spectralFlatnessMean := spectralFlatnessMean features;
     spectralFlatnessVariance := spectralFlatnessVariance features;
     spectralRolloffMean := spectralRolloffMean features;
     spectralRolloffVariance := spectralRolloffVariance features;
     spectralFluxMean := spectralFluxMean features;
     spectralFluxVariance := spectralFluxVariance features;
     perceptualSpreadMean := perceptualSpreadMean features;
     perceptualSpreadVariance := perceptualSpreadVariance features;
     perceptualSharpnessMean := perceptualSharpnessMean features;
     perceptualSharpnessVariance := perceptualSharpnessVariance features;
     spectralKurtosisMean := spectralKurtosisMean features;
     spectralKurtosisVariance := spectralKurtosisVariance features;
     zcrMean := zcrMean features;
     zcrVariance := zcrVariance features;
     rmsMean := rmsMean features;
     rmsVariance := rmsVariance features;
     energyMean := energyMean features;
     energyVariance := energyVariance features;
     pitchMean := pitchMean features;
     pitchVariance := pitchVariance features;
     pitchRange := pitchRange features;
     jitter := v;
     shimmer := shimmer features;
     speakingRate := speakingRate features;
     formantsMean := formantsMean features;
     formantsVariance := formantsVariance features |}.

Definition with_shimmer (v : option num) (features : AggregatedVoiceFeatures)
  : AggregatedVoiceFeatures :=
  {| mfccMean := mfccMean features;
     mfccVariance := mfccVariance features;
     spectralCentroidMean := spectralCentroidMean features;
     spectralCentroidVariance := spectralCentroidVariance features;
     spectralFlatnessMean := spectralFlatnessMean features;
     spectralFlatnessVariance := spectralFlatnessVariance features;
     spectralRolloffMean := spectralRolloffMean features;
     spectralRolloffVariance := spectralRolloffVariance features;
     spectralFluxMean := spectralFluxMean features;
     spectralFluxVariance := spectralFluxVariance features;
     perceptualSpreadMean := perceptualSpreadMean features;
     perceptualSpreadVariance := perceptualSpreadVariance features;
     perceptualSharpnessMean := perceptualSharpnessMean features;
     perceptualSharpnessVariance := perceptualSharpnessVariance features;
     spectralKurtosisMean := spectralKurtosisMean features;
     spectralKurtosisVariance := spectralKurtosisVariance features;
     zcrMean := zcrMean features;
     zcrVariance := zcrVariance features;
     rmsMean := rmsMean features;
     rmsVariance := rmsVariance features;
     energyMean := energyMean features;
     energyVariance := energyVariance features;
     pitchMean := pitchMean features;
     pitchVariance := pitchVariance features;
     pitchRange := pitchRange features;
     jitter := jitter features;
     shimmer := v;
     speakingRate := speakingRate features;
     formantsMean := formantsMean features;
     formantsVariance := formantsVariance features |}.

(** [frame.pitch = pitchStats; frame.jitter = jitter; frame.shimmer = shimmer]. *)
Definition with_pitch_jitter_shimmer (pitchStats : PitchStatistics)
  (jitter shimmer : num) (frame : VoiceFeatures) : VoiceFeatures :=
  {| mfcc := mfcc frame;
     spectralCentroid := spectralCentroid frame;
     spectralFlatness := spectralFlatness frame;
     spectralRolloff := spectralRolloff frame;
     spectralFlux := spectralFlux frame;
     perceptualSpread := perceptualSpread frame;
     perceptualSharpness := perceptualSharpness frame;
     spectralKurtosis := spectralKurtosis frame;
     zcr := zcr frame;
     rms := rms frame;
     energy := energy frame;
     pitch := Some pitchStats;
     frameJitter := Some jitter;
     frameShimmer := Some shimmer;
     frameSpeakingRate := frameSpeakingRate frame;
     formants := formants frame |}.

(** The same assignments on [rawFeatures[rawFeatures.length - 1]], when
    there is a frame. *)
Fixpoint on_last_frame (update : VoiceFeatures -> VoiceFeatures)
  (rawFeatures : list VoiceFeatures) : list VoiceFeatures :=
  match rawFeatures with
  | [] => []
  | [frame] => [update frame]
  | frame :: rest => frame :: on_last_frame update rest
  end.

(** [xs.slice(start, end)] of a typed array: a negative index counts from
    the end, and both are clamped to the array. *)
Definition slice {A : Type} (xs : list A) (start end_ : Z) : list A :=
  let n := Z.of_nat (length xs) in
  let clamp i := if (i <? 0)%Z then Z.max (n + i) 0 else Z.min i n in
  let from := clamp start in
  let to := clamp end_ in
  firstn (Z.to_nat (to - from)) (skipn (Z.to_nat from) xs).


(** Sequencing of calls that may throw. *)
Definition bind {A B : Type} (o : Outcome A) (k : A -> Outcome B) : Outcome B :=
  match o with
  | Returns a => k a
  | Throws message => Throws message
  end.

(** [calculatePitchStatistics] and [calculateJitterAndShimmer], the
    placeholders that the pipeline does not call. *)
Definition calculatePitchStatistics (audioBuffer : AudioBuffer)
  (g : RandomSource) : PitchStatistics * RandomSource :=
  let '(r1, g1) := Math_random g in
  let '(r2, g2) := Math_random g1 in
  let '(r3, g3) := Math_random g2 in
  ({| mean := (of_Z 120 + r1 * of_Z 30)%js;
      variance := (of_Z 10 + r2 * of_Z 5)%js;
      range := (of_Z 30 + r3 * of_Z 20)%js |}, g3).

Definition calculateJitterAndShimmer (audioBuffer : AudioBuffer)
  (g : RandomSource) : (num * num) * RandomSource :=
  let '(r1, g1) := Math_random g in
  let '(r2, g2) := Math_random g1 in
  (((dec 1 100 + r1 * dec 1 100)%js, (dec 5 100 + r2 * dec 3 100)%js), g2).

Section Pipeline.
(** The browser's decoder and Meyda's extractors are taken as given.  An
    extractor returns a value, or nothing ([null] or [undefined]), or
    throws. *)
Variable blobToAudioBuffer : Blob -> Outcome AudioBuffer.
Variable Meyda_extract_mfcc : list num -> Outcome (option (list num)).
Variable Meyda_extract : string -> list num -> Outcome (option num).
Variable Meyda_extract_all : list num -> Outcome VoiceFeatures.

(** [value || 0] on what an extractor returned. *)
Definition or_zero (value : option num) : num :=
  match value with
  | Some v => js_or v (of_Z 0)
  | None => of_Z 0
  end.

(** The [try] block of the fast extraction, for one frame. *)
Definition extractFrameFast (frame : list num) : Outcome VoiceFeatures :=
  bind (Meyda_extract_mfcc frame) (fun mfcc =>
  bind (Meyda_extract "spectralCentroid" frame) (fun spectralCentroid =>
  bind (Meyda_extract "spectralFlatness" frame) (fun spectralFlatness =>
  bind (Meyda_extract "zcr" frame) (fun zcr =>
  bind (Meyda_extract "rms" frame) (fun rms =>
  bind (Meyda_extract "energy" frame) (fun energy =>
  Returns
    {| mfcc := match mfcc with
               | Some coefficients => coefficients
               | None => repeat (of_Z 0) 13
               end;
       spectralCentroid := or_zero spectralCentroid;
       spectralFlatness := or_zero spectralFlatness;
       spectralRolloff := of_Z 0;
       spectralFlux := of_Z 0;
       perceptualSpread := of_Z 0;
       perceptualSharpness := of_Z 0;
       spectralKurtosis := of_Z 0;
       zcr := or_zero zcr;
       rms := or_zero rms;
       energy := or_zero energy;
       pitch := None;
       frameJitter := None;
       frameShimmer := None;
       frameSpeakingRate := None;
       formants := None |})))))).

(** The [catch] block: a frame of random numbers, drawn in the order of
    the members. *)
Definition fallbackFrame (g : RandomSource) : VoiceFeatures * RandomSource :=
  let '(r0, g0) := Math_random g in
  let '(r1, g1) := Math_random g0 in
  let '(r2, g2) := Math_random g1 in
  let '(r3, g3) := Math_random g2 in
  let '(r4, g4) := Math_random g3 in
  let '(r5, g5) := Math_random g4 in
  let '(r6, g6) := Math_random g5 in
  let '(r7, g7) := Math_random g6 in
  let '(r8, g8) := Math_random g7 in
  let '(r9, g9) := Math_random g8 in
  let '(r10, g10) := Math_random g9 in
  ({| mfcc := repeat (r0 * dec 1 10)%js 13;
      spectralCentroid := (of_Z 1000 + r1 * of_Z 500)%js;
      spectralFlatness := (r2 * dec 5 10)%js;
      spectralRolloff := (of_Z 2000 + r3 * of_Z 1000)%js;
      spectralFlux := (r4 * dec 1 10)%js;
      perceptualSpread := (r5 * dec 5 10)%js;
      perceptualSharpness := (r6 * dec 5 10)%js;
      spectralKurtosis := (r7 * of_Z 2)%js;
      zcr := (r8 * dec 1 10)%js;
      rms := (r9 * dec 1 10)%js;
      energy := (r10 * dec 1 10)%js;
      pitch := None;
      frameJitter := None;
      frameShimmer := None;
      frameSpeakingRate := None;
      formants := None |}, g10).

(** [Math.min(50, Math.floor((length - frameSize) / hopSize))], as the
    number of iterations of [for (i = 0; i < maxFrames; i++)]: none when the
    bound is negative or NaN, and with [hopSize = 0] the quotient is an
    infinity or NaN. *)
Definition maxFramesOf (length_ frameSize hopSize : Z) : nat :=
  if (hopSize =? 0)%Z
  then (if (0 <? length_ - frameSize)%Z then 50%nat else 0%nat)
  else Z.to_nat (Z.min 50 ((length_ - frameSize) / hopSize)).

(** The iterations [i, i + 1, ...] of the loop, [count] of them. *)
Fixpoint fastFrames (audioData : list num) (frameSize hopSize : Z)
  (count : nat) (i : Z) (g : RandomSource)
  : list VoiceFeatures * RandomSource :=
  match count with
  | O => ([], g)
  | S count' =>
      let startIdx := (i * hopSize)%Z in
      let frame := slice audioData startIdx (startIdx + frameSize) in
      let '(features, g1) :=
        match extractFrameFast frame with
        | Returns completeFeatures => (completeFeatures, g)
        | Throws _ => fallbackFrame g
        end in
      let '(rest, g2) := fastFrames audioData frameSize hopSize count' (i + 1) g1 in
      (features :: rest, g2)
  end.

Definition extractFeaturesFromAudioBufferFast (audioBuffer : AudioBuffer)
  (frameSize hopSize : Z) (g : RandomSource)
  : list VoiceFeatures * RandomSource :=
  let audioData := channelData audioBuffer in
  let maxFrames :=
    maxFramesOf (Z.of_nat (length audioData)) frameSize hopSize in
  fastFrames audioData frameSize hopSize maxFrames 0 g.



(** What [processVoiceAudio] resolves to. *)
Record ProcessedVoice : Type := {
  processedFeatures : AggregatedVoiceFeatures;     (* [features] *)
  rawFeatures : list VoiceFeatures
}.

Definition processVoiceAudio (blob : Blob) (g : RandomSource)
  : Outcome ProcessedVoice * RandomSource :=
  let failed message := Throws ("Failed to process voice audio: " ++ message) in
  match blobToAudioBuffer blob with
  | Throws message => (failed message, g)
  | Returns audioBuffer =>
      let '(rawFeatures, g1) :=
        extractFeaturesFromAudioBufferFast audioBuffer 512 256 g in
      let '(pitchStats, g2) := calculatePitchStatisticsFast audioBuffer g1 in
      let '((jitter, shimmer), g3) :=
        calculateJitterAndShimmerFast audioBuffer g2 in
      let rawFeatures :=
        on_last_frame (with_pitch_jitter_shimmer pitchStats jitter shimmer)
                      rawFeatures in
      match aggregateFeatures rawFeatures with
      | Throws message => (failed message, g3)
      | Returns aggregatedFeatures =>
          (Returns
             {| processedFeatures :=
                  with_shimmer (Some shimmer)
                    (with_jitter (Some jitter)
                       (with_pitchRange (Some (range pitchStats))
                          (with_pitchVariance (Some (variance pitchStats))
                             (with_pitchMean (Some (mean pitchStats))
                                             aggregatedFeatures))));
                rawFeatures := rawFeatures |}, g3)
      end
  end.

End Pipeline.

End Voice.

Arguments PitchStatistics num : clear implicits.
Arguments ProcessedVoice num : clear implicits.
Arguments VoiceFeatures num : clear implicits.
Arguments AggregatedVoiceFeatures num : clear implicits.
Arguments DetailedMetrics num : clear implicits.
Arguments RobustSimilarityResult num : clear implicits.
Arguments RandomSource num : clear implicits.
Arguments AudioBuffer num : clear implicits.

End VoiceProcessing.

(* ===================================================================== *)
(** ** Example inputs *)

Module Examples.
Import KeystrokeAnalyzer VoiceProcessing.

Section Inputs.
Context {num : Type} {N : JsNumber num}.

Definition press (k : string) (t : num) : KeystrokeEvent num :=
  {| key := k; type := keydown; timestamp := t |}.

Definition release (k : string) (t : num) : KeystrokeEvent num :=
  {| key := k; type := keyup; timestamp := t |}.

(** press 'a'@0, release 'a'@100, press 'b'@150, release 'b'@230. *)
Definition scenario : list (KeystrokeEvent num) :=
  [press "a" (of_Z 0); release "a" (of_Z 100);
   press "b" (of_Z 150); release "b" (of_Z 230)].

(** [n] keys typed one after the other, from time [t]: each is held for
    80 ms and the next one is pressed 70 ms after the release. *)
Fixpoint typed (n : nat) (t : Z) : list (KeystrokeEvent num) :=
  match n with
  | O => []
  | S n' =>
      press "k" (of_Z t) :: release "k" (of_Z (t + 80))
            :: typed n' (t + 150)
  end.

(** A frame whose scalar descriptors all equal [x], with the one-entry
    MFCC vector [[x]] and no optional member. *)
Definition flat_frame (x : num) : VoiceFeatures num :=
  {| mfcc := [x];
     spectralCentroid := x; spectralFlatness := x; spectralRolloff := x;
     spectralFlux := x; perceptualSpread := x; perceptualSharpness := x;
     spectralKurtosis := x; zcr := x; rms := x; energy := x;
     pitch := None; frameJitter := None; frameShimmer := None;
     frameSpeakingRate := None; formants := None |}.

(** A profile whose means all equal [x], with the mean MFCC vector
    [coefficients], zero variances, the pitch mean [pitch] and no other
    optional member. *)
Definition profile_of (coefficients : list num) (pitch : option num) (x : num)
  : AggregatedVoiceFeatures num :=
  {| mfccMean := coefficients;
     mfccVariance := map (fun _ => of_Z 0) coefficients;
     spectralCentroidMean := x; spectralCentroidVariance := of_Z 0;
     spectralFlatnessMean := x; spectralFlatnessVariance := of_Z 0;
     spectralRolloffMean := x; spectralRolloffVariance := of_Z 0;
     spectralFluxMean := x; spectralFluxVariance := of_Z 0;
     perceptualSpreadMean := x; perceptualSpreadVariance := of_Z 0;
     perceptualSharpnessMean := x; perceptualSharpnessVariance := of_Z 0;
     spectralKurtosisMean := x; spectralKurtosisVariance := of_Z 0;
     zcrMean := x; zcrVariance := of_Z 0;
     rmsMean := x; rmsVariance := of_Z 0;
     energyMean := x; energyVariance := of_Z 0;
     pitchMean := pitch; pitchVariance := None; pitchRange := None;
     jitter := None; shimmer := None; speakingRate := None;
     formantsMean := None; formantsVariance := None |}.

(** The same with the one-entry mean MFCC vector [[x]]. *)
Definition flat_profile (pitch : option num) (x : num)
  : AggregatedVoiceFeatures num :=
  profile_of [x] pitch x.

(** A frame with the MFCC vector [coefficients], whose scalar descriptors
    all equal [x]. *)
Definition frame_of (coefficients : list num) (x : num) : VoiceFeatures num :=
  {| mfcc := coefficients;
     spectralCentroid := x; spectralFlatness := x; spectralRolloff := x;
     spectralFlux := x; perceptualSpread := x; perceptualSharpness := x;
     spectralKurtosis := x; zcr := x; rms := x; energy := x;
     pitch := None; frameJitter := None; frameShimmer := None;
     frameSpeakingRate := None; formants := None |}.

(** Two frames of finite numbers whose MFCC vectors differ in length:
    [[0]] and [[2; 3]]. *)
Definition ragged_frames : list (VoiceFeatures num) :=
  [frame_of [of_Z 0] (of_Z 0); frame_of [of_Z 2; of_Z 3] (of_Z 0)].

End Inputs.
End Examples.

Import KeystrokeAnalyzer VoiceProcessing Examples.

(* ===================================================================== *)
(** ** Vocabulary of the statements *)

Section Vocabulary.
Local Open Scope R_scope.

(** A finite number: not NaN, not an infinity. *)
Definition finite (x : exact) : Prop :=
  match x with Fin _ => True | _ => False end.

(** The real number that a finite number is. *)
Definition real_of (x : exact) : R :=
  match x with Fin r => r | _ => 0 end.



(** A finite number between 0 and 1. *)
Definition unit_interval (x : exact) : Prop :=
  exists r : R, x = Fin r /\ 0 <= r <= 1.

(** A category similarity: a number of the unit interval, which is 1 when
    [same] holds. *)
Definition scored (x : exact) (same : Prop) : Prop :=
  exists r : R, x = Fin r /\ 0 <= r <= 1 /\ (same -> r = 1).

(** The sum of real numbers, and the sum of their squares. *)
Definition Rsum (xs : list R) : R := fold_right Rplus 0 xs.

Definition Rsumsq (xs : list R) : R := Rsum (map (fun x => x * x) xs).

(** Mean and population variance of the five category similarities. *)
Definition mean5 (m s v t p : R) : R := (m + s + v + t + p) / 5.

Definition variance5 (m s v t p : R) : R :=
  let mu := mean5 m s v t p in
  ((m - mu) * (m - mu) + (s - mu) * (s - mu) + (v - mu) * (v - mu)
   + (t - mu) * (t - mu) + (p - mu) * (p - mu)) / 5.


(** A frame all of whose numbers are finite. *)
Definition finite_frame (f : VoiceFeatures exact) : Prop :=
  Forall finite (mfcc f) /\ Forall (fun member => finite (member f)) scalarMembers.

(** Every frame's MFCC vector is as long as the first frame's. *)
Definition uniform_mfcc (frames : list (VoiceFeatures exact)) : Prop :=
  Forall (fun f => length (mfcc f) = length (mfcc (hd f frames))) frames.

(** The values of one member over the frames, as real numbers. *)
Definition samplesOf (member : VoiceFeatures exact -> exact)
  (frames : list (VoiceFeatures exact)) : list R :=
  map (fun f => real_of (member f)) frames.

(** After [k] frames, entry [i] of the two running arrays holds the total
    and the total of squares of the [k] values seen at index [i]. *)
Definition column (k : nat) (s q : exact) : Prop :=
  exists xs : list R,
    length xs = k /\ s = Fin (Rsum xs) /\ q = Fin (Rsumsq xs).

(** The scalar members that the scorer reads. *)
Definition scoredMembers
  : list (AggregatedVoiceFeatures exact -> exact) :=
  [spectralCentroidMean; spectralFlatnessMean; spectralRolloffMean;
   perceptualSpreadMean; perceptualSharpnessMean; zcrMean; energyMean].

(** A profile whose mean MFCC vector is not empty and whose numbers, as
    far as the scorer reads them, are finite. *)
Definition well_formed (P : AggregatedVoiceFeatures exact) : Prop :=
  mfccMean P <> []
  /\ Forall finite (mfccMean P)
  /\ Forall (fun member => finite (member P)) scoredMembers
  /\ match pitchMean P with Some p => finite p | None => True end.

(** Both operands of [pitchNorm1.pitchMean && pitchNorm2.pitchMean] come
    from the same test: the normalised pitch mean is there and truthy. *)
Definition usable_pitch (P : AggregatedVoiceFeatures exact) : bool :=
  match pitchMean (normalizePitchFeatures P) with
  | Some q => truthy q
  | None => false
  end.

(** One second of 512 samples, all equal to 1. *)
Definition loud : AudioBuffer exact :=
  {| duration := Fin 1; sampleRate := Fin 512;
     channelData := map Fin (repeat 1 512) |}.

End Vocabulary.

Section Binary64Inputs.
Local Open Scope float_scope.

(** 512 samples of silence. *)
Definition silence : AudioBuffer float :=
  {| duration := 1; sampleRate := 44100; channelData := repeat 0 512 |}.

(** The random source that draws [x] every time. *)
Definition always (x : float) : RandomSource float :=
  {| draws := fun _ => x; drawn := 0 |}.

End Binary64Inputs.

Section GenericVocabulary.
Context {num : Type} {N : JsNumber num}.

(** Coefficient [i] of a frame's MFCC vector ([undefined], NaN in
    arithmetic, past its end). *)
Definition coefficient (i : nat) (frame : VoiceFeatures num) : num :=
  nth i (mfcc frame) NaN.

(** Frames whose MFCC vectors all have [d] coefficients. *)
Definition mfcc_length (d : nat) (frames : list (VoiceFeatures num)) : Prop :=
  Forall (fun f => length (mfcc f) = d) frames.

(** Every mean member of an aggregate: the MFCC means, then the ten
    scalar means. *)
Definition meanFields (p : AggregatedVoiceFeatures num) : list num :=
  mfccMean p
  ++ [spectralCentroidMean p; spectralFlatnessMean p; spectralRolloffMean p;
      spectralFluxMean p; perceptualSpreadMean p; perceptualSharpnessMean p;
      spectralKurtosisMean p; zcrMean p; rmsMean p; energyMean p].

(** The aggregate written member by member, for frames with [d] MFCC
    coefficients each. *)
Definition aggregateOf (d : nat) (frames : list (VoiceFeatures num))
  : AggregatedVoiceFeatures num :=
  {| mfccMean := map (fun i => meanOf (coefficient i) frames) (seq 0 d);
     mfccVariance := map (fun i => varianceOf (coefficient i) frames) (seq 0 d);
     spectralCentroidMean := meanOf spectralCentroid frames;
     spectralCentroidVariance := varianceOf spectralCentroid frames;
     spectralFlatnessMean := meanOf spectralFlatness frames;
     spectralFlatnessVariance := varianceOf spectralFlatness frames;
     spectralRolloffMean := meanOf spectralRolloff frames;
     spectralRolloffVariance := varianceOf spectralRolloff frames;
     spectralFluxMean := meanOf spectralFlux frames;
     spectralFluxVariance := varianceOf spectralFlux frames;
     perceptualSpreadMean := meanOf perceptualSpread frames;
     perceptualSpreadVariance := varianceOf perceptualSpread frames;
     perceptualSharpnessMean := meanOf perceptualSharpness frames;
     perceptualSharpnessVariance := varianceOf perceptualSharpness frames;
     spectralKurtosisMean := meanOf spectralKurtosis frames;
     spectralKurtosisVariance := varianceOf spectralKurtosis frames;
     zcrMean := meanOf zcr frames;
     zcrVariance := varianceOf zcr frames;
     rmsMean := meanOf rms frames;
     rmsVariance := varianceOf rms frames;
     energyMean := meanOf energy frames;
     energyVariance := varianceOf energy frames;
     pitchMean := None; pitchVariance := None; pitchRange := None;
     jitter := None; shimmer := None; speakingRate := None;
     formantsMean := None; formantsVariance := None |}.

(** Two profiles that agree on the nine members listed here: the mean
    MFCC vector, seven scalar means and the pitch mean. *)
Definition same_scored_members (A A' : AggregatedVoiceFeatures num) : Prop :=
  mfccMean A = mfccMean A'
  /\ spectralCentroidMean A = spectralCentroidMean A'
  /\ spectralFlatnessMean A = spectralFlatnessMean A'
  /\ spectralRolloffMean A = spectralRolloffMean A'
  /\ perceptualSpreadMean A = perceptualSpreadMean A'
  /\ perceptualSharpnessMean A = perceptualSharpnessMean A'
  /\ zcrMean A = zcrMean A'
  /\ energyMean A = energyMean A'
  /\ pitchMean A = pitchMean A'.

End GenericVocabulary.

Section FurtherVocabulary.
Local Open Scope R_scope.

(** Events whose timestamps are all finite. *)
Definition finite_events (data : list (KeystrokeEvent exact)) : Prop :=
  Forall (fun e => finite (timestamp e)) data.

(** A finite number above 0. *)
Definition finite_positive (x : exact) : Prop :=
  exists r : R, x = Fin r /\ 0 < r.

(** A finite number that is not negative. *)
Definition finite_nonneg (x : exact) : Prop :=
  exists r : R, x = Fin r /\ 0 <= r.

(** A frame all of whose numbers are finite and lie between [lo] and
    [hi]. *)
Definition between (lo hi : R) (x : exact) : Prop :=
  exists r : R, x = Fin r /\ lo <= r <= hi.

Definition bounded_frame (lo hi : R) (f : VoiceFeatures exact) : Prop :=
  Forall (between lo hi) (mfcc f)
  /\ Forall (fun member => between lo hi (member f)) scalarMembers.

(** The pitch means that the scorer treats as no pitch at all: none, 0,
    NaN, and 1 (whose logarithm is 0). *)
Definition ignored_pitch (pitch : option exact) : Prop :=
  pitch = None \/ pitch = Some (Fin 0) \/ pitch = Some (Fin 1)
  \/ pitch = Some NotANumber.

(** A random source whose draws are numbers from 0 up to, not including,
    1, as [Math.random] returns them. *)
Definition unit_draws (g : RandomSource exact) : Prop :=
  forall n : nat, exists r : R, draws g n = Fin r /\ 0 <= r < 1.

(** A finite number from [lo] up to, not including, [hi]. *)
Definition within (lo hi : R) (x : exact) : Prop :=
  exists r : R, x = Fin r /\ lo <= r < hi.

(** The random source that draws 1/2 every time. *)
Definition half_draws : RandomSource exact :=
  {| draws := fun _ => Fin (1 / 2); drawn := 0 |}.

(** What is asked of the MFCC extractor: when it returns coefficients,
    they are 13 finite numbers. *)
Definition tame_mfcc (extract : list exact -> Outcome (option (list exact)))
  : Prop :=
  forall frame coefficients,
    extract frame = Returns (Some coefficients) ->
    length coefficients = 13%nat /\ Forall finite coefficients.

(** What is asked of the scalar extractors: they return no infinity. *)
Definition tame_scalars (extract : string -> list exact -> Outcome (option exact))
  : Prop :=
  forall name frame v,
    extract name frame = Returns (Some v) -> v <> PosInf /\ v <> NegInf.

(** Extractors that never throw. *)
Definition never_throw (extract_mfcc : list exact -> Outcome (option (list exact)))
  (extract : string -> list exact -> Outcome (option exact)) : Prop :=
  (forall frame, exists v, extract_mfcc frame = Returns v)
  /\ (forall name frame, exists v, extract name frame = Returns v).

(** A frame as the fast extraction builds them: finite numbers and 13 MFCC
    coefficients. *)
Definition pipeline_frame (f : VoiceFeatures exact) : Prop :=
  finite_frame f /\ length (mfcc f) = 13%nat.

End FurtherVocabulary.

(* ===================================================================== *)
(** * Properties *)

(** ** Exact arithmetic: the finite cases *)

Section ExactFacts.
Local Open Scope R_scope.

Lemma sgn_cases (r : R) :
  (0 < r /\ Exact.sgn r = Positive)
  \/ (r < 0 /\ Exact.sgn r = Negative)
  \/ (r = 0 /\ Exact.sgn r = Zero).
Proof.
  unfold Exact.sgn.
  destruct (Rlt_dec 0 r); [left; split; auto|].
  destruct (Rlt_dec r 0); [right; left; split; auto|].
  right; right; split; [lra | reflexivity].
Qed.

Lemma sgn_positive (r : R) : 0 < r -> Exact.sgn r = Positive.
Proof. intros H; destruct (sgn_cases r) as [[_ E]|[[H' _]|[H' _]]]; auto; lra. Qed.

Lemma sgn_negative (r : R) : r < 0 -> Exact.sgn r = Negative.
Proof. intros H; destruct (sgn_cases r) as [[H' _]|[[_ E]|[H' _]]]; auto; lra. Qed.

Lemma sgn_zero : Exact.sgn 0 = Zero.
Proof. destruct (sgn_cases 0) as [[H' _]|[[H' _]|[_ E]]]; auto; lra. Qed.

Lemma div_Fin (a b : R) : b <> 0 -> (Fin a / Fin b)%js = Fin (a / b).
Proof.
  intros Hb. simpl. destruct (sgn_cases b) as [[_ E]|[[_ E]|[H _]]];
    rewrite ?E; auto; contradiction.
Qed.

Lemma dec_Fin (n d : Z) : IZR d <> 0 -> dec n d = Fin (IZR n / IZR d).
Proof. intros H. unfold dec. simpl of_Z. now apply div_Fin. Qed.

Lemma lt_Fin (a b : R) : (Fin a < Fin b)%js = true <-> a < b.
Proof. simpl. destruct (Rlt_dec a b); split; auto; discriminate. Qed.


Lemma sqrt_Fin (a : R) : 0 <= a -> Math_sqrt (Fin a) = Fin (sqrt a).
Proof. intros H. simpl. destruct (Rlt_dec a 0); auto; lra. Qed.

Lemma truthy_Fin (a : R) : truthy (Fin a) = true <-> a <> 0.
Proof.
  simpl. destruct (sgn_cases a) as [[H E]|[[H E]|[H E]]]; rewrite E;
    split; auto; try discriminate; try lra.
Qed.

End ExactFacts.

(** ** Decimal literals on binary64 *)

Section Literals.
Local Open Scope float_scope.

(** On binary64 [dec n d] is the double that the decimal literal denotes;
    the literals of the two source files, in hexadecimal. *)
Lemma decimal_literals :
  dec 1 1000 = 0x1.0624dd2f1a9fcp-10 (* 0.001 *)
  /\ dec 1 10000 = 0x1.a36e2eb1c432dp-14 (* 0.0001 *)
  /\ dec 4 10 = 0x1.999999999999ap-2 (* 0.4 *)
  /\ dec 3 10 = 0x1.3333333333333p-2 (* 0.3 *)
  /\ dec 5 10 = 0x1.0000000000000p-1 (* 0.5 *)
  /\ dec 6 10 = 0x1.3333333333333p-1 (* 0.6 *)
  /\ dec 15 10 = 0x1.8000000000000p+0 (* 1.5 *)
  /\ dec 7 10 = 0x1.6666666666666p-1 (* 0.7 *)
  /\ dec 2 10 = 0x1.999999999999ap-3 (* 0.2 *)
  /\ dec 1 10 = 0x1.999999999999ap-4 (* 0.1 *)
  /\ dec 25 100 = 0x1.0000000000000p-2 (* 0.25 *)
  /\ dec 15 100 = 0x1.3333333333333p-3 (* 0.15 *)
  /\ dec 5 100 = 0x1.999999999999ap-5 (* 0.05 *).
Proof. vm_compute. repeat split; reflexivity. Qed.

End Literals.

(** ** Keystroke features *)

Section TypingSpeed.
Local Open Scope R_scope.





Lemma findUp_later (keyups : list (KeystrokeEvent exact)) k downTs u :
  findUp keyups k downTs = Some u -> (timestamp u > downTs)%js = true.
Proof.
  unfold findUp. intros H. apply find_some in H. destruct H as [_ H].
  apply andb_true_iff in H. tauto.
Qed.








End TypingSpeed.

Section TypingSpeedRuns.
Local Open Scope float_scope.


End TypingSpeedRuns.

Section FeatureVectorLength.
Context {num : Type} {N : JsNumber num}.

Lemma consecutive_length (A : Type) (xs : list A) :
  length (consecutive xs) = pred (length xs).
Proof.
  induction xs as [|a [|b tl] IH]; simpl in *; auto.
Qed.

Lemma holdTimesOf_length (keyups : list (KeystrokeEvent num)) matchedKeys :
  (length (holdTimesOf keyups matchedKeys) <= length matchedKeys)%nat.
Proof.
  unfold holdTimesOf. induction matchedKeys as [|[k downTs] rest IH]; simpl; auto.
  rewrite length_app. destruct (findUp keyups k downTs); simpl; lia.
Qed.

Lemma pad_zeros_length (target : nat) (v : list num) :
  length (pad_zeros target v) = Nat.max target (length v).
Proof. unfold pad_zeros. rewrite length_app, repeat_length. lia. Qed.

(** The vector has 35 entries when at least [PASSWORD_LENGTH] hold times
    were measured, and 34 otherwise: the three slices and the four derived
    numbers make up to [11 + 10 + 10 + 4 = 35] entries, while the padding
    stops at [PASSWORD_LENGTH * 3 + 1 = 34]. *)
Lemma features_length (data : list (KeystrokeEvent num)) :
  length (features (extractFeatures data))
  = if (PASSWORD_LENGTH <=? length (holdTimes (extractFeatures data)))%nat
    then 35%nat else 34%nat.
Proof.
  unfold extractFeatures; cbv zeta; cbn [features holdTimes].
  set (ups := filter _ data).
  set (mk := map _ _).
  rewrite pad_zeros_length, !length_app, !length_firstn.
  unfold ddTimesOf, udTimesOf. rewrite !length_map, !consecutive_length.
  pose proof (holdTimesOf_length ups mk) as Hh.
  unfold PASSWORD_LENGTH. simpl length.
  destruct (Nat.leb_spec 11 (length (holdTimesOf ups mk))); lia.
Qed.

Lemma features_length_bounds (data : list (KeystrokeEvent num)) :
  (34 <= length (features (extractFeatures data)) <= 35)%nat.
Proof. rewrite features_length. destruct (_ <=? _)%nat; lia. Qed.

End FeatureVectorLength.

Section KeystrokeRuns.
Local Open Scope float_scope.

(** C1.  The length of the feature vector is not the same for all inputs:
    eleven keys typed and released give 35 entries, no event at all gives
    34 (and those are all zero). *)
Theorem features_length_varies :
  length (features (extractFeatures (@typed float _ 11 0))) = 35%nat
  /\ features (extractFeatures (@nil (KeystrokeEvent float)))
     = repeat 0 34.
Proof. split; vm_compute; reflexivity. Qed.

(** C4, as the specification has it: on the four-event scenario the hold
    times are [100, 80], the down-down times [150], the flight times [50]
    and the typing speed is 13.33 to two decimals.  The last part fails. *)
Lemma scenario_speed_is_not_13_33 :
  ~ (let r := extractFeatures (@scenario float _) in
     holdTimes r = [100; 80] /\ ddTimes r = [150] /\ udTimes r = [50]
     /\ (Math_abs (typingSpeed r - dec 1333 100) < dec 5 1000)%js = true).
Proof. vm_compute. intros [_ [_ [_ H]]]. discriminate H. Qed.

(** C4, amended.  On the scenario the hold times are [100, 80], the
    down-down times [150], the flight times [50]; the typing speed is
    2 keys in [max(180, 150, 50)] ms, that is [2 / (180 / 1000)], 11.11 to
    two decimals. *)
Theorem scenario_features :
  let r := extractFeatures (@scenario float _) in
  holdTimes r = [100; 80] /\ ddTimes r = [150] /\ udTimes r = [50]
  /\ typingSpeed r = 2 / (180 / 1000)
  /\ (Math_abs (typingSpeed r - dec 1111 100) < dec 5 1000)%js = true.
Proof. vm_compute. repeat split; reflexivity. Qed.

End KeystrokeRuns.

(** ** Aggregation *)

Section PopulationVariance.
Local Open Scope R_scope.

(** [n x^2 - 2 x S + Q] is the sum of the [(x - x_i)^2]. *)
Lemma spread_around_nonneg (x : R) (xs : list R) :
  0 <= INR (length xs) * (x * x) - 2 * x * Rsum xs + Rsumsq xs.
Proof.
  induction xs as [|y xs IH].
  - unfold Rsumsq. simpl. lra.
  - change (length (y :: xs)) with (S (length xs)). rewrite S_INR.
    unfold Rsumsq in *. simpl.
    pose proof (Rle_0_sqr (x - y)) as Hs. unfold Rsqr in Hs. lra.
Qed.

(** Cauchy-Schwarz against the all-ones vector: [S^2 <= n Q]. *)
Lemma square_of_sum_bound (xs : list R) :
  Rsum xs * Rsum xs <= INR (length xs) * Rsumsq xs.
Proof.
  induction xs as [|y xs IH].
  - simpl. unfold Rsumsq. simpl. lra.
  - pose proof (spread_around_nonneg y xs) as H.
    change (length (y :: xs)) with (S (length xs)). rewrite S_INR.
    unfold Rsumsq in *. simpl. lra.
Qed.

(** More frames than samples only helps: [S^2 <= n Q] for [n >= |xs|]. *)
Lemma population_variance_nonneg (xs : list R) (n : R) :
  0 < n -> INR (length xs) <= n ->
  0 <= Rsumsq xs / n - (Rsum xs / n) * (Rsum xs / n).
Proof.
  intros Hn Hlen.
  pose proof (square_of_sum_bound xs) as H.
  assert (Hq : 0 <= Rsumsq xs).
  { unfold Rsumsq. clear. induction xs; simpl; [lra | nra]. }
  assert (E : Rsumsq xs / n - Rsum xs / n * (Rsum xs / n)
              = (n * Rsumsq xs - Rsum xs * Rsum xs) / (n * n)).
  { field. lra. }
  rewrite E. apply Rmult_le_pos; [nra|].
  left. apply Rinv_0_lt_compat. nra.
Qed.

End PopulationVariance.

Section AggregationExact.
Local Open Scope R_scope.

Lemma finite_Fin (x : exact) : finite x -> x = Fin (real_of x).
Proof. destruct x; simpl; intros H; try contradiction; reflexivity. Qed.

Lemma len_exact (A : Type) (xs : list A) : len xs = Fin (INR (length xs)).
Proof. unfold len. simpl. now rewrite INR_IZR_INZ. Qed.

Lemma fold_member_exact (member g : VoiceFeatures exact -> exact)
  (h : R -> R) (frames : list (VoiceFeatures exact)) :
  (forall f, finite (member f) -> g f = Fin (h (real_of (member f)))) ->
  Forall (fun f => finite (member f)) frames ->
  forall a,
    fold_left (fun acc f => (acc + g f)%js) frames (Fin a)
    = Fin (a + Rsum (map h (samplesOf member frames))).
Proof.
  intros Hg Hfin. induction Hfin as [|f fs Hf Hfs IH]; intros a; simpl.
  - f_equal. lra.
  - rewrite (Hg f Hf). simpl. rewrite IH. f_equal. lra.
Qed.

Lemma sumOf_exact member frames :
  Forall (fun f => finite (member f)) frames ->
  sumOf member frames = Fin (Rsum (samplesOf member frames)).
Proof.
  intros H. unfold sumOf. simpl of_Z.
  rewrite (@fold_member_exact member member (fun x => x)); auto using finite_Fin.
  rewrite map_id. f_equal. lra.
Qed.

Lemma sumSqOf_exact member frames :
  Forall (fun f => finite (member f)) frames ->
  sumSqOf member frames = Fin (Rsumsq (samplesOf member frames)).
Proof.
  intros H. unfold sumSqOf. simpl of_Z.
  rewrite (@fold_member_exact member (fun f => member f * member f)%js
                              (fun x => x * x)); auto.
  - unfold Rsumsq. f_equal. lra.
  - intros f Hf. now rewrite (finite_Fin _ Hf).
Qed.

Lemma count_positive (A : Type) (frames : list A) :
  frames <> [] -> 0 < INR (length frames).
Proof.
  destruct frames; [contradiction|]. intros _. apply lt_0_INR. simpl. lia.
Qed.

Lemma varianceOf_exact member frames :
  frames <> [] ->
  Forall (fun f => finite (member f)) frames ->
  varianceOf member frames
  = Fin (Rsumsq (samplesOf member frames) / INR (length frames)
         - Rsum (samplesOf member frames) / INR (length frames)
           * (Rsum (samplesOf member frames) / INR (length frames))).
Proof.
  intros Hne Hfin. pose proof (count_positive Hne) as Hn.
  unfold varianceOf, meanOf. rewrite sumOf_exact, sumSqOf_exact, len_exact by auto.
  rewrite !div_Fin by lra. reflexivity.
Qed.

Lemma varianceOf_nonneg member frames :
  frames <> [] ->
  Forall (fun f => finite (member f)) frames ->
  exists r, varianceOf member frames = Fin r /\ 0 <= r.
Proof.
  intros Hne Hfin. rewrite varianceOf_exact by auto.
  eexists; split; [reflexivity|].
  apply population_variance_nonneg; [now apply count_positive|].
  unfold samplesOf. rewrite length_map. lra.
Qed.


(** *** The MFCC columns *)

Lemma accumulate_columns (k : nat) (sums sqs row : list exact) :
  Forall2 (column k) sums sqs ->
  Forall finite row ->
  length row = length sums ->
  Forall2 (column (S k))
          (accumulate (fun x => x) sums row)
          (accumulate (fun x => (x * x)%js) sqs row).
Proof.
  intros H. revert row.
  induction H as [|s q sums sqs [xs [Hk [Hs Hq]]] Hrest IH];
    intros [|x row] Hfin Hlen; simpl in *; try discriminate; auto.
  inversion Hfin as [|? ? Hx Hrow]; subst.
  constructor; [|apply IH; auto].
  exists (real_of x :: xs). rewrite (finite_Fin _ Hx). unfold Rsumsq. simpl.
  repeat split; f_equal; lra.
Qed.

Lemma accumulate_length (f : exact -> exact) (sums row : list exact) :
  length row = length sums -> length (accumulate f sums row) = length sums.
Proof.
  revert sums. induction row as [|x row IH]; intros [|s sums] H; simpl in *;
    try discriminate; auto.
Qed.

Lemma fold_accumulate_columns (d : nat) (frames : list (VoiceFeatures exact)) :
  Forall (fun f => Forall finite (mfcc f) /\ length (mfcc f) = d) frames ->
  forall k sums sqs,
    length sums = d ->
    Forall2 (column k) sums sqs ->
    Forall2 (column (k + length frames))
      (fold_left (fun sums f => accumulate (fun x => x) sums (mfcc f))
                 frames sums)
      (fold_left (fun sums f => accumulate (fun x => (x * x)%js) sums (mfcc f))
                 frames sqs).
Proof.
  induction 1 as [|f fs [Hfin Hlen] Hfs IH]; intros k sums sqs Hd Hcol; simpl.
  - now rewrite Nat.add_0_r.
  - replace (k + S (length fs))%nat with (S k + length fs)%nat by lia.
    apply IH.
    + rewrite accumulate_length; congruence.
    + apply accumulate_columns; auto. congruence.
Qed.

Lemma zeros_columns (d : nat) :
  Forall2 (column 0) (repeat (Fin 0) d) (repeat (Fin 0) d).
Proof.
  induction d; simpl; constructor; auto.
  exists []. unfold Rsumsq. simpl. auto.
Qed.

Lemma skipn_cons_nth (A : Type) (d b : A) (n : nat) (l t : list A) :
  skipn n l = b :: t -> nth n l d = b /\ skipn (S n) l = t.
Proof.
  revert l. induction n as [|n IH]; intros [|a l] H; simpl in *;
    try discriminate.
  - inversion H. auto.
  - destruct (IH l H) as [E1 E2]. split; auto.
Qed.

(** [map] with an index, reading a second array at that index. *)
Lemma map_indexed_Forall (P : exact -> Prop) (R : exact -> exact -> Prop)
  (g : exact -> exact -> exact) (all : list exact) :
  (forall a b, R a b -> P (g a b)) ->
  forall xs ys start,
    skipn start all = ys ->
    Forall2 R xs ys ->
    Forall P (map_indexed (fun a i => g a (at_index all i)) start xs).
Proof.
  intros Hg xs ys start Hskip H. revert start Hskip.
  induction H as [|a b xs ys Hab Hrest IH]; intros start Hskip; simpl.
  - constructor.
  - destruct (skipn_cons_nth NaN _ _ Hskip) as [E1 E2].
    constructor.
    + unfold at_index. rewrite E1. auto.
    + apply IH. exact E2.
Qed.

Lemma aggregateFeatures_returns (frames : list (VoiceFeatures exact)) :
  frames <> [] ->
  exists p, aggregateFeatures frames = Returns p
            /\ mfccVariance p
               = mfccVarianceOf (len frames)
                   (mfccTotals (fun x => x) (hd (flat_frame NaN) frames) frames)
                   (mfccTotals (fun x => (x * x)%js)
                               (hd (flat_frame NaN) frames) frames)
            /\ map (fun v => v p)
                   [spectralCentroidVariance; spectralFlatnessVariance;
                    spectralRolloffVariance; spectralFluxVariance;
                    perceptualSpreadVariance; perceptualSharpnessVariance;
                    spectralKurtosisVariance; zcrVariance; rmsVariance;
                    energyVariance]
               = map (fun member => varianceOf member frames) scalarMembers.
Proof.
  destruct frames as [|first rest]; [contradiction|]. intros _.
  eexists. split; [reflexivity|]. split; reflexivity.
Qed.

Lemma mfccVarianceOf_Forall (P : exact -> Prop)
  (frames : list (VoiceFeatures exact)) :
  frames <> [] ->
  Forall finite_frame frames ->
  uniform_mfcc frames ->
  (forall s q, column (length frames) s q ->
               P (q / len frames - (s / len frames) * (s / len frames))%js) ->
  Forall P (mfccVarianceOf (len frames)
              (mfccTotals (fun x => x) (hd (flat_frame NaN) frames) frames)
              (mfccTotals (fun x => (x * x)%js)
                          (hd (flat_frame NaN) frames) frames)).
Proof.
  intros Hne Hfin Huni HP.
  destruct frames as [|first rest]; [contradiction|].
  unfold mfccVarianceOf. simpl hd.
  refine (@map_indexed_Forall P (column (length (first :: rest)))
            (fun s q => (q / len (first :: rest)
                         - (s / len (first :: rest))
                           * (s / len (first :: rest)))%js)
            (mfccTotals (fun x => (x * x)%js) first (first :: rest))
            HP _ _ 0%nat eq_refl _).
  change (skipn 0 ?l) with l. unfold mfccTotals.
  apply (@fold_accumulate_columns (length (mfcc first)) (first :: rest))
    with (k := 0%nat).
  - unfold uniform_mfcc in Huni. simpl hd in Huni.
    rewrite Forall_forall in *. intros f Hf. split.
    + apply (Hfin f Hf).
    + apply (Huni f Hf).
  - apply repeat_length.
  - apply zeros_columns.
Qed.

Lemma column_variance (k : nat) (s q : exact) :
  (0 < k)%nat -> column k s q ->
  exists xs : list R,
    length xs = k
    /\ (q / Fin (INR k) - (s / Fin (INR k)) * (s / Fin (INR k)))%js
       = Fin (Rsumsq xs / INR k - Rsum xs / INR k * (Rsum xs / INR k)).
Proof.
  intros Hk [xs [Hlen [Hs Hq]]]. exists xs. split; auto. subst s q.
  assert (0 < INR k) by (apply lt_0_INR; lia).
  rewrite !div_Fin by lra. reflexivity.
Qed.

Lemma scalar_members_finite (frames : list (VoiceFeatures exact)) member :
  Forall finite_frame frames -> In member scalarMembers ->
  Forall (fun f => finite (member f)) frames.
Proof.
  intros Hfin Hin. rewrite Forall_forall in *. intros f Hf.
  destruct (Hfin f Hf) as [_ Hs]. rewrite Forall_forall in Hs. auto.
Qed.

Lemma varianceFields_Forall (P : exact -> Prop)
  (frames : list (VoiceFeatures exact)) :
  frames <> [] ->
  Forall finite_frame frames ->
  uniform_mfcc frames ->
  (forall s q, column (length frames) s q ->
               P (q / len frames - (s / len frames) * (s / len frames))%js) ->
  (forall member, In member scalarMembers -> P (varianceOf member frames)) ->
  exists p, aggregateFeatures frames = Returns p /\ Forall P (varianceFields p).
Proof.
  intros Hne Hfin Huni Hcol Hscal.
  destruct (aggregateFeatures_returns Hne) as [p [Hp [Hm Hs]]].
  exists p. split; auto. unfold varianceFields. apply Forall_app. split.
  - rewrite Hm. now apply mfccVarianceOf_Forall.
  - change (Forall P (map (fun v => v p)
              [spectralCentroidVariance; spectralFlatnessVariance;
               spectralRolloffVariance; spectralFluxVariance;
               perceptualSpreadVariance; perceptualSharpnessVariance;
               spectralKurtosisVariance; zcrVariance; rmsVariance;
               energyVariance])).
    rewrite Hs. apply Forall_map. apply Forall_forall. auto.
Qed.



(** C5, amended.  In exact arithmetic every variance of a profile that
    [aggregateFeatures] returns is a finite number that is not negative, for
    frames of finite numbers whose MFCC vectors have one length.  The code
    computes [sumSq / count - mean * mean] and applies no clamp. *)
Theorem variances_nonneg_exact (frames : list (VoiceFeatures exact)) :
  frames <> [] ->
  Forall finite_frame frames ->
  uniform_mfcc frames ->
  exists p, aggregateFeatures frames = Returns p
            /\ Forall (fun v => exists r : R, v = Fin r /\ 0 <= r)
                      (varianceFields p).
Proof.
  intros Hne Hfin Huni. apply varianceFields_Forall; auto.
  - intros s q Hc. rewrite len_exact.
    assert (Hpos : (0 < length frames)%nat).
    { destruct frames; [contradiction | simpl; lia]. }
    destruct (column_variance Hpos Hc) as [xs [Hlen E]].
    rewrite E. eexists; split; [reflexivity|].
    apply population_variance_nonneg; [now apply count_positive|].
    rewrite Hlen. lra.
  - intros member Hin. apply varianceOf_nonneg; auto.
    now apply scalar_members_finite.
Qed.

Lemma variances_nonneg_exact_witness :
  exists p, aggregateFeatures
              [flat_frame (Fin 1); flat_frame (Fin 2); flat_frame (Fin 4)]
            = Returns p
            /\ Forall (fun v => exists r : R, v = Fin r /\ 0 <= r)
                      (varianceFields p).
Proof.
  apply variances_nonneg_exact.
  - discriminate.
  - repeat constructor.
  - repeat constructor.
Defined.

End AggregationExact.

Section AggregationRuns.

(** C5, as the specification has it: no variance of a returned profile is
    negative.  On binary64, three frames whose descriptors all equal [0.1]
    give the mean [0.10000000000000002] and the variance [-1.7e-18] for
    every member: the rounding error is returned as it is. *)
Lemma rounding_leaves_negative_variance :
  ~ (forall p : AggregatedVoiceFeatures float,
       aggregateFeatures
         [flat_frame (dec 1 10); flat_frame (dec 1 10); flat_frame (dec 1 10)]
       = Returns p ->
       Forall (fun v => (v < of_Z 0)%js = false) (varianceFields p)).
Proof.
  intros H. specialize (H _ eq_refl).
  apply Forall_inv in H. vm_compute in H. discriminate H.
Qed.


(** The same frame in full: all eleven variances are NaN. *)
Lemma single_frame_overflow_binary64 :
  exists p : AggregatedVoiceFeatures float,
    aggregateFeatures [flat_frame 0x1p+600%float] = Returns p
    /\ forallb PrimFloat.is_nan (varianceFields p) = true
    /\ length (varianceFields p) = 11%nat.
Proof. eexists. split; [reflexivity|]. vm_compute. split; reflexivity. Qed.

(** One frame of small numbers on binary64: the variances are all [0]. *)
Lemma single_frame_binary64 :
  exists p : AggregatedVoiceFeatures float,
    aggregateFeatures [flat_frame (dec 1 10)] = Returns p
    /\ varianceFields p = repeat (of_Z 0) 11.
Proof. eexists. split; [reflexivity|]. vm_compute. reflexivity. Qed.

End AggregationRuns.

(** ** The similarity scorer *)

Section Symmetry.
Local Open Scope R_scope.

Lemma abs_sub_comm (x y : exact) : Math_abs (x - y)%js = Math_abs (y - x)%js.
Proof.
  destruct x as [a| | |], y as [b| | |]; simpl; auto.
  f_equal. replace (b + - a) with (- (a + - b)) by lra. now rewrite Rabs_Ropp.
Qed.

Lemma square_sub_comm (x y : exact) :
  ((x - y) * (x - y))%js = ((y - x) * (y - x))%js.
Proof.
  destruct x as [a| | |], y as [b| | |]; simpl; auto.
  f_equal. lra.
Qed.

Lemma squared_differences_comm (xs ys : list exact) (acc : exact) :
  fold_left (fun acc '(a, b) => let diff := (a - b)%js in (acc + diff * diff)%js)
            (combine xs ys) acc
  = fold_left (fun acc '(a, b) => let diff := (a - b)%js in (acc + diff * diff)%js)
              (combine ys xs) acc.
Proof.
  revert ys acc.
  induction xs as [|x xs IH]; intros [|y ys] acc; cbn [combine fold_left]; auto.
  rewrite (square_sub_comm x y). apply IH.
Qed.

Lemma mfccDistanceOf_comm (A B : AggregatedVoiceFeatures exact) :
  mfccDistanceOf A B = mfccDistanceOf B A.
Proof.
  unfold mfccDistanceOf. cbv zeta.
  rewrite squared_differences_comm, Nat.min_comm. reflexivity.
Qed.

Lemma spectralCentroidDiffOf_comm (A B : AggregatedVoiceFeatures exact) :
  spectralCentroidDiffOf A B = spectralCentroidDiffOf B A.
Proof. apply abs_sub_comm. Qed.

Lemma zcrDiffOf_comm (A B : AggregatedVoiceFeatures exact) :
  zcrDiffOf A B = zcrDiffOf B A.
Proof. apply abs_sub_comm. Qed.

Lemma energyDiffOf_comm (A B : AggregatedVoiceFeatures exact) :
  energyDiffOf A B = energyDiffOf B A.
Proof. apply abs_sub_comm. Qed.

Lemma pitchDiffOf_comm (A B : AggregatedVoiceFeatures exact) :
  pitchDiffOf A B = pitchDiffOf B A.
Proof.
  unfold pitchDiffOf.
  destruct (pitchMean (normalizePitchFeatures A)) as [p1|],
           (pitchMean (normalizePitchFeatures B)) as [p2|]; auto.
  rewrite andb_comm, abs_sub_comm. reflexivity.
Qed.

Lemma mfccSimilarityOf_comm (A B : AggregatedVoiceFeatures exact) :
  mfccSimilarityOf A B = mfccSimilarityOf B A.
Proof. unfold mfccSimilarityOf. now rewrite mfccDistanceOf_comm. Qed.

Lemma spectralSimilarityOf_comm (A B : AggregatedVoiceFeatures exact) :
  spectralSimilarityOf A B = spectralSimilarityOf B A.
Proof.
  unfold spectralSimilarityOf. cbv zeta.
  rewrite spectralCentroidDiffOf_comm.
  rewrite (abs_sub_comm (spectralFlatnessMean A)).
  rewrite (abs_sub_comm (spectralRolloffMean A)). reflexivity.
Qed.

Lemma voiceQualitySimilarityOf_comm (A B : AggregatedVoiceFeatures exact) :
  voiceQualitySimilarityOf A B = voiceQualitySimilarityOf B A.
Proof.
  unfold voiceQualitySimilarityOf. cbv zeta.
  rewrite (abs_sub_comm (perceptualSpreadMean A)).
  rewrite (abs_sub_comm (perceptualSharpnessMean A)). reflexivity.
Qed.

Lemma tempoSimilarityOf_comm (A B : AggregatedVoiceFeatures exact) :
  tempoSimilarityOf A B = tempoSimilarityOf B A.
Proof.
  unfold tempoSimilarityOf. now rewrite zcrDiffOf_comm, energyDiffOf_comm.
Qed.

Lemma pitchSimilarityOf_comm (A B : AggregatedVoiceFeatures exact) :
  pitchSimilarityOf A B = pitchSimilarityOf B A.
Proof. unfold pitchSimilarityOf. now rewrite pitchDiffOf_comm. Qed.

(** The whole result is the same in both orders. *)
Lemma calculateRobustSimilarityScore_comm (A B : AggregatedVoiceFeatures exact) :
  calculateRobustSimilarityScore A B = calculateRobustSimilarityScore B A.
Proof.
  unfold calculateRobustSimilarityScore. cbv zeta.
  rewrite (mfccSimilarityOf_comm A B), (spectralSimilarityOf_comm A B),
    (voiceQualitySimilarityOf_comm A B), (tempoSimilarityOf_comm A B),
    (pitchSimilarityOf_comm A B), (mfccDistanceOf_comm A B),
    (spectralCentroidDiffOf_comm A B), (zcrDiffOf_comm A B),
    (pitchDiffOf_comm A B), (energyDiffOf_comm A B).
  reflexivity.
Qed.

(** C8.  The MFCC distance and the spectral, voice-quality and temporal
    similarities are the same for (A, B) and (B, A), and so is the pitch
    similarity: when both profiles carry a pitch mean, and also when they do
    not, since the test for a pitch is a conjunction over the two. *)
Theorem sub_scores_symmetric (A B : AggregatedVoiceFeatures exact) :
  let ab := calculateRobustSimilarityScore A B in
  let ba := calculateRobustSimilarityScore B A in
  mfccDistance (detailedMetrics ab) = mfccDistance (detailedMetrics ba)
  /\ spectralSimilarity ab = spectralSimilarity ba
  /\ voiceQualitySimilarity ab = voiceQualitySimilarity ba
  /\ tempoSimilarityOf A B = tempoSimilarityOf B A
  /\ pitchSimilarityOf A B = pitchSimilarityOf B A
  /\ pitchDiff (detailedMetrics ab) = pitchDiff (detailedMetrics ba).
Proof.
  cbv zeta. rewrite (calculateRobustSimilarityScore_comm A B).
  repeat split; auto using tempoSimilarityOf_comm, pitchSimilarityOf_comm.
Qed.

End Symmetry.

Section ScorerExact.
Local Open Scope R_scope.

Lemma well_formed_member (P : AggregatedVoiceFeatures exact) member :
  well_formed P -> In member scoredMembers -> finite (member P).
Proof.
  intros [_ [_ [H _]]] Hin. rewrite Forall_forall in H. auto.
Qed.

Lemma abs_diff_finite (x y : exact) :
  finite x -> finite y ->
  exists d, Math_abs (x - y)%js = Fin d /\ 0 <= d /\ (x = y -> d = 0).
Proof.
  destruct x as [a| | |], y as [b| | |]; simpl; try contradiction.
  intros _ _. eexists. split; [reflexivity|]. split; [apply Rabs_pos|].
  intros E. injection E as ->. replace (b + - b) with 0 by lra. apply Rabs_R0.
Qed.

Lemma log_positive (r : R) :
  (Fin r > of_Z 0)%js = true -> Math_log (Fin r) = Fin (ln r).
Proof.
  intros H. apply lt_Fin in H. simpl. now rewrite sgn_positive.
Qed.

Lemma log_succ_positive (r : R) :
  (Fin r > of_Z 0)%js = true -> Math_log (Fin r + of_Z 1)%js = Fin (ln (r + 1)).
Proof.
  intros H. apply lt_Fin in H. simpl. rewrite sgn_positive by lra. reflexivity.
Qed.

Lemma normalized_centroid_finite (P : AggregatedVoiceFeatures exact) :
  finite (spectralCentroidMean P) ->
  finite (spectralCentroidMean (normalizeSpectralFeatures P)).
Proof.
  intros H. unfold normalizeSpectralFeatures. cbv zeta.
  destruct (spectralCentroidMean P) as [c| | |] eqn:E; try contradiction.
  destruct (Fin c > of_Z 0)%js eqn:Hc.
  - cbn [spectralCentroidMean with_spectralCentroidMean].
    now rewrite log_positive.
  - destruct (rmsMean P > of_Z 0)%js, (energyMean P > of_Z 0)%js;
      cbn [spectralCentroidMean with_rmsMean with_energyMean]; now rewrite E.
Qed.

Lemma normalized_energy_finite (P : AggregatedVoiceFeatures exact) :
  finite (energyMean P) ->
  finite (energyMean (normalizeSpectralFeatures P)).
Proof.
  intros H. unfold normalizeSpectralFeatures. cbv zeta.
  destruct (energyMean P) as [e| | |] eqn:E; try contradiction.
  destruct (spectralCentroidMean P > of_Z 0)%js, (rmsMean P > of_Z 0)%js,
    (Fin e > of_Z 0)%js eqn:He;
    cbn [energyMean with_spectralCentroidMean with_rmsMean with_energyMean];
    rewrite ?log_succ_positive by auto; rewrite ?E; exact I.
Qed.

Lemma normalized_zcr_finite (P : AggregatedVoiceFeatures exact) :
  finite (zcrMean P) ->
  finite (zcrMean (normalizeTempoFeatures P)).
Proof.
  intros H. unfold normalizeTempoFeatures. cbv zeta.
  destruct (zcrMean P) as [z| | |] eqn:E; try contradiction.
  destruct (Fin z > of_Z 0)%js eqn:Hz.
  - cbn [zcrMean with_zcrMean]. now rewrite log_succ_positive.
  - destruct (speakingRate P) as [r|];
      [destruct (present_and_positive (Some r))|];
      cbn [zcrMean with_speakingRate]; now rewrite E.
Qed.

Lemma normalized_pitch_finite (P : AggregatedVoiceFeatures exact) :
  match pitchMean P with Some p => finite p | None => True end ->
  match pitchMean (normalizePitchFeatures P) with
  | Some q => finite q
  | None => True
  end.
Proof.
  unfold normalizePitchFeatures.
  destruct (pitchMean P) as [p|] eqn:E; [|now rewrite E].
  intros Hp. destruct p as [r| | |]; try contradiction.
  destruct (present_and_positive (Some (Fin r))) eqn:Hpos.
  - cbn [pitchMean with_pitchMean]. unfold present_and_positive in Hpos.
    apply andb_true_iff in Hpos. destruct Hpos as [_ Hpos].
    now rewrite log_positive.
  - now rewrite E.
Qed.

(** [Math.max(0, 1 - d)] for a distance [d >= 0]. *)
Lemma similarity_of_distance (d : R) :
  0 <= d ->
  exists r, Math_max (of_Z 0) (of_Z 1 - Fin d)%js = Fin r
            /\ 0 <= r <= 1 /\ (d = 0 -> r = 1).
Proof.
  intros Hd. simpl. eexists. split; [reflexivity|].
  unfold Rmax. destruct (Rle_dec 0 (1 + - d)); split; try lra; intros; lra.
Qed.

Lemma scored_of_distance (d : R) (same : Prop) :
  0 <= d -> (same -> d = 0) ->
  scored (Math_max (of_Z 0) (of_Z 1 - Fin d)%js) same.
Proof.
  intros Hd Hs. destruct (similarity_of_distance Hd) as [r [E [Hr H1]]].
  exists r. auto.
Qed.

Lemma squared_differences_finite (xs ys : list exact) :
  Forall finite xs -> Forall finite ys ->
  forall a, exists t,
    fold_left (fun acc '(a, b) => (acc + (a - b) * (a - b))%js)
              (combine xs ys) (Fin a) = Fin (a + t)
    /\ 0 <= t /\ (xs = ys -> t = 0).
Proof.
  intros Hx. revert ys.
  induction Hx as [|x xs Hx Hxs IH]; intros ys Hy a.
  - exists 0. simpl. repeat split; try lra. f_equal. lra.
  - destruct Hy as [|y ys Hy Hys].
    + exists 0. simpl. repeat split; try lra. f_equal. lra.
    + destruct x as [rx| | |], y as [ry| | |]; try contradiction.
      destruct (IH ys Hys (a + (rx + - ry) * (rx + - ry))) as [t [E [Ht H0]]].
      exists ((rx + - ry) * (rx + - ry) + t).
      split; [|split].
      * transitivity (Fin (a + (rx + - ry) * (rx + - ry) + t));
          [exact E | f_equal; lra].
      * pose proof (Rle_0_sqr (rx + - ry)) as Hs. unfold Rsqr in Hs. lra.
      * intros Heq. injection Heq as Hxy Hrest. rewrite (H0 Hrest). subst. lra.
Qed.

Lemma mfccSimilarityOf_scored (A B : AggregatedVoiceFeatures exact) :
  well_formed A -> well_formed B -> scored (mfccSimilarityOf A B) (A = B).
Proof.
  intros [HneA [HfA _]] [HneB [HfB _]].
  unfold mfccSimilarityOf, mfccDistanceOf. cbv zeta. simpl (of_Z 0).
  destruct (squared_differences_finite HfA HfB 0) as [t [E [Ht H0]]].
  change (IZR 0) with 0. rewrite E.
  set (n := Nat.min (length (mfccMean A)) (length (mfccMean B))).
  assert (Hn : 0 < IZR (Z.of_nat n)).
  { apply IZR_lt. subst n.
    destruct (mfccMean A), (mfccMean B); try contradiction; simpl; lia. }
  simpl (of_Z (Z.of_nat n)). rewrite div_Fin by lra.
  assert (Hq : 0 <= (0 + t) / IZR (Z.of_nat n)).
  { apply Rmult_le_pos; [lra|]. left. now apply Rinv_0_lt_compat. }
  rewrite sqrt_Fin by exact Hq. simpl (of_Z 5). rewrite div_Fin by lra.
  apply scored_of_distance.
  - apply Rmult_le_pos; [apply sqrt_pos | lra].
  - intros ->. rewrite (H0 eq_refl).
    replace ((0 + 0) / IZR (Z.of_nat n)) with 0 by (field; lra).
    rewrite sqrt_0. lra.
Qed.

Lemma spectralSimilarityOf_scored (A B : AggregatedVoiceFeatures exact) :
  well_formed A -> well_formed B -> scored (spectralSimilarityOf A B) (A = B).
Proof.
  intros HA HB. unfold spectralSimilarityOf, spectralCentroidDiffOf. cbv zeta.
  destruct (@abs_diff_finite
              (spectralCentroidMean (normalizeSpectralFeatures A))
              (spectralCentroidMean (normalizeSpectralFeatures B)))
    as [d1 [E1 [H1 Z1]]];
    try (apply normalized_centroid_finite;
         apply well_formed_member; simpl; auto).
  destruct (@abs_diff_finite (spectralFlatnessMean A) (spectralFlatnessMean B))
    as [d2 [E2 [H2 Z2]]]; try (apply well_formed_member; simpl; auto 10).
  destruct (@abs_diff_finite (spectralRolloffMean A) (spectralRolloffMean B))
    as [d3 [E3 [H3 Z3]]]; try (apply well_formed_member; simpl; auto 10).
  rewrite E1, E2, E3. rewrite !dec_Fin by lra.
  simpl (of_Z 2). cbn [mul exact_number Exact.mul].
  rewrite !div_Fin by lra. cbn [add exact_number Exact.add].
  apply scored_of_distance.
  - lra.
  - intros ->. rewrite Z1, Z2, Z3 by reflexivity. lra.
Qed.

Lemma voiceQualitySimilarityOf_scored (A B : AggregatedVoiceFeatures exact) :
  well_formed A -> well_formed B ->
  scored (voiceQualitySimilarityOf A B) (A = B).
Proof.
  intros HA HB. unfold voiceQualitySimilarityOf. cbv zeta.
  destruct (@abs_diff_finite (perceptualSpreadMean A) (perceptualSpreadMean B))
    as [d1 [E1 [H1 Z1]]]; try (apply well_formed_member; simpl; auto 10).
  destruct (@abs_diff_finite (perceptualSharpnessMean A)
                             (perceptualSharpnessMean B))
    as [d2 [E2 [H2 Z2]]]; try (apply well_formed_member; simpl; auto 10).
  rewrite E1, E2. rewrite !dec_Fin by lra.
  cbn [mul exact_number Exact.mul].
  rewrite !div_Fin by lra. cbn [add exact_number Exact.add].
  apply scored_of_distance.
  - lra.
  - intros ->. rewrite Z1, Z2 by reflexivity. lra.
Qed.

Lemma tempoSimilarityOf_scored (A B : AggregatedVoiceFeatures exact) :
  well_formed A -> well_formed B -> scored (tempoSimilarityOf A B) (A = B).
Proof.
  intros HA HB. unfold tempoSimilarityOf, zcrDiffOf, energyDiffOf.
  destruct (@abs_diff_finite (zcrMean (normalizeTempoFeatures A))
                             (zcrMean (normalizeTempoFeatures B)))
    as [d1 [E1 [H1 Z1]]];
    try (apply normalized_zcr_finite; apply well_formed_member; simpl; auto 10).
  destruct (@abs_diff_finite (energyMean (normalizeSpectralFeatures A))
                             (energyMean (normalizeSpectralFeatures B)))
    as [d2 [E2 [H2 Z2]]];
    try (apply normalized_energy_finite; apply well_formed_member;
         simpl; auto 10).
  rewrite E1, E2. rewrite !dec_Fin by lra.
  simpl (of_Z 1). simpl (of_Z 2). cbn [mul exact_number Exact.mul].
  rewrite !div_Fin by lra. cbn [add exact_number Exact.add].
  apply scored_of_distance.
  - lra.
  - intros ->. rewrite Z1, Z2 by reflexivity. lra.
Qed.

(** *** Pitch *)

Lemma pitchDiffOf_usable (A B : AggregatedVoiceFeatures exact) :
  pitchDiffOf A B
  = if usable_pitch A && usable_pitch B
    then match pitchMean (normalizePitchFeatures A),
               pitchMean (normalizePitchFeatures B) with
         | Some p1, Some p2 => Some (Math_abs (p1 - p2)%js)
         | _, _ => None
         end
    else None.
Proof.
  unfold pitchDiffOf, usable_pitch.
  destruct (pitchMean (normalizePitchFeatures A)) as [p1|],
           (pitchMean (normalizePitchFeatures B)) as [p2|]; auto.
  - destruct (truthy p1); reflexivity.
Qed.

Lemma pitchSimilarityOf_scored (A B : AggregatedVoiceFeatures exact) :
  well_formed A -> well_formed B ->
  scored (pitchSimilarityOf A B) (A = B /\ usable_pitch A = true)
  /\ (usable_pitch A && usable_pitch B = false ->
      pitchSimilarityOf A B = Fin (7 / 10)).
Proof.
  intros [_ [_ [_ HA]]] [_ [_ [_ HB]]].
  apply normalized_pitch_finite in HA, HB.
  unfold pitchSimilarityOf. rewrite pitchDiffOf_usable.
  assert (Hdefault : scored (dec 7 10) (A = B /\ usable_pitch A = true)
                     -> usable_pitch A && usable_pitch B = false
                     -> scored (dec 7 10) (A = B /\ usable_pitch A = true)
                        /\ (usable_pitch A && usable_pitch B = false ->
                            dec 7 10 = Fin (7 / 10))).
  { intros H _. split; auto. intros _. now rewrite dec_Fin by lra. }
  destruct (usable_pitch A && usable_pitch B) eqn:U.
  - apply andb_true_iff in U. destruct U as [UA UB].
    unfold usable_pitch in UA, UB.
    destruct (pitchMean (normalizePitchFeatures A)) as [p1|] eqn:E1;
      [|discriminate].
    destruct (pitchMean (normalizePitchFeatures B)) as [p2|] eqn:E2;
      [|discriminate].
    split; [|discriminate].
    destruct (abs_diff_finite p1 p2 HA HB) as [d [E [Hd Z]]].
    rewrite E, dec_Fin, div_Fin by lra.
    apply scored_of_distance.
    + apply Rmult_le_pos; [lra|]. left. apply Rinv_0_lt_compat. lra.
    + intros [-> _]. rewrite Z by congruence. lra.
  - apply Hdefault; auto.
    rewrite dec_Fin by lra. exists (7 / 10). split; auto. split; [lra|].
    intros [-> UA]. rewrite UA in U. discriminate.
Qed.

(** A pitch mean other than 0 and 1 is usable: its logarithm, taken when it
    is positive, is not 0. *)
Lemma carried_pitch_usable (P : AggregatedVoiceFeatures exact) (p : R) :
  pitchMean P = Some (Fin p) -> p <> 0 -> p <> 1 -> usable_pitch P = true.
Proof.
  intros E H0 H1. unfold usable_pitch, normalizePitchFeatures. rewrite E.
  unfold present_and_positive.
  assert (T : truthy (Fin p) = true) by now apply truthy_Fin.
  rewrite T. cbn [andb].
  destruct (Fin p > of_Z 0)%js eqn:Hp.
  - cbn [pitchMean with_pitchMean]. rewrite log_positive by exact Hp.
    apply truthy_Fin. apply lt_Fin in Hp. intros Hln.
    apply H1. apply ln_inv; try lra. now rewrite ln_1.
  - now rewrite E.
Qed.

Lemma absent_pitch_unusable (P : AggregatedVoiceFeatures exact) :
  pitchMean P = None -> usable_pitch P = false.
Proof.
  intros E. unfold usable_pitch, normalizePitchFeatures. now rewrite E, E.
Qed.

(** *** The composite scores *)

Lemma confidenceOf_exact (m s v t p : R) :
  confidenceOf [Fin m; Fin s; Fin v; Fin t; Fin p]
  = Fin (Rmax 0 (1 - variance5 m s v t p)).
Proof.
  unfold confidenceOf, sum, len, Math_pow_2. cbv zeta.
  cbn [fold_left length Z.of_nat]. simpl of_Z.
  cbn [add exact_number Exact.add].
  rewrite div_Fin by lra.
  cbn [add sub mul exact_number Exact.add Exact.sub Exact.mul Exact.neg].
  rewrite div_Fin by lra.
  cbn [Math_max sub exact_number Exact.max Exact.sub Exact.add Exact.neg].
  f_equal. f_equal. unfold variance5, mean5. simpl. field.
Qed.

Lemma score_exact (A B : AggregatedVoiceFeatures exact) (m s v t p : R) :
  mfccSimilarityOf A B = Fin m ->
  spectralSimilarityOf A B = Fin s ->
  voiceQualitySimilarityOf A B = Fin v ->
  tempoSimilarityOf A B = Fin t ->
  pitchSimilarityOf A B = Fin p ->
  let result := calculateRobustSimilarityScore A B in
  overallSimilarity result
  = Fin (m * (5 / 10) + s * (25 / 100) + v * (15 / 100) + t * (5 / 100)
         + p * (5 / 100))
  /\ pitchNormalizedSimilarity result
     = Fin (m * (7 / 10) + s * (2 / 10) + p * (1 / 10))
  /\ tempoNormalizedSimilarity result
     = Fin (m * (6 / 10) + s * (3 / 10) + t * (1 / 10))
  /\ spectralSimilarity result = Fin s
  /\ voiceQualitySimilarity result = Fin v
  /\ confidenceScore result = Fin (Rmax 0 (1 - variance5 m s v t p)).
Proof.
  intros Em Es Ev Et Ep. unfold calculateRobustSimilarityScore. cbv zeta.
  cbn [overallSimilarity pitchNormalizedSimilarity tempoNormalizedSimilarity
       spectralSimilarity voiceQualitySimilarity confidenceScore].
  rewrite Em, Es, Ev, Et, Ep, confidenceOf_exact. rewrite !dec_Fin by lra.
  repeat split.
Qed.

Lemma variance5_nonneg (m s v t p : R) : 0 <= variance5 m s v t p.
Proof.
  unfold variance5. cbv zeta. set (mu := mean5 m s v t p).
  pose proof (Rle_0_sqr (m - mu)) as H1. pose proof (Rle_0_sqr (s - mu)) as H2.
  pose proof (Rle_0_sqr (v - mu)) as H3. pose proof (Rle_0_sqr (t - mu)) as H4.
  pose proof (Rle_0_sqr (p - mu)) as H5. unfold Rsqr in *. lra.
Qed.

Lemma confidence_in_unit_interval (m s v t p : R) :
  0 <= Rmax 0 (1 - variance5 m s v t p) <= 1.
Proof.
  pose proof (variance5_nonneg m s v t p) as H.
  unfold Rmax. destruct (Rle_dec 0 (1 - variance5 m s v t p)); lra.
Qed.

(** C6, amended.  In exact arithmetic, for two profiles with non-empty mean
    MFCC vectors and finite numbers, each of the six similarity and
    confidence members of the result is a number between 0 and 1. *)
Theorem similarity_fields_in_unit_interval (A B : AggregatedVoiceFeatures exact) :
  well_formed A -> well_formed B ->
  let result := calculateRobustSimilarityScore A B in
  unit_interval (overallSimilarity result)
  /\ unit_interval (pitchNormalizedSimilarity result)
  /\ unit_interval (tempoNormalizedSimilarity result)
  /\ unit_interval (spectralSimilarity result)
  /\ unit_interval (voiceQualitySimilarity result)
  /\ unit_interval (confidenceScore result).
Proof.
  intros HA HB.
  destruct (mfccSimilarityOf_scored HA HB) as [m [Em [Hm _]]].
  destruct (spectralSimilarityOf_scored HA HB) as [s [Es [Hs _]]].
  destruct (voiceQualitySimilarityOf_scored HA HB) as [v [Ev [Hv _]]].
  destruct (tempoSimilarityOf_scored HA HB) as [t [Et [Ht _]]].
  destruct (pitchSimilarityOf_scored HA HB) as [[p [Ep [Hp _]]] _].
  destruct (score_exact A B Em Es Ev Et Ep) as [Eo [Epn [Etn [Ess [Evq Ec]]]]].
  cbv zeta. rewrite Eo, Epn, Etn, Ess, Evq, Ec.
  repeat split; eexists; (split; [reflexivity|]);
    try apply confidence_in_unit_interval; lra.
Qed.

(** Comparing a well-formed profile with itself: every category but pitch
    scores 1, and pitch scores 1 or the default 0.7. *)
Lemma self_comparison (P : AggregatedVoiceFeatures exact) :
  well_formed P ->
  let p := if usable_pitch P then 1 else 7 / 10 in
  let result := calculateRobustSimilarityScore P P in
  overallSimilarity result = Fin (95 / 100 + p * (5 / 100))
  /\ confidenceScore result = Fin (Rmax 0 (1 - variance5 1 1 1 1 p)).
Proof.
  intros HP.
  destruct (mfccSimilarityOf_scored HP HP) as [m [Em [_ Hm]]].
  destruct (spectralSimilarityOf_scored HP HP) as [s [Es [_ Hs]]].
  destruct (voiceQualitySimilarityOf_scored HP HP) as [v [Ev [_ Hv]]].
  destruct (tempoSimilarityOf_scored HP HP) as [t [Et [_ Ht]]].
  rewrite (Hm eq_refl) in Em. rewrite (Hs eq_refl) in Es.
  rewrite (Hv eq_refl) in Ev. rewrite (Ht eq_refl) in Et.
  assert (Ep : pitchSimilarityOf P P
               = Fin (if usable_pitch P then 1 else 7 / 10)).
  { destruct (pitchSimilarityOf_scored HP HP) as [[p [Ep [_ H1]]] Hd].
    destruct (usable_pitch P).
    - rewrite Ep. f_equal. auto.
    - now apply Hd. }
  destruct (score_exact P P Em Es Ev Et Ep) as [Eo [_ [_ [_ [_ Ec]]]]].
  cbv zeta. rewrite Eo, Ec. split; [f_equal; lra | reflexivity].
Qed.

(** C2, amended.  For a profile with a non-empty mean MFCC vector, finite
    numbers and a pitch mean other than 0 and 1, the comparison with itself
    has overall similarity exactly 1 and confidence exactly 1. *)
Theorem self_comparison_with_pitch
  (P : AggregatedVoiceFeatures exact) (pitch : R) :
  well_formed P ->
  pitchMean P = Some (Fin pitch) -> pitch <> 0 -> pitch <> 1 ->
  overallSimilarity (calculateRobustSimilarityScore P P) = Fin 1
  /\ confidenceScore (calculateRobustSimilarityScore P P) = Fin 1.
Proof.
  intros HP E H0 H1. destruct (self_comparison HP) as [Eo Ec].
  rewrite (carried_pitch_usable P E H0 H1) in Eo, Ec.
  rewrite Eo, Ec. split; f_equal; [lra|].
  unfold variance5, mean5. cbv zeta.
  replace (1 - _) with 1 by field. apply Rmax_right. lra.
Qed.

Lemma self_comparison_with_pitch_witness :
  overallSimilarity
    (calculateRobustSimilarityScore (flat_profile (Some (Fin 120)) (Fin 1))
                                    (flat_profile (Some (Fin 120)) (Fin 1)))
  = Fin 1
  /\ confidenceScore
       (calculateRobustSimilarityScore (flat_profile (Some (Fin 120)) (Fin 1))
                                       (flat_profile (Some (Fin 120)) (Fin 1)))
     = Fin 1.
Proof.
  apply (@self_comparison_with_pitch _ 120).
  - split; [discriminate|]. repeat split; repeat constructor.
  - reflexivity.
  - lra.
  - lra.
Defined.

(** Without a pitch mean the pitch category takes its default 0.7, so the
    self-comparison gives 0.985 and the confidence 0.9856. *)
Lemma self_comparison_without_pitch (P : AggregatedVoiceFeatures exact) :
  well_formed P -> pitchMean P = None ->
  overallSimilarity (calculateRobustSimilarityScore P P) = Fin (985 / 1000)
  /\ confidenceScore (calculateRobustSimilarityScore P P)
     = Fin (9856 / 10000).
Proof.
  intros HP E. destruct (self_comparison HP) as [Eo Ec].
  rewrite (absent_pitch_unusable P E) in Eo, Ec.
  rewrite Eo, Ec. split; f_equal; [lra|].
  unfold variance5, mean5. cbv zeta.
  replace (1 - _) with (9856 / 10000) by field. apply Rmax_right. lra.
Qed.

(** C2, as the specification has it: any profile compared with itself
    gives overall similarity 1 and confidence 1.  It fails for the profiles
    that carry no pitch mean, which is how [aggregateFeatures] returns them. *)
Lemma self_comparison_below_one :
  ~ (overallSimilarity
       (calculateRobustSimilarityScore (flat_profile None (Fin 1))
                                       (flat_profile None (Fin 1)))
     = Fin 1
     /\ confidenceScore
          (calculateRobustSimilarityScore (flat_profile None (Fin 1))
                                          (flat_profile None (Fin 1)))
        = Fin 1).
Proof.
  intros [Ho _].
  destruct (@self_comparison_without_pitch (flat_profile None (Fin 1)))
    as [Eo _].
  - split; [discriminate|]. repeat split; repeat constructor.
  - reflexivity.
  - rewrite Eo in Ho. injection Ho as Ho. lra.
Qed.

Lemma similarity_fields_in_unit_interval_witness :
  let result :=
    calculateRobustSimilarityScore (flat_profile (Some (Fin 120)) (Fin 1))
                                   (flat_profile None (Fin 2)) in
  unit_interval (overallSimilarity result)
  /\ unit_interval (pitchNormalizedSimilarity result)
  /\ unit_interval (tempoNormalizedSimilarity result)
  /\ unit_interval (spectralSimilarity result)
  /\ unit_interval (voiceQualitySimilarity result)
  /\ unit_interval (confidenceScore result).
Proof.
  apply similarity_fields_in_unit_interval;
    (split; [discriminate|]; repeat split; repeat constructor).
Defined.

(** C6, as the specification has it: for every pair of profiles the
    members lie in [0, 1].  Two frames of finite numbers with MFCC vectors
    [[0]] and [[2; 3]] aggregate to a profile whose second MFCC mean is
    [(undefined + 3) / 2], which is NaN; compared with itself this profile
    has an MFCC distance, an MFCC similarity and an overall similarity of
    NaN: [Math.max(0, NaN)] is NaN, so the floor bounds nothing. *)
Lemma ragged_profile_outside_unit_interval :
  ~ (forall p : AggregatedVoiceFeatures exact,
       aggregateFeatures ragged_frames = Returns p ->
       unit_interval
         (overallSimilarity (calculateRobustSimilarityScore p p))).
Proof.
  intros H. specialize (H _ eq_refl). destruct H as [r [E _]].
  revert E. cbn -[Rlt_dec]. unfold Exact.sgn.
  repeat (match goal with
          | |- context [Rlt_dec ?a ?b] => destruct (Rlt_dec a b); try lra
          end; cbn -[Rlt_dec]; unfold Exact.sgn).
  discriminate.
Qed.

End ScorerExact.

Section Placeholders.
Local Open Scope float_scope.

(** The placeholder pitch estimate follows the random source: 90 Hz when
    it draws 0, 120 Hz when it draws 0.5, for the same audio. *)
Lemma placeholder_pitch_follows_random_source :
  mean (fst (calculatePitchStatisticsFast silence (always 0))) = 90
  /\ mean (fst (calculatePitchStatisticsFast silence (always 0.5))) = 120
  /\ drawn (snd (calculatePitchStatisticsFast silence (always 0))) = 3%nat.
Proof. repeat split; vm_compute; reflexivity. Qed.

End Placeholders.

(** ** Quick validation *)

Section QuickValidationExact.
Local Open Scope R_scope.



Variable blobToAudioBuffer : Blob -> Outcome (AudioBuffer exact).


End QuickValidationExact.

Section QuickValidationRuns.
Local Open Scope R_scope.

Lemma Rsumsq_repeat (c : R) (n : nat) :
  Rsumsq (repeat c n) = INR n * (c * c).
Proof.
  unfold Rsumsq. induction n as [|n IH].
  - simpl. lra.
  - rewrite S_INR. cbn [repeat map Rsum fold_right] in *. unfold Rsum in IH.
    rewrite IH. lra.
Qed.


End QuickValidationRuns.

Section QuickValidationSizes.
Context {num : Type} {N : JsNumber num}.
Variable blobToAudioBuffer : Blob -> Outcome (AudioBuffer num).

(** A 500-byte blob and a 60MB blob are rejected, whatever the decoder
    does and on any number model. *)
Lemma quick_validation_sizes :
  quickProcessVoiceAudio blobToAudioBuffer {| size := 500 |} = false
  /\ quickProcessVoiceAudio blobToAudioBuffer {| size := 60 * 1024 * 1024 |}
     = false.
Proof. split; reflexivity. Qed.

End QuickValidationSizes.

(** ** The scorer on binary64 *)

Section ScorerRuns.
Local Open Scope float_scope.

(** Whatever [Math.log] computes: the profile below has no positive
    member, so the normalisation never calls it. *)
Variable Math_log64 : float -> float.

(** On binary64 too a profile without a pitch mean compared with itself
    scores below 1: [0.985] overall and [0.9856] for the confidence, up to
    rounding; and the weights of five similarities that are all [1] add up
    to exactly [1]. *)
Lemma self_comparison_binary64 :
  let result :=
    @calculateRobustSimilarityScore float binary64 {| Math_log := Math_log64 |}
      (flat_profile None 0) (flat_profile None 0) in
  (Math_abs (overallSimilarity result - dec 985 1000) < dec 1 1000000)%js = true
  /\ (Math_abs (confidenceScore result - dec 9856 10000) < dec 1 1000000)%js
     = true
  /\ (1 * dec 5 10 + 1 * dec 25 100 + 1 * dec 15 100 + 1 * dec 5 100
      + 1 * dec 5 100)%js = 1
  /\ confidenceOf [1; 1; 1; 1; 1] = 1.
Proof. vm_compute. repeat split; reflexivity. Qed.

(** Two profiles without MFCC coefficients: the distance is
    [Math.sqrt(0 / 0)], and the overall similarity is NaN. *)
Lemma empty_mfcc_binary64 :
  PrimFloat.is_nan
    (overallSimilarity
       (@calculateRobustSimilarityScore float binary64
          {| Math_log := Math_log64 |}
          (profile_of [] None 0) (profile_of [] None 0)))
  = true.
Proof. vm_compute. reflexivity. Qed.

(** The profile of [ragged_frames] on binary64: its second MFCC mean is
    NaN, and so is every member of the result that takes the MFCC similarity
    in, when the profile is compared with itself. *)
Lemma ragged_profile_binary64 :
  exists p : AggregatedVoiceFeatures float,
    aggregateFeatures ragged_frames = Returns p
    /\ let result :=
         @calculateRobustSimilarityScore float binary64
           {| Math_log := Math_log64 |} p p in
       PrimFloat.is_nan (overallSimilarity result) = true
       /\ PrimFloat.is_nan (pitchNormalizedSimilarity result) = true
       /\ PrimFloat.is_nan (tempoNormalizedSimilarity result) = true
       /\ PrimFloat.is_nan (confidenceScore result) = true.
Proof. eexists. split; [reflexivity|]. vm_compute. repeat split. Qed.

End ScorerRuns.

(* ===================================================================== *)
(** * Further properties *)

(** ** Keystroke features: the timing lists *)

Section TimingLists.
Context {num : Type} {N : JsNumber num}.

(** With [n] presses there are [n - 1] down-down times and [n - 1]
    up-down times, and at most [n] hold times. *)
Theorem timing_lengths (data : list (KeystrokeEvent num)) :
  let r := extractFeatures data in
  let presses :=
    length (filter (fun k => EventType_eqb (type k) keydown) data) in
  length (ddTimes r) = pred presses
  /\ length (udTimes r) = pred presses
  /\ (length (holdTimes r) <= presses)%nat.
Proof.
  cbv zeta. unfold extractFeatures. cbv zeta. cbn [ddTimes udTimes holdTimes].
  unfold ddTimesOf, udTimesOf.
  rewrite !length_map, !consecutive_length, !length_map.
  repeat split.
  etransitivity; [apply holdTimesOf_length|]. now rewrite length_map.
Qed.

(** The feature vector has 35 entries exactly when 11 hold times or more
    were measured, and 34 entries in every other case. *)
Theorem feature_vector_length (data : list (KeystrokeEvent num)) :
  let r := extractFeatures data in
  (length (features r) = 35%nat <-> (11 <= length (holdTimes r))%nat)
  /\ (length (features r) = 34%nat <-> (length (holdTimes r) < 11)%nat).
Proof.
  cbv zeta. rewrite features_length. unfold PASSWORD_LENGTH.
  destruct (Nat.leb_spec 11 (length (holdTimes (extractFeatures data))));
    split; split; intros; try lia; try discriminate; reflexivity.
Qed.

Lemma holdTimesOf_no_keyups (matchedKeys : list (string * num)) :
  holdTimesOf [] matchedKeys = [].
Proof.
  unfold holdTimesOf. induction matchedKeys as [|[k t] rest IH]; simpl; auto.
Qed.

Lemma udTimesOf_no_keyups (matchedKeys : list (string * num)) :
  udTimesOf [] matchedKeys = ddTimesOf matchedKeys.
Proof.
  unfold udTimesOf, ddTimesOf. apply map_ext.
  intros [[k1 t1] [k2 t2]]. reflexivity.
Qed.

(** When no key is released, no hold time is measured, the up-down times
    fall back on the down-down times, and the press pressure is 0. *)
Theorem no_release_fallback (data : list (KeystrokeEvent num)) :
  filter (fun k => EventType_eqb (type k) keyup) data = [] ->
  let r := extractFeatures data in
  holdTimes r = [] /\ udTimes r = ddTimes r /\ pressPressure r = of_Z 0.
Proof.
  intros H. cbv zeta. unfold extractFeatures. cbv zeta.
  cbn [ddTimes udTimes holdTimes pressPressure]. rewrite H.
  rewrite holdTimesOf_no_keyups, udTimesOf_no_keyups. repeat split.
Qed.

Lemma filter_split_length (A : Type) (p q : A -> bool) (xs : list A) :
  length (filter p xs)
  = (length (filter (fun x => p x && q x) xs)
     + length (filter (fun x => p x && negb (q x)) xs))%nat.
Proof.
  induction xs as [|x xs IH]; simpl; auto.
  destruct (p x), (q x); simpl; lia.
Qed.

(** The error rate counts every Backspace event: the presses and the
    releases of the key both. *)
Theorem errorRate_counts_presses_and_releases (data : list (KeystrokeEvent num)) :
  let backspace (t : EventType) :=
    length (filter (fun k => String.eqb (key k) "Backspace"
                             && EventType_eqb (type k) t) data) in
  errorRate (extractFeatures data)
  = of_Z (Z.of_nat (backspace keydown + backspace keyup)).
Proof.
  cbv zeta. unfold extractFeatures. cbv zeta. cbn [errorRate]. unfold len.
  rewrite (filter_split_length _ (fun k => EventType_eqb (type k) keydown)).
  do 3 f_equal. apply f_equal with (f := @length _). apply filter_ext.
  intros k. destruct (type k); reflexivity.
Qed.

End TimingLists.

Lemma no_release_fallback_witness :
  let r := extractFeatures [press (num := float) "a" (of_Z 0);
                            press "b" (of_Z 150)] in
  holdTimes r = [] /\ udTimes r = ddTimes r /\ pressPressure r = of_Z 0.
Proof. apply no_release_fallback. reflexivity. Defined.

Section TimingExact.
Local Open Scope R_scope.

Lemma findUp_in (keyups : list (KeystrokeEvent exact)) k downTs u :
  findUp keyups k downTs = Some u -> In u keyups.
Proof. unfold findUp. intros H. now apply find_some in H. Qed.

Lemma keyups_finite (data : list (KeystrokeEvent exact)) :
  finite_events data ->
  Forall (fun e => finite (timestamp e))
         (filter (fun k => EventType_eqb (type k) keyup) data).
Proof.
  unfold finite_events. rewrite !Forall_forall. intros H e He.
  apply filter_In in He. apply H, He.
Qed.

Lemma matchedKeys_finite (data : list (KeystrokeEvent exact)) :
  finite_events data ->
  Forall (fun kt => finite (snd kt))
         (map (fun k => (key k, timestamp k))
              (filter (fun k => EventType_eqb (type k) keydown) data)).
Proof.
  unfold finite_events. rewrite !Forall_forall. intros H kt Hkt.
  apply in_map_iff in Hkt. destruct Hkt as [e [<- He]].
  apply filter_In in He. apply H, He.
Qed.

Lemma holdTimesOf_positive (keyups : list (KeystrokeEvent exact)) matchedKeys :
  Forall (fun e => finite (timestamp e)) keyups ->
  Forall (fun kt => finite (snd kt)) matchedKeys ->
  Forall finite_positive (holdTimesOf keyups matchedKeys).
Proof.
  intros Hu Hm. unfold holdTimesOf.
  induction Hm as [|[k downTs] rest Hd Hrest IH]; simpl; [constructor|].
  apply Forall_app. split; auto.
  destruct (findUp keyups k downTs) as [u|] eqn:E; constructor; auto.
  pose proof (findUp_later _ _ _ E) as Hlt.
  rewrite Forall_forall in Hu. pose proof (Hu u (findUp_in _ _ _ E)) as Hfu.
  simpl in Hd. destruct (timestamp u) as [tu| | |]; try contradiction.
  destruct downTs as [td| | |]; try contradiction.
  apply lt_Fin in Hlt. exists (tu + - td). split; [reflexivity | lra].
Qed.

(** For finite timestamps every hold time is a finite number above 0: a
    release counts only when it is later than the press. *)
Theorem holdTimes_positive (data : list (KeystrokeEvent exact)) :
  finite_events data ->
  Forall finite_positive (holdTimes (extractFeatures data)).
Proof.
  intros H. unfold extractFeatures. cbv zeta. cbn [holdTimes].
  apply holdTimesOf_positive; [now apply keyups_finite | now apply matchedKeys_finite].
Qed.

Lemma holdTimes_positive_witness :
  Forall finite_positive (holdTimes (extractFeatures (@scenario exact _))).
Proof. apply holdTimes_positive. repeat constructor. Defined.

Lemma holdTimesOf_cons (keyups : list (KeystrokeEvent exact)) k t rest :
  holdTimesOf keyups ((k, t) :: rest)
  = match findUp keyups k t with
    | Some upEvent => [(timestamp upEvent - t)%js]
    | None => []
    end ++ holdTimesOf keyups rest.
Proof. reflexivity. Qed.

Lemma all_matched (keyups : list (KeystrokeEvent exact)) matchedKeys :
  length (holdTimesOf keyups matchedKeys) = length matchedKeys ->
  Forall (fun kt => findUp keyups (fst kt) (snd kt) <> None) matchedKeys.
Proof.
  induction matchedKeys as [|[k t] rest IH]; intros H; [constructor|].
  rewrite holdTimesOf_cons, length_app in H.
  pose proof (holdTimesOf_length keyups rest) as Hle.
  cbn [length] in H.
  destruct (findUp keyups k t) as [u|] eqn:E; cbn [length] in H.
  - constructor; [cbn [fst snd]; rewrite E; discriminate | apply IH; lia].
  - lia.
Qed.

Lemma hold_plus_flight_of (keyups : list (KeystrokeEvent exact)) matchedKeys :
  Forall (fun e => finite (timestamp e)) keyups ->
  Forall (fun kt => finite (snd kt)) matchedKeys ->
  Forall (fun kt => findUp keyups (fst kt) (snd kt) <> None) matchedKeys ->
  map (fun '(h, u) => (h + u)%js)
      (combine (holdTimesOf keyups matchedKeys) (udTimesOf keyups matchedKeys))
  = ddTimesOf matchedKeys.
Proof.
  intros Hu Hfin Hm.
  induction matchedKeys as [|[k1 t1] [|[k2 t2] rest] IH].
  - reflexivity.
  - unfold holdTimesOf, udTimesOf, ddTimesOf. simpl.
    destruct (findUp keyups k1 t1); reflexivity.
  - inversion Hfin as [|? ? Hf1 Hfin']; subst.
    inversion Hm as [|? ? Hm1 Hm']; subst.
    specialize (IH Hfin' Hm').
    assert (Hf2 : finite t2) by (inversion Hfin'; auto).
    simpl in Hf1, Hm1.
    destruct (findUp keyups k1 t1) as [u|] eqn:E; [|contradiction].
    rewrite Forall_forall in Hu. pose proof (Hu u (findUp_in _ _ _ E)) as Hfu.
    change (holdTimesOf keyups ((k1, t1) :: (k2, t2) :: rest))
      with ((match findUp keyups k1 t1 with
             | Some upEvent => [(timestamp upEvent - t1)%js]
             | None => []
             end) ++ holdTimesOf keyups ((k2, t2) :: rest)).
    change (udTimesOf keyups ((k1, t1) :: (k2, t2) :: rest))
      with ((match findUp keyups k1 t1 with
             | Some currentUp => (t2 - timestamp currentUp)%js
             | None => (t2 - t1)%js
             end) :: udTimesOf keyups ((k2, t2) :: rest)).
    change (ddTimesOf ((k1, t1) :: (k2, t2) :: rest))
      with ((t2 - t1)%js :: ddTimesOf ((k2, t2) :: rest)).
    rewrite E. cbn [app combine map]. rewrite IH. f_equal.
    destruct (timestamp u) as [tu| | |]; try contradiction.
    destruct t1 as [r1| | |]; try contradiction.
    destruct t2 as [r2| | |]; try contradiction.
    simpl. f_equal. lra.
Qed.

(** When every press has its release (as many hold times as presses) and
    the timestamps are finite, hold time plus up-down time is the down-down
    time, press by press; an up-down time is negative when the next key goes
    down before the release. *)
Theorem hold_plus_flight_is_down_down (data : list (KeystrokeEvent exact)) :
  finite_events data ->
  let r := extractFeatures data in
  length (holdTimes r)
  = length (filter (fun k => EventType_eqb (type k) keydown) data) ->
  map (fun '(h, u) => (h + u)%js) (combine (holdTimes r) (udTimes r))
  = ddTimes r.
Proof.
  intros Hfin. cbv zeta. unfold extractFeatures. cbv zeta.
  cbn [holdTimes udTimes ddTimes]. intros Hlen.
  apply hold_plus_flight_of.
  - now apply keyups_finite.
  - now apply matchedKeys_finite.
  - apply all_matched. now rewrite length_map.
Qed.

End TimingExact.

Section TimingWitnesses.
Local Open Scope R_scope.

Lemma hold_plus_flight_is_down_down_witness :
  let r := extractFeatures (@scenario exact _) in
  map (fun '(h, u) => (h + u)%js) (combine (holdTimes r) (udTimes r))
  = ddTimes r.
Proof.
  apply hold_plus_flight_is_down_down.
  - repeat constructor.
  - cbn -[Rlt_dec].
    repeat match goal with
           | |- context [Rlt_dec ?a ?b] => destruct (Rlt_dec a b); try lra
           end.
    reflexivity.
Defined.

End TimingWitnesses.

Section DerivedNumbersExact.
Local Open Scope R_scope.

Lemma fold_add_exact (g : exact -> exact) (h : R -> R) (xs : list exact) :
  (forall x, finite x -> g x = Fin (h (real_of x))) ->
  Forall finite xs ->
  forall a, fold_left (fun s t => (s + g t)%js) xs (Fin a)
            = Fin (a + Rsum (map h (map real_of xs))).
Proof.
  intros Hg Hfin. induction Hfin as [|x xs Hx Hxs IH]; intros a; simpl.
  - f_equal. lra.
  - rewrite (Hg x Hx). simpl. rewrite IH. f_equal. lra.
Qed.

Lemma sum_exact (xs : list exact) :
  Forall finite xs -> sum xs = Fin (Rsum (map real_of xs)).
Proof.
  intros H. unfold sum. simpl of_Z.
  change (fold_left add xs (Fin 0))
    with (fold_left (fun s t => (s + (fun x => x) t)%js) xs (Fin 0)).
  rewrite (@fold_add_exact (fun x => x) (fun x => x)); auto using finite_Fin.
  rewrite map_id. f_equal. lra.
Qed.

Lemma meanOrZero_finite (xs : list exact) :
  Forall finite xs -> finite (meanOrZero xs).
Proof.
  intros H. unfold meanOrZero. destruct xs as [|x xs]; [exact I|].
  cbn [length Nat.ltb Nat.leb]. rewrite sum_exact, len_exact by exact H.
  assert (0 < INR (length (x :: xs))) by (apply lt_0_INR; simpl; lia).
  rewrite div_Fin by lra. exact I.
Qed.

Lemma pressPressureOf_nonneg (holdTimes : list exact) :
  Forall finite holdTimes -> finite_nonneg (pressPressureOf holdTimes).
Proof.
  intros H. unfold pressPressureOf. cbv zeta.
  destruct holdTimes as [|x xs]; [exists 0; split; [reflexivity | lra]|].
  cbn [length Nat.ltb Nat.leb].
  pose proof (meanOrZero_finite H) as Hm.
  destruct (meanOrZero (x :: xs)) as [m| | |]; try contradiction.
  simpl of_Z.
  rewrite (@fold_add_exact (fun t => Math_pow_2 (t - Fin m)%js)
                           (fun t => (t + - m) * (t + - m))); auto.
  2:{ intros t Ht. rewrite (finite_Fin _ Ht). reflexivity. }
  rewrite len_exact.
  assert (Hn : 0 < INR (length (x :: xs))) by (apply lt_0_INR; simpl; lia).
  rewrite div_Fin by lra.
  set (q := Rsum _).
  assert (Hq : 0 <= q).
  { subst q. generalize (map real_of (x :: xs)). intros l.
    induction l as [|y l IH]; simpl; [lra|].
    pose proof (Rle_0_sqr (y + - m)) as Hs. unfold Rsqr in Hs. lra. }
  assert (0 <= (0 + q) / INR (length (x :: xs))).
  { apply Rmult_le_pos; [lra|]. left. now apply Rinv_0_lt_compat. }
  rewrite sqrt_Fin by assumption.
  eexists. split; [reflexivity | apply sqrt_pos].
Qed.

Lemma udTimesOf_finite (keyups : list (KeystrokeEvent exact)) matchedKeys :
  Forall (fun e => finite (timestamp e)) keyups ->
  Forall (fun kt => finite (snd kt)) matchedKeys ->
  Forall finite (udTimesOf keyups matchedKeys).
Proof.
  intros Hu Hm. unfold udTimesOf.
  induction matchedKeys as [|[k1 t1] [|[k2 t2] rest] IH]; simpl;
    try constructor.
  - inversion Hm as [|? ? H1 Hm']; subst. inversion Hm' as [|? ? H2 _]; subst.
    simpl in H1, H2.
    destruct t1 as [r1| | |], t2 as [r2| | |]; try contradiction.
    destruct (findUp keyups k1 (Fin r1)) as [u|] eqn:E; [|exact I].
    rewrite Forall_forall in Hu. pose proof (Hu u (findUp_in _ _ _ E)) as Hfu.
    destruct (timestamp u); try contradiction. exact I.
  - apply IH. now inversion Hm.
Qed.

(** For finite timestamps the press pressure (the standard deviation of
    the hold times) is a finite number that is not negative, and the mean
    flight time is finite. *)
Theorem derived_numbers_finite (data : list (KeystrokeEvent exact)) :
  finite_events data ->
  finite_nonneg (pressPressure (extractFeatures data))
  /\ finite (flightTime (extractFeatures data)).
Proof.
  intros H. unfold extractFeatures. cbv zeta. cbn [pressPressure flightTime].
  split.
  - apply pressPressureOf_nonneg.
    eapply Forall_impl; [|apply holdTimesOf_positive;
                           [now apply keyups_finite | now apply matchedKeys_finite]].
    intros h [r [-> _]]. exact I.
  - apply meanOrZero_finite, udTimesOf_finite;
      [now apply keyups_finite | now apply matchedKeys_finite].
Qed.

Lemma derived_numbers_finite_witness :
  finite_nonneg (pressPressure (extractFeatures (@scenario exact _)))
  /\ finite (flightTime (extractFeatures (@scenario exact _))).
Proof. apply derived_numbers_finite. repeat constructor. Defined.

End DerivedNumbersExact.

(** ** Aggregation: the MFCC vectors *)

Section MfccShape.
Context {num : Type} {N : JsNumber num}.

Lemma accumulate_length_max (f : num -> num) (sums row : list num) :
  length (accumulate f sums row) = Nat.max (length sums) (length row).
Proof.
  revert sums. induction row as [|x row IH]; intros sums; simpl.
  - lia.
  - destruct sums as [|s sums]; simpl; rewrite IH; simpl; lia.
Qed.

Lemma map_indexed_length (f : num -> nat -> num) (start : nat) (xs : list num) :
  length (map_indexed f start xs) = length xs.
Proof.
  revert start. induction xs as [|x xs IH]; intros start; simpl; auto.
Qed.

Lemma fold_accumulate_length (f : num -> num)
  (frames : list (VoiceFeatures num)) (sums : list num) :
  length (fold_left (fun sums feature => accumulate f sums (mfcc feature))
                    frames sums)
  = Nat.max (length sums) (list_max (map (fun fr => length (mfcc fr)) frames)).
Proof.
  revert sums. induction frames as [|fr frames IH]; intros sums; simpl.
  - lia.
  - rewrite IH, accumulate_length_max. lia.
Qed.

(** The mean and variance MFCC vectors of an aggregate have the same
    length: that of the longest MFCC vector among the frames. *)
Theorem mfcc_shape (frames : list (VoiceFeatures num))
  (p : AggregatedVoiceFeatures num) :
  aggregateFeatures frames = Returns p ->
  length (mfccMean p) = list_max (map (fun f => length (mfcc f)) frames)
  /\ length (mfccVariance p)
     = list_max (map (fun f => length (mfcc f)) frames).
Proof.
  destruct frames as [|first rest]; [discriminate|].
  unfold aggregateFeatures. cbv zeta. intros H. injection H as <-.
  cbn [mfccMean mfccVariance]. unfold mfccVarianceOf, mfccTotals.
  rewrite length_map, map_indexed_length, fold_accumulate_length, repeat_length.
  simpl. lia.
Qed.

End MfccShape.

Lemma mfcc_shape_witness :
  exists p : AggregatedVoiceFeatures float,
    aggregateFeatures [flat_frame (of_Z 1); flat_frame (of_Z 2)] = Returns p
    /\ length (mfccMean p) = 1%nat /\ length (mfccVariance p) = 1%nat.
Proof.
  eexists. split; [reflexivity|].
  apply (@mfcc_shape float _ [flat_frame (of_Z 1); flat_frame (of_Z 2)]).
  reflexivity.
Defined.

Section MfccCoefficientwise.
Context {num : Type} {N : JsNumber num}.

Lemma accumulate_nth (g : num -> num) (sums row : list num) (i : nat) :
  length row = length sums -> (i < length sums)%nat ->
  nth i (accumulate g sums row) NaN
  = (nth i sums NaN + g (nth i row NaN))%js.
Proof.
  revert sums i. induction row as [|x row IH]; intros [|s sums] i Hlen Hi;
    simpl in *; try discriminate; try lia.
  destruct i as [|i]; [reflexivity|]. apply IH; lia.
Qed.

Lemma fold_accumulate_nth (g : num -> num) (d i : nat)
  (frames : list (VoiceFeatures num)) :
  mfcc_length d frames -> (i < d)%nat ->
  forall sums, length sums = d ->
    nth i (fold_left (fun sums feature => accumulate g sums (mfcc feature))
                     frames sums) NaN
    = fold_left (fun acc feature => (acc + g (coefficient i feature))%js)
                frames (nth i sums NaN).
Proof.
  intros Hd Hi. induction Hd as [|f frames Hf Hfs IH]; intros sums Hs; simpl.
  - reflexivity.
  - rewrite IH.
    + rewrite accumulate_nth by lia. reflexivity.
    + rewrite accumulate_length_max. lia.
Qed.

Lemma nth_repeat_zero (d i : nat) : nth i (repeat (of_Z 0) d) NaN
                                    = if (i <? d)%nat then of_Z 0 else NaN.
Proof.
  revert i. induction d as [|d IH]; intros [|i]; simpl; auto.
Qed.

Lemma mfccTotals_nth (g : num -> num) (d i : nat)
  (first : VoiceFeatures num) (frames : list (VoiceFeatures num)) :
  mfcc_length d frames -> length (mfcc first) = d -> (i < d)%nat ->
  nth i (mfccTotals g first frames) NaN
  = fold_left (fun acc feature => (acc + g (coefficient i feature))%js)
              frames (of_Z 0).
Proof.
  intros Hd Hfirst Hi. unfold mfccTotals.
  rewrite (@fold_accumulate_nth g d i) by (auto; rewrite repeat_length; auto).
  rewrite nth_repeat_zero, Hfirst.
  apply Nat.ltb_lt in Hi. now rewrite Hi.
Qed.

Lemma map_indexed_nth (f : num -> nat -> num) (xs : list num) (start i : nat) :
  (i < length xs)%nat ->
  nth i (map_indexed f start xs) NaN = f (nth i xs NaN) (start + i)%nat.
Proof.
  revert start i. induction xs as [|x xs IH]; intros start [|i] Hi;
    simpl in *; try lia.
  - now rewrite Nat.add_0_r.
  - rewrite IH by lia. f_equal. lia.
Qed.

Lemma eq_map_seq (F : nat -> num) (d : nat) (l : list num) :
  length l = d -> (forall i, (i < d)%nat -> nth i l NaN = F i) ->
  l = map F (seq 0 d).
Proof.
  intros Hlen Hnth. apply nth_ext with (d := NaN) (d' := F 0%nat).
  - now rewrite length_map, length_seq.
  - intros i Hi. rewrite Hnth by lia.
    rewrite map_nth, seq_nth by lia. reflexivity.
Qed.

(** The two MFCC vectors of a returned aggregate, column by column. *)
Lemma mfcc_columns (d : nat) (frames : list (VoiceFeatures num))
  (p : AggregatedVoiceFeatures num) :
  mfcc_length d frames -> aggregateFeatures frames = Returns p ->
  mfccMean p = map (fun i => meanOf (coefficient i) frames) (seq 0 d)
  /\ mfccVariance p
     = map (fun i => varianceOf (coefficient i) frames) (seq 0 d).
Proof.
  intros Hd Hp. destruct frames as [|first rest]; [discriminate|].
  assert (Hfirst : length (mfcc first) = d) by (inversion Hd; auto).
  unfold aggregateFeatures in Hp. cbv zeta in Hp. injection Hp as <-.
  cbn [mfccMean mfccVariance].
  assert (Hlen : forall g, length (mfccTotals g first (first :: rest)) = d).
  { intros g. unfold mfccTotals.
    rewrite fold_accumulate_length, repeat_length.
    assert (list_max (map (fun f => length (mfcc f)) (first :: rest)) <= d)%nat.
    { clear -Hd. induction Hd as [|f fs Hf Hfs IH]; simpl in *; lia. }
    lia. }
  split.
  - apply eq_map_seq; [now rewrite length_map|].
    intros i Hi.
    rewrite (nth_indep _ NaN ((fun sum => (sum / len (first :: rest))%js) NaN))
      by (rewrite length_map, Hlen; exact Hi).
    rewrite (map_nth (fun sum => (sum / len (first :: rest))%js)).
    rewrite (@mfccTotals_nth (fun x => x) d) by auto.
    reflexivity.
  - unfold mfccVarianceOf.
    apply eq_map_seq; [now rewrite map_indexed_length|].
    intros i Hi. rewrite map_indexed_nth by (rewrite Hlen; exact Hi).
    unfold at_index.
    rewrite (@mfccTotals_nth (fun x => x) d), (@mfccTotals_nth (fun x => x * x)%js d)
      by auto.
    reflexivity.
Qed.

(** For frames whose MFCC vectors have one length [d], the aggregate
    treats each coefficient like a scalar member: entry [i] of the mean and
    of the variance vector is the mean and the variance of coefficient [i]
    over the frames.  This holds on every number model. *)
Theorem mfcc_coefficientwise (d : nat) (frames : list (VoiceFeatures num)) :
  frames <> [] -> mfcc_length d frames ->
  exists p, aggregateFeatures frames = Returns p
            /\ mfccMean p
               = map (fun i => meanOf (coefficient i) frames) (seq 0 d)
            /\ mfccVariance p
               = map (fun i => varianceOf (coefficient i) frames) (seq 0 d).
Proof.
  intros Hne Hd.
  assert (Hp : exists p, aggregateFeatures frames = Returns p).
  { destruct frames as [|first rest]; [contradiction|].
    eexists. reflexivity. }
  destruct Hp as [p Hp]. exists p. split; [exact Hp|].
  exact (mfcc_columns Hd Hp).
Qed.

End MfccCoefficientwise.

Lemma mfcc_coefficientwise_witness :
  exists p : AggregatedVoiceFeatures float,
    aggregateFeatures [flat_frame (of_Z 1); flat_frame (of_Z 2)] = Returns p
    /\ mfccMean p
       = map (fun i => meanOf (coefficient i)
                              [flat_frame (of_Z 1); flat_frame (of_Z 2)])
             (seq 0 1)
    /\ mfccVariance p
       = map (fun i => varianceOf (coefficient i)
                                  [flat_frame (of_Z 1); flat_frame (of_Z 2)])
             (seq 0 1).
Proof.
  apply mfcc_coefficientwise; [discriminate | repeat constructor].
Defined.

Section AggregateNormalForm.
Context {num : Type} {N : JsNumber num}.

Lemma aggregateFeatures_aggregateOf (d : nat) (frames : list (VoiceFeatures num)) :
  frames <> [] -> mfcc_length d frames ->
  aggregateFeatures frames = Returns (aggregateOf d frames).
Proof.
  intros Hne Hd.
  destruct frames as [|first rest]; [contradiction|].
  destruct (mfcc_columns Hd (eq_refl : aggregateFeatures (first :: rest) = _))
    as [Hm Hv].
  unfold aggregateFeatures in *. cbv zeta in *.
  cbn [mfccMean mfccVariance] in Hm, Hv. unfold aggregateOf.
  rewrite Hm, Hv. reflexivity.
Qed.

End AggregateNormalForm.

(** ** Aggregation in exact arithmetic *)

Section AggregationFurther.
Local Open Scope R_scope.

Lemma exact_add_swap (a x y : exact) : (a + x + y)%js = (a + y + x)%js.
Proof.
  destruct a as [ra| | |], x as [rx| | |], y as [ry| | |]; simpl; auto.
  f_equal. lra.
Qed.

Lemma fold_member_perm (g : VoiceFeatures exact -> exact)
  (frames frames' : list (VoiceFeatures exact)) :
  Permutation frames frames' ->
  forall a, fold_left (fun acc f => (acc + g f)%js) frames a
            = fold_left (fun acc f => (acc + g f)%js) frames' a.
Proof.
  induction 1 as [|f l l' Hp IH|f1 f2 l|l1 l2 l3 H12 IH12 H23 IH23];
    intros a; simpl; auto.
  - now rewrite exact_add_swap.
  - now rewrite IH12.
Qed.

Lemma meanOf_perm (member : VoiceFeatures exact -> exact) frames frames' :
  Permutation frames frames' -> meanOf member frames = meanOf member frames'.
Proof.
  intros H. unfold meanOf, sumOf, len.
  rewrite (fold_member_perm member H (of_Z 0)).
  rewrite (Permutation_length H). reflexivity.
Qed.

Lemma varianceOf_perm (member : VoiceFeatures exact -> exact) frames frames' :
  Permutation frames frames' ->
  varianceOf member frames = varianceOf member frames'.
Proof.
  intros H. unfold varianceOf, sumSqOf, len.
  rewrite (meanOf_perm member H).
  rewrite (fold_member_perm (fun f => member f * member f)%js H (of_Z 0)).
  rewrite (Permutation_length H). reflexivity.
Qed.

(** In exact arithmetic the aggregate does not depend on the order of the
    frames (frames with MFCC vectors of one length): the totals are sums. *)
Theorem aggregate_order_independent (d : nat)
  (frames frames' : list (VoiceFeatures exact)) :
  Permutation frames frames' ->
  frames <> [] -> mfcc_length d frames ->
  aggregateFeatures frames' = aggregateFeatures frames.
Proof.
  intros Hp Hne Hd.
  assert (Hne' : frames' <> []).
  { intros ->. apply Permutation_sym, Permutation_nil in Hp. contradiction. }
  assert (Hd' : mfcc_length d frames').
  { unfold mfcc_length in *. eapply Permutation_Forall; eauto. }
  rewrite (aggregateFeatures_aggregateOf Hne Hd).
  rewrite (aggregateFeatures_aggregateOf Hne' Hd').
  f_equal. unfold aggregateOf.
  rewrite (map_ext _ _ (fun i => meanOf_perm (coefficient i) Hp)).
  rewrite (map_ext _ _ (fun i => varianceOf_perm (coefficient i) Hp)).
  rewrite
    (meanOf_perm spectralCentroid Hp), (varianceOf_perm spectralCentroid Hp),
    (meanOf_perm spectralFlatness Hp), (varianceOf_perm spectralFlatness Hp),
    (meanOf_perm spectralRolloff Hp), (varianceOf_perm spectralRolloff Hp),
    (meanOf_perm spectralFlux Hp), (varianceOf_perm spectralFlux Hp),
    (meanOf_perm perceptualSpread Hp), (varianceOf_perm perceptualSpread Hp),
    (meanOf_perm perceptualSharpness Hp), (varianceOf_perm perceptualSharpness Hp),
    (meanOf_perm spectralKurtosis Hp), (varianceOf_perm spectralKurtosis Hp),
    (meanOf_perm zcr Hp), (varianceOf_perm zcr Hp),
    (meanOf_perm rms Hp), (varianceOf_perm rms Hp),
    (meanOf_perm energy Hp), (varianceOf_perm energy Hp).
  reflexivity.
Qed.

Lemma aggregate_order_independent_witness :
  aggregateFeatures [flat_frame (Fin 2); flat_frame (Fin 1)]
  = aggregateFeatures [flat_frame (Fin 1); flat_frame (Fin 2)].
Proof.
  apply (@aggregate_order_independent 1).
  - apply perm_swap.
  - discriminate.
  - repeat constructor.
Defined.

End AggregationFurther.

Section MeansExact.
Local Open Scope R_scope.

Lemma between_finite (lo hi : R) (x : exact) : between lo hi x -> finite x.
Proof. intros [r [-> _]]. exact I. Qed.

Lemma Rsum_bounds (lo hi : R) (xs : list R) :
  Forall (fun x => lo <= x <= hi) xs ->
  INR (length xs) * lo <= Rsum xs <= INR (length xs) * hi.
Proof.
  induction 1 as [|x xs Hx Hxs IH].
  - simpl. lra.
  - change (length (x :: xs)) with (S (length xs)). rewrite S_INR. simpl. lra.
Qed.

Lemma meanOf_exact (member : VoiceFeatures exact -> exact) frames :
  frames <> [] ->
  Forall (fun f => finite (member f)) frames ->
  meanOf member frames
  = Fin (Rsum (samplesOf member frames) / INR (length frames)).
Proof.
  intros Hne Hfin. pose proof (count_positive Hne) as Hn.
  unfold meanOf. rewrite sumOf_exact, len_exact by auto.
  now rewrite div_Fin by lra.
Qed.

Lemma meanOf_between (lo hi : R) (member : VoiceFeatures exact -> exact) frames :
  frames <> [] ->
  Forall (fun f => between lo hi (member f)) frames ->
  between lo hi (meanOf member frames).
Proof.
  intros Hne Hb. pose proof (count_positive Hne) as Hn.
  rewrite meanOf_exact; auto.
  2:{ eapply Forall_impl; [|exact Hb]. intros f. apply between_finite. }
  eexists. split; [reflexivity|].
  assert (Hs : Forall (fun x => lo <= x <= hi) (samplesOf member frames)).
  { unfold samplesOf. apply Forall_map. eapply Forall_impl; [|exact Hb].
    intros f [r [-> Hr]]. exact Hr. }
  apply Rsum_bounds in Hs. unfold samplesOf in Hs at 1 4.
  rewrite length_map in Hs.
  split.
  - apply Rmult_le_reg_r with (INR (length frames)); [exact Hn|].
    unfold Rdiv. rewrite Rmult_assoc, Rinv_l by lra. lra.
  - apply Rmult_le_reg_r with (INR (length frames)); [exact Hn|].
    unfold Rdiv. rewrite Rmult_assoc, Rinv_l by lra. lra.
Qed.

Lemma coefficient_between (lo hi : R) (d i : nat) (f : VoiceFeatures exact) :
  Forall (between lo hi) (mfcc f) -> length (mfcc f) = d -> (i < d)%nat ->
  between lo hi (coefficient i f).
Proof.
  intros Hb Hlen Hi. unfold coefficient. rewrite Forall_forall in Hb.
  apply Hb, nth_In. lia.
Qed.

(** In exact arithmetic, for frames whose MFCC vectors have one length,
    every mean of the aggregate lies between the smallest and the largest
    number of the frames: if all numbers of all frames are between [lo] and
    [hi], so are the MFCC means and the ten scalar means. *)
Theorem means_within_bounds (lo hi : R) (d : nat)
  (frames : list (VoiceFeatures exact)) :
  frames <> [] -> mfcc_length d frames ->
  Forall (bounded_frame lo hi) frames ->
  exists p, aggregateFeatures frames = Returns p
            /\ Forall (between lo hi) (meanFields p).
Proof.
  intros Hne Hd Hb. rewrite (aggregateFeatures_aggregateOf Hne Hd).
  eexists. split; [reflexivity|].
  assert (Hscal : forall member, In member scalarMembers ->
                                 between lo hi (meanOf member frames)).
  { intros member Hin. apply meanOf_between; auto.
    eapply Forall_impl; [|exact Hb]. intros f [_ Hf].
    rewrite Forall_forall in Hf. auto. }
  unfold meanFields, aggregateOf.
  cbn [mfccMean spectralCentroidMean spectralFlatnessMean spectralRolloffMean
       spectralFluxMean perceptualSpreadMean perceptualSharpnessMean
       spectralKurtosisMean zcrMean rmsMean energyMean].
  apply Forall_app. split.
  - apply Forall_map, Forall_forall. intros i Hi. apply in_seq in Hi.
    apply meanOf_between; auto.
    unfold mfcc_length in Hd. rewrite Forall_forall in *. intros f Hf.
    destruct (Hb f Hf) as [Hm _].
    apply (coefficient_between (d := d)); auto. lia.
  - repeat (constructor; [apply Hscal; simpl; auto 12|]). constructor.
Qed.

Lemma means_within_bounds_witness :
  exists p, aggregateFeatures [flat_frame (Fin 1); flat_frame (Fin 2)]
            = Returns p
            /\ Forall (between 1 2) (meanFields p).
Proof.
  apply (@means_within_bounds 1 2 1).
  - discriminate.
  - repeat constructor.
  - repeat constructor; eexists; (split; [reflexivity | lra]).
Defined.

(** The one length of the MFCC vectors is needed: the frames with MFCC
    vectors [[1; 1]] and [[1]], all of whose numbers are 1, have the second
    MFCC mean [(1 + 0) / 2]. *)
Lemma ragged_means_leave_bounds :
  Forall (bounded_frame 1 1)
         [frame_of [Fin 1; Fin 1] (Fin 1); frame_of [Fin 1] (Fin 1)]
  /\ ~ (forall p : AggregatedVoiceFeatures exact,
          aggregateFeatures
            [frame_of [Fin 1; Fin 1] (Fin 1); frame_of [Fin 1] (Fin 1)]
          = Returns p ->
          Forall (between 1 1) (meanFields p)).
Proof.
  split.
  - repeat constructor; exists 1; (split; [reflexivity | lra]).
  - intros H. specialize (H _ eq_refl).
    apply Forall_inv_tail, Forall_inv in H. destruct H as [r [E Hr]].
    revert E. cbn -[Rlt_dec]. unfold Exact.sgn.
    repeat (match goal with
            | |- context [Rlt_dec ?a ?b] => destruct (Rlt_dec a b); try lra
            end; cbn -[Rlt_dec]; unfold Exact.sgn).
    intros E. injection E as <-. lra.
Qed.

End MeansExact.

Section IdenticalFrames.
Local Open Scope R_scope.

Lemma samplesOf_repeat (member : VoiceFeatures exact -> exact) f (n : nat) :
  samplesOf member (repeat f n) = repeat (real_of (member f)) n.
Proof. unfold samplesOf. induction n; simpl; congruence. Qed.

Lemma Rsum_repeat (c : R) (n : nat) : Rsum (repeat c n) = INR n * c.
Proof.
  induction n as [|n IH].
  - simpl. lra.
  - rewrite S_INR. cbn [repeat Rsum fold_right] in *. unfold Rsum in IH.
    rewrite IH. lra.
Qed.

Lemma repeat_member_finite (member : VoiceFeatures exact -> exact) f (n : nat) :
  finite (member f) -> Forall (fun g => finite (member g)) (repeat f n).
Proof. intros H. induction n; simpl; constructor; auto. Qed.

Lemma repeat_nonempty (A : Type) (a : A) (n : nat) :
  (0 < n)%nat -> repeat a n <> [].
Proof. destruct n; [lia | discriminate]. Qed.

Lemma meanOf_repeat (member : VoiceFeatures exact -> exact) f (n : nat) :
  (0 < n)%nat -> finite (member f) -> meanOf member (repeat f n) = member f.
Proof.
  intros Hn Hf.
  rewrite meanOf_exact
    by (auto using repeat_nonempty, repeat_member_finite).
  rewrite samplesOf_repeat, Rsum_repeat, repeat_length.
  rewrite (finite_Fin _ Hf) at 2. f_equal.
  assert (0 < INR n) by (apply lt_0_INR; lia). field. lra.
Qed.

Lemma varianceOf_repeat (member : VoiceFeatures exact -> exact) f (n : nat) :
  (0 < n)%nat -> finite (member f) -> varianceOf member (repeat f n) = Fin 0.
Proof.
  intros Hn Hf.
  rewrite varianceOf_exact
    by (auto using repeat_nonempty, repeat_member_finite).
  rewrite samplesOf_repeat, Rsum_repeat, Rsumsq_repeat, repeat_length.
  f_equal. assert (0 < INR n) by (apply lt_0_INR; lia). field. lra.
Qed.

Lemma coefficient_finite (i : nat) (f : VoiceFeatures exact) :
  Forall finite (mfcc f) -> (i < length (mfcc f))%nat -> finite (coefficient i f).
Proof.
  intros H Hi. unfold coefficient. rewrite Forall_forall in H.
  apply H, nth_In, Hi.
Qed.

(** Any number of copies of one frame, of finite numbers, aggregate to that
    frame: the means are its numbers and every variance is exactly 0. *)
Theorem identical_frames (f : VoiceFeatures exact) (n : nat) :
  (0 < n)%nat -> finite_frame f ->
  exists p, aggregateFeatures (repeat f n) = Returns p
            /\ meanFields p = mfcc f ++ map (fun member => member f) scalarMembers
            /\ Forall (fun v => v = Fin 0) (varianceFields p).
Proof.
  intros Hn [Hm Hs].
  assert (Hd : mfcc_length (length (mfcc f)) (repeat f n)).
  { unfold mfcc_length. clear. induction n; simpl; constructor; auto. }
  rewrite (aggregateFeatures_aggregateOf (repeat_nonempty f Hn) Hd).
  eexists. split; [reflexivity|].
  assert (Hscal : forall member, In member scalarMembers -> finite (member f)).
  { rewrite Forall_forall in Hs. exact Hs. }
  unfold meanFields, varianceFields, aggregateOf.
  cbn [mfccMean spectralCentroidMean spectralFlatnessMean spectralRolloffMean
       spectralFluxMean perceptualSpreadMean perceptualSharpnessMean
       spectralKurtosisMean zcrMean rmsMean energyMean
       mfccVariance spectralCentroidVariance spectralFlatnessVariance
       spectralRolloffVariance spectralFluxVariance perceptualSpreadVariance
       perceptualSharpnessVariance spectralKurtosisVariance zcrVariance
       rmsVariance energyVariance].
  split.
  - f_equal.
    + symmetry. apply eq_map_seq; [reflexivity|].
      intros i Hi. symmetry. apply meanOf_repeat; auto.
      now apply coefficient_finite.
    + unfold scalarMembers. cbn [map].
      rewrite !meanOf_repeat by (auto; apply Hscal; simpl; auto 12).
      reflexivity.
  - apply Forall_app. split.
    + apply Forall_map, Forall_forall. intros i Hi. apply in_seq in Hi.
      apply varianceOf_repeat; auto. apply coefficient_finite; auto. lia.
    + repeat (constructor;
              [apply varianceOf_repeat; auto; apply Hscal; simpl; auto 12|]).
      constructor.
Qed.

Lemma identical_frames_witness :
  exists p, aggregateFeatures (repeat (flat_frame (Fin 3)) 4) = Returns p
            /\ meanFields p
               = mfcc (flat_frame (Fin 3))
                 ++ map (fun member => member (flat_frame (Fin 3))) scalarMembers
            /\ Forall (fun v => v = Fin 0) (varianceFields p).
Proof.
  apply identical_frames; [lia | split; repeat constructor].
Defined.

End IdenticalFrames.

(** ** The scorer: what it reads *)

Section ScorerReads.
Context {num : Type} {N : JsNumber num} {L : JsLog num}.

Lemma normalized_centroid (A : AggregatedVoiceFeatures num) :
  spectralCentroidMean (normalizeSpectralFeatures A)
  = if (spectralCentroidMean A > of_Z 0)%js
    then Math_log (spectralCentroidMean A)
    else spectralCentroidMean A.
Proof.
  unfold normalizeSpectralFeatures. cbv zeta.
  destruct (spectralCentroidMean A > of_Z 0)%js, (rmsMean A > of_Z 0)%js,
    (energyMean A > of_Z 0)%js; reflexivity.
Qed.

Lemma normalized_energy (A : AggregatedVoiceFeatures num) :
  energyMean (normalizeSpectralFeatures A)
  = if (energyMean A > of_Z 0)%js
    then Math_log (energyMean A + of_Z 1)%js
    else energyMean A.
Proof.
  unfold normalizeSpectralFeatures. cbv zeta.
  destruct (spectralCentroidMean A > of_Z 0)%js, (rmsMean A > of_Z 0)%js,
    (energyMean A > of_Z 0)%js; reflexivity.
Qed.

Lemma normalized_zcr (A : AggregatedVoiceFeatures num) :
  zcrMean (normalizeTempoFeatures A)
  = if (zcrMean A > of_Z 0)%js
    then Math_log (zcrMean A + of_Z 1)%js
    else zcrMean A.
Proof.
  unfold normalizeTempoFeatures. cbv zeta.
  destruct (zcrMean A > of_Z 0)%js, (speakingRate A) as [r|];
    try destruct (present_and_positive (Some r)); reflexivity.
Qed.

Lemma normalized_pitch (A : AggregatedVoiceFeatures num) :
  pitchMean (normalizePitchFeatures A)
  = match pitchMean A with
    | Some p => if present_and_positive (Some p)
                then Some (Math_log p) else Some p
    | None => None
    end.
Proof.
  unfold normalizePitchFeatures.
  destruct (pitchMean A) as [p|] eqn:E; [|exact E].
  destruct (present_and_positive (Some p)); [reflexivity | exact E].
Qed.

(** The result depends on nine members of each profile only.  No variance,
    no spectral flux or kurtosis mean, no RMS mean, no jitter, shimmer,
    speaking rate or formant changes it. *)
Theorem scorer_reads_nine_members (A A' B B' : AggregatedVoiceFeatures num) :
  same_scored_members A A' -> same_scored_members B B' ->
  calculateRobustSimilarityScore A B = calculateRobustSimilarityScore A' B'.
Proof.
  intros [Am [Ac [Af [Ar [Asp [Ash [Az [Ae Ap]]]]]]]]
         [Bm [Bc [Bf [Br [Bsp [Bsh [Bz [Be Bp]]]]]]]].
  assert (Hmfcc : mfccDistanceOf A B = mfccDistanceOf A' B').
  { unfold mfccDistanceOf. now rewrite Am, Bm. }
  assert (Hcen : spectralCentroidDiffOf A B = spectralCentroidDiffOf A' B').
  { unfold spectralCentroidDiffOf. rewrite !normalized_centroid.
    now rewrite Ac, Bc. }
  assert (Hzcr : zcrDiffOf A B = zcrDiffOf A' B').
  { unfold zcrDiffOf. rewrite !normalized_zcr. now rewrite Az, Bz. }
  assert (Hen : energyDiffOf A B = energyDiffOf A' B').
  { unfold energyDiffOf. rewrite !normalized_energy. now rewrite Ae, Be. }
  assert (Hpitch : pitchDiffOf A B = pitchDiffOf A' B').
  { unfold pitchDiffOf. rewrite !normalized_pitch. now rewrite Ap, Bp. }
  unfold calculateRobustSimilarityScore, mfccSimilarityOf, spectralSimilarityOf,
    voiceQualitySimilarityOf, tempoSimilarityOf, pitchSimilarityOf.
  cbv zeta.
  rewrite Hmfcc, Hcen, Hzcr, Hen, Hpitch, Af, Bf, Ar, Br, Asp, Bsp, Ash, Bsh.
  reflexivity.
Qed.

End ScorerReads.

Lemma scorer_reads_nine_members_witness :
  calculateRobustSimilarityScore
    (flat_profile None (Fin 1))
    (with_rmsMean (Fin 5) (flat_profile None (Fin 2)))
  = calculateRobustSimilarityScore
      (with_energyMean (Fin 1) (flat_profile None (Fin 1)))
      (flat_profile None (Fin 2)).
Proof.
  apply scorer_reads_nine_members; repeat split.
Defined.

(** ** The scorer: bounds that follow from the weights *)

Section ScorerBounds.
Local Open Scope R_scope.

(** Five numbers of the unit interval have a variance of at most 1/4. *)
Lemma variance5_quarter (m s v t p : R) :
  0 <= m <= 1 -> 0 <= s <= 1 -> 0 <= v <= 1 -> 0 <= t <= 1 -> 0 <= p <= 1 ->
  variance5 m s v t p <= 1 / 4.
Proof.
  intros Hm Hs Hv Ht Hp.
  assert (E : variance5 m s v t p
              = (m * m + s * s + v * v + t * t + p * p) / 5
                - mean5 m s v t p * mean5 m s v t p).
  { unfold variance5, mean5. field. }
  rewrite E.
  assert (Hsq : m * m + s * s + v * v + t * t + p * p
                <= 5 * mean5 m s v t p) by (unfold mean5; nra).
  pose proof (Rle_0_sqr (mean5 m s v t p - 1 / 2)) as H. unfold Rsqr in H.
  lra.
Qed.

(** For well-formed profiles the confidence score is at least 0.75: the
    floor [Math.max(0, ...)] never applies to it. *)
Theorem confidence_at_least_three_quarters (A B : AggregatedVoiceFeatures exact) :
  well_formed A -> well_formed B ->
  exists c : R, confidenceScore (calculateRobustSimilarityScore A B) = Fin c
                /\ 3 / 4 <= c <= 1.
Proof.
  intros HA HB.
  destruct (mfccSimilarityOf_scored HA HB) as [m [Em [Hm _]]].
  destruct (spectralSimilarityOf_scored HA HB) as [s [Es [Hs _]]].
  destruct (voiceQualitySimilarityOf_scored HA HB) as [v [Ev [Hv _]]].
  destruct (tempoSimilarityOf_scored HA HB) as [t [Et [Ht _]]].
  destruct (pitchSimilarityOf_scored HA HB) as [[p [Ep [Hp _]]] _].
  destruct (score_exact A B Em Es Ev Et Ep) as [_ [_ [_ [_ [_ Ec]]]]].
  rewrite Ec. eexists. split; [reflexivity|].
  pose proof (variance5_quarter Hm Hs Hv Ht Hp) as Hq.
  pose proof (variance5_nonneg m s v t p) as H0.
  unfold Rmax. destruct (Rle_dec 0 (1 - variance5 m s v t p)); lra.
Qed.

Lemma confidence_at_least_three_quarters_witness :
  exists c : R,
    confidenceScore
      (calculateRobustSimilarityScore (flat_profile (Some (Fin 120)) (Fin 1))
                                      (flat_profile None (Fin 2))) = Fin c
    /\ 3 / 4 <= c <= 1.
Proof.
  apply confidence_at_least_three_quarters;
    (split; [discriminate|]; repeat split; repeat constructor).
Defined.

Lemma mfccSimilarityOf_same_mfcc (A B : AggregatedVoiceFeatures exact) :
  well_formed A -> mfccMean A = mfccMean B -> mfccSimilarityOf A B = Fin 1.
Proof.
  intros HA E.
  assert (E' : mfccSimilarityOf A B = mfccSimilarityOf A A).
  { unfold mfccSimilarityOf, mfccDistanceOf. now rewrite <- E. }
  rewrite E'. destruct (mfccSimilarityOf_scored HA HA) as [r [Er [_ H1]]].
  rewrite Er. f_equal. auto.
Qed.

(** The MFCC category carries half of the overall similarity: profiles
    with equal mean MFCC vectors score at least 0.5 overall, and profiles
    whose MFCC distance is 5 or more score at most 0.5. *)
Theorem overall_follows_mfcc (A B : AggregatedVoiceFeatures exact) :
  well_formed A -> well_formed B ->
  exists o : R,
    overallSimilarity (calculateRobustSimilarityScore A B) = Fin o
    /\ (mfccMean A = mfccMean B -> 1 / 2 <= o)
    /\ (forall dist : R,
          mfccDistance (detailedMetrics (calculateRobustSimilarityScore A B))
          = Fin dist ->
          5 <= dist -> o <= 1 / 2).
Proof.
  intros HA HB.
  destruct (mfccSimilarityOf_scored HA HB) as [m [Em [Hm _]]].
  destruct (spectralSimilarityOf_scored HA HB) as [s [Es [Hs _]]].
  destruct (voiceQualitySimilarityOf_scored HA HB) as [v [Ev [Hv _]]].
  destruct (tempoSimilarityOf_scored HA HB) as [t [Et [Ht _]]].
  destruct (pitchSimilarityOf_scored HA HB) as [[p [Ep [Hp _]]] _].
  destruct (score_exact A B Em Es Ev Et Ep) as [Eo _].
  rewrite Eo. eexists. split; [reflexivity|]. split.
  - intros E. rewrite (mfccSimilarityOf_same_mfcc _ HA E) in Em.
    injection Em as <-. lra.
  - intros dist Ed Hd.
    unfold calculateRobustSimilarityScore in Ed. cbv zeta in Ed.
    cbn [detailedMetrics mfccDistance] in Ed.
    unfold mfccSimilarityOf in Em. rewrite Ed in Em.
    simpl (of_Z 5) in Em. rewrite div_Fin in Em by lra.
    simpl in Em. injection Em as <-.
    assert (Rmax 0 (1 + - (dist / 5)) = 0).
    { unfold Rmax. destruct (Rle_dec 0 (1 + - (dist / 5))); lra. }
    lra.
Qed.

Lemma overall_follows_mfcc_witness :
  exists o : R,
    overallSimilarity
      (calculateRobustSimilarityScore (flat_profile (Some (Fin 120)) (Fin 1))
                                      (flat_profile None (Fin 1))) = Fin o
    /\ 1 / 2 <= o.
Proof.
  destruct (@overall_follows_mfcc (flat_profile (Some (Fin 120)) (Fin 1))
                                  (flat_profile None (Fin 1)))
    as [o [Eo [Hsame _]]];
    try (split; [discriminate|]; repeat split; repeat constructor).
  exists o. split; [exact Eo | apply Hsame; reflexivity].
Defined.

End ScorerBounds.

(** ** The scorer: pitch *)

Section ScorerPitch.
Local Open Scope R_scope.

Lemma normalized_positive_pitch (A : AggregatedVoiceFeatures exact) (a : R) :
  pitchMean A = Some (Fin a) -> 0 < a ->
  pitchMean (normalizePitchFeatures A) = Some (Fin (ln a)).
Proof.
  intros E Ha. rewrite normalized_pitch, E. unfold present_and_positive.
  assert (T : truthy (Fin a) = true) by (apply truthy_Fin; lra).
  assert (P : (Fin a > of_Z 0)%js = true) by (apply lt_Fin; exact Ha).
  rewrite T, P. cbn [andb]. now rewrite log_positive.
Qed.

(** For two positive pitch means other than 1 the pitch difference is the
    absolute logarithm of their ratio, so that scaling both pitches by one
    factor does not change it. *)
Theorem pitch_difference_is_log_ratio
  (A B : AggregatedVoiceFeatures exact) (a b : R) :
  pitchMean A = Some (Fin a) -> pitchMean B = Some (Fin b) ->
  0 < a -> 0 < b -> a <> 1 -> b <> 1 ->
  pitchDiff (detailedMetrics (calculateRobustSimilarityScore A B))
  = Some (Fin (Rabs (ln (a / b)))).
Proof.
  intros EA EB Ha Hb Ha1 Hb1.
  unfold calculateRobustSimilarityScore. cbv zeta. cbn [detailedMetrics pitchDiff].
  unfold pitchDiffOf.
  rewrite (normalized_positive_pitch A EA Ha), (normalized_positive_pitch B EB Hb).
  assert (Ta : truthy (Fin (ln a)) = true).
  { apply truthy_Fin. intros H. apply Ha1. apply ln_inv; try lra. now rewrite ln_1. }
  assert (Tb : truthy (Fin (ln b)) = true).
  { apply truthy_Fin. intros H. apply Hb1. apply ln_inv; try lra. now rewrite ln_1. }
  rewrite Ta, Tb. cbn [andb]. simpl. do 2 f_equal.
  unfold Rdiv. rewrite ln_mult; try lra.
  - rewrite ln_Rinv by lra. reflexivity.
  - now apply Rinv_0_lt_compat.
Qed.

Lemma pitch_difference_is_log_ratio_witness :
  pitchDiff
    (detailedMetrics
       (calculateRobustSimilarityScore (flat_profile (Some (Fin 120)) (Fin 1))
                                       (flat_profile (Some (Fin 240)) (Fin 1))))
  = Some (Fin (Rabs (ln (120 / 240)))).
Proof.
  apply pitch_difference_is_log_ratio; try reflexivity; lra.
Defined.

Lemma ignored_pitch_unusable (A : AggregatedVoiceFeatures exact) :
  ignored_pitch (pitchMean A) -> usable_pitch A = false.
Proof.
  unfold usable_pitch. rewrite normalized_pitch.
  intros [E|[E|[E|E]]]; rewrite E; try reflexivity.
  - unfold present_and_positive.
    assert (T : truthy (Fin 0) = false).
    { simpl. now rewrite sgn_zero. }
    rewrite T. cbn [andb]. exact T.
  - unfold present_and_positive.
    assert (T : truthy (Fin 1) = true) by (apply truthy_Fin; lra).
    assert (P : (Fin 1 > of_Z 0)%js = true) by (apply lt_Fin; lra).
    rewrite T, P. cbn [andb]. rewrite log_positive by exact P.
    rewrite ln_1. simpl. now rewrite sgn_zero.
Qed.

(** A missing pitch mean, and a pitch mean of 0, of NaN or of exactly 1, in
    either profile, leave the pitch difference null and give the pitch
    category its default 0.7. *)
Theorem ignored_pitch_defaults (A B : AggregatedVoiceFeatures exact) :
  ignored_pitch (pitchMean A) \/ ignored_pitch (pitchMean B) ->
  pitchDiff (detailedMetrics (calculateRobustSimilarityScore A B)) = None
  /\ pitchSimilarityOf A B = Fin (7 / 10).
Proof.
  intros H.
  assert (U : usable_pitch A && usable_pitch B = false).
  { destruct H as [H|H]; rewrite (ignored_pitch_unusable _ H);
      [reflexivity | apply andb_false_r]. }
  assert (E : pitchDiffOf A B = None).
  { rewrite pitchDiffOf_usable, U. reflexivity. }
  unfold calculateRobustSimilarityScore. cbv zeta.
  cbn [detailedMetrics pitchDiff]. split; [exact E|].
  unfold pitchSimilarityOf. rewrite E. now rewrite dec_Fin by lra.
Qed.

Lemma ignored_pitch_defaults_witness :
  pitchDiff
    (detailedMetrics
       (calculateRobustSimilarityScore (flat_profile (Some (Fin 1)) (Fin 1))
                                       (flat_profile (Some (Fin 120)) (Fin 1))))
  = None
  /\ pitchSimilarityOf (flat_profile (Some (Fin 1)) (Fin 1))
                       (flat_profile (Some (Fin 120)) (Fin 1))
     = Fin (7 / 10).
Proof.
  apply ignored_pitch_defaults. left. right. right. left. reflexivity.
Defined.

End ScorerPitch.

(** ** The placeholder estimators *)

Section PlaceholderRanges.
Local Open Scope R_scope.

Lemma scaled_draw (g : RandomSource exact) (n : nat)
  (offset scale : R) :
  unit_draws g -> 0 < scale ->
  within offset (offset + scale) (Fin offset + draws g n * Fin scale)%js.
Proof.
  intros Hg Hs. destruct (Hg n) as [r [-> Hr]]. simpl.
  eexists. split; [reflexivity|]. nra.
Qed.

(** In exact arithmetic, with draws from [0, 1), the fast pitch placeholder
    returns a mean from 90 up to 150, a variance from 10 up to 20 and a range
    from 20 up to 40, the upper bounds left out, and it takes three draws. *)
Theorem fast_pitch_ranges (audioBuffer : AudioBuffer exact)
  (g : RandomSource exact) :
  unit_draws g ->
  let '(stats, g') := calculatePitchStatisticsFast audioBuffer g in
  within 90 150 (mean stats) /\ within 10 20 (variance stats)
  /\ within 20 40 (range stats)
  /\ drawn g' = (drawn g + 3)%nat /\ draws g' = draws g.
Proof.
  intros Hg. unfold calculatePitchStatisticsFast, Math_random.
  cbn [mean variance range drawn draws]. repeat split; try lia.
  - destruct (Hg (drawn g)) as [r [-> Hr]].
    rewrite dec_Fin by lra. simpl. eexists. split; [reflexivity|]. lra.
  - replace 20 with (10 + 10) by lra. apply scaled_draw; auto. lra.
  - replace 40 with (20 + 20) by lra. apply scaled_draw; auto. lra.
Qed.

(** The fast jitter and shimmer placeholders in exact arithmetic, with
    draws from [0, 1): the jitter is from 0.005 up to 0.015, the shimmer from
    0.03 up to 0.07, the upper bounds left out, for two draws. *)
Theorem fast_jitter_shimmer_ranges (audioBuffer : AudioBuffer exact)
  (g : RandomSource exact) :
  unit_draws g ->
  let '((jitter, shimmer), g') := calculateJitterAndShimmerFast audioBuffer g in
  within (5 / 1000) (15 / 1000) jitter /\ within (3 / 100) (7 / 100) shimmer
  /\ drawn g' = (drawn g + 2)%nat /\ draws g' = draws g.
Proof.
  intros Hg. unfold calculateJitterAndShimmerFast, Math_random.
  cbn [drawn draws]. rewrite !dec_Fin by lra. repeat split; try lia.
  - replace (15 / 1000) with (5 / 1000 + 1 / 100) by lra.
    apply scaled_draw; auto. lra.
  - replace (7 / 100) with (3 / 100 + 4 / 100) by lra.
    apply scaled_draw; auto. lra.
Qed.

(** The placeholders outside the pipeline in exact arithmetic, with draws
    from [0, 1): a pitch mean from 120 up to 150, variance from 10 up to 15,
    range from 30 up to 50; jitter from 0.01 up to 0.02 and shimmer from
    0.05 up to 0.08, the upper bounds left out. *)
Theorem placeholder_ranges (audioBuffer : AudioBuffer exact)
  (g : RandomSource exact) :
  unit_draws g ->
  (let '(stats, _) := calculatePitchStatistics audioBuffer g in
   within 120 150 (mean stats) /\ within 10 15 (variance stats)
   /\ within 30 50 (range stats))
  /\ (let '((jitter, shimmer), _) := calculateJitterAndShimmer audioBuffer g in
      within (1 / 100) (2 / 100) jitter /\ within (5 / 100) (8 / 100) shimmer).
Proof.
  intros Hg. unfold calculatePitchStatistics, calculateJitterAndShimmer,
    Math_random.
  cbn [mean variance range drawn draws]. rewrite !dec_Fin by lra.
  repeat split.
  - replace 150 with (120 + 30) by lra. apply scaled_draw; auto. lra.
  - replace 15 with (10 + 5) by lra. apply scaled_draw; auto. lra.
  - replace 50 with (30 + 20) by lra. apply scaled_draw; auto. lra.
  - replace (2 / 100) with (1 / 100 + 1 / 100) by lra.
    apply scaled_draw; auto. lra.
  - replace (8 / 100) with (5 / 100 + 3 / 100) by lra.
    apply scaled_draw; auto. lra.
Qed.

End PlaceholderRanges.

Section PlaceholderWitnesses.
Local Open Scope R_scope.

Lemma half_draws_unit : unit_draws half_draws.
Proof. intros n. exists (1 / 2). split; [reflexivity | lra]. Qed.

Lemma fast_pitch_ranges_witness :
  let '(stats, g') := calculatePitchStatisticsFast loud half_draws in
  within 90 150 (mean stats) /\ within 10 20 (variance stats)
  /\ within 20 40 (range stats)
  /\ drawn g' = (drawn half_draws + 3)%nat /\ draws g' = draws half_draws.
Proof. apply (fast_pitch_ranges loud half_draws_unit). Defined.

Lemma fast_jitter_shimmer_ranges_witness :
  let '((jitter, shimmer), g') :=
    calculateJitterAndShimmerFast loud half_draws in
  within (5 / 1000) (15 / 1000) jitter /\ within (3 / 100) (7 / 100) shimmer
  /\ drawn g' = (drawn half_draws + 2)%nat /\ draws g' = draws half_draws.
Proof. apply (fast_jitter_shimmer_ranges loud half_draws_unit). Defined.

Lemma placeholder_ranges_witness :
  (let '(stats, _) := calculatePitchStatistics loud half_draws in
   within 120 150 (mean stats) /\ within 10 15 (variance stats)
   /\ within 30 50 (range stats))
  /\ (let '((jitter, shimmer), _) := calculateJitterAndShimmer loud half_draws in
      within (1 / 100) (2 / 100) jitter /\ within (5 / 100) (8 / 100) shimmer).
Proof. apply (placeholder_ranges loud half_draws_unit). Defined.

End PlaceholderWitnesses.

Section PlaceholderRuns.
Local Open Scope float_scope.

(** On binary64 rounding reaches the upper bounds: for the draw
    [1 - 2^-53], the largest number below 1, the fast pitch placeholder
    returns 150, 20 and 40, and the other one 150, 15 and 50. *)
Lemma placeholders_reach_upper_bounds_binary64 :
  let g := always 0x1.fffffffffffffp-1 in
  (0x1.fffffffffffffp-1 <? 1) = true
  /\ fst (calculatePitchStatisticsFast silence g)
     = {| mean := 150; variance := 20; range := 40 |}
  /\ fst (calculatePitchStatistics silence g)
     = {| mean := 150; variance := 15; range := 50 |}.
Proof. vm_compute. repeat split. Qed.

End PlaceholderRuns.

(** ** Frame extraction *)

Section FrameCounts.
Context {num : Type} {N : JsNumber num}.
Variable Meyda_extract_mfcc : list num -> Outcome (option (list num)).
Variable Meyda_extract : string -> list num -> Outcome (option num).
Variable Meyda_extract_all : list num -> Outcome (VoiceFeatures num).

Lemma fastFrames_length (audioData : list num) (frameSize hopSize : Z)
  (count : nat) (i : Z) (g : RandomSource num) :
  length (fst (fastFrames Meyda_extract_mfcc Meyda_extract audioData
                          frameSize hopSize count i g)) = count.
Proof.
  revert i g. induction count as [|count IH]; intros i g; simpl; auto.
  destruct (extractFrameFast _ _ _) as [f|m].
  - specialize (IH (i + 1)%Z g).
    destruct (fastFrames _ _ _ _ _ count (i + 1)%Z g) as [rest g2].
    simpl in *. now rewrite IH.
  - destruct (fallbackFrame g) as [f g1]. specialize (IH (i + 1)%Z g1).
    destruct (fastFrames _ _ _ _ _ count (i + 1)%Z g1) as [rest g2].
    simpl in *. now rewrite IH.
Qed.

Lemma maxFramesOf_at_most_50 (n frameSize hopSize : Z) :
  (maxFramesOf n frameSize hopSize <= 50)%nat.
Proof.
  unfold maxFramesOf. destruct (hopSize =? 0)%Z.
  - destruct (0 <? n - frameSize)%Z; lia.
  - lia.
Qed.

(** The loop bound for a positive hop size. *)
Lemma maxFramesOf_count (n frameSize hopSize : Z) :
  (0 < hopSize)%Z ->
  maxFramesOf n frameSize hopSize
  = Z.to_nat (Z.min 50 ((n - frameSize) / hopSize))
  /\ ((n < frameSize + hopSize)%Z -> maxFramesOf n frameSize hopSize = 0%nat).
Proof.
  intros Hh. unfold maxFramesOf.
  destruct (Z.eqb_spec hopSize 0); [lia|]. split; [reflexivity|].
  intros Hn.
  assert ((n - frameSize) / hopSize < 1)%Z
    by (apply Z.div_lt_upper_bound; lia).
  lia.
Qed.

(** The fast extraction returns at most 50 frames, whatever the extractors
    do: for a positive hop size, [min(50, floor((n - frameSize) / hopSize))]
    of them, and none when the audio is shorter than a frame. *)
Theorem fast_frame_count (audioBuffer : AudioBuffer num)
  (frameSize hopSize : Z) (g : RandomSource num) :
  let frames :=
    fst (extractFeaturesFromAudioBufferFast Meyda_extract_mfcc Meyda_extract
           audioBuffer frameSize hopSize g) in
  let n := Z.of_nat (length (channelData audioBuffer)) in
  (length frames <= 50)%nat
  /\ ((0 < hopSize)%Z ->
      length frames = Z.to_nat (Z.min 50 ((n - frameSize) / hopSize)))
  /\ ((0 < hopSize)%Z -> (n < frameSize + hopSize)%Z -> frames = []).
Proof.
  cbv zeta. unfold extractFeaturesFromAudioBufferFast. cbv zeta.
  rewrite fastFrames_length. split; [apply maxFramesOf_at_most_50|].
  split.
  - intros Hh. now apply maxFramesOf_count.
  - intros Hh Hn.
    destruct (maxFramesOf_count (Z.of_nat (length (channelData audioBuffer)))
                                frameSize Hh) as [_ H0].
    rewrite (H0 Hn). reflexivity.
Qed.

Hypothesis extractor_returns :
  forall frame, exists features, Meyda_extract_all frame = Returns features.



End FrameCounts.

Section FrameCountWitnesses.
Local Open Scope float_scope.

Lemma fast_frame_count_witness :
  fst (extractFeaturesFromAudioBufferFast
         (fun _ => Returns None) (fun _ _ => Returns None)
         silence 512 256 (always 0)) = [].
Proof.
  apply (fast_frame_count (fun _ => Returns None) (fun _ _ => Returns None)
                          silence 512 256 (always 0)); reflexivity.
Defined.


End FrameCountWitnesses.

(** ** Quick validation: what it reads *)

Section QuickValidationReads.
Context {num : Type} {N : JsNumber num}.

(** Of a decoded recording the quick validation reads the duration, the
    number of samples only as far as 512 and 2048, and the first 2048
    samples: two recordings of 2048 samples or more that agree on these get
    the same answer. *)
Theorem quick_validation_reads_leading_samples
  (decode1 decode2 : Blob -> Outcome (AudioBuffer num)) (blob : Blob)
  (buffer1 buffer2 : AudioBuffer num) :
  decode1 blob = Returns buffer1 -> decode2 blob = Returns buffer2 ->
  duration buffer1 = duration buffer2 ->
  (2048 <= length (channelData buffer1))%nat ->
  (2048 <= length (channelData buffer2))%nat ->
  firstn 2048 (channelData buffer1) = firstn 2048 (channelData buffer2) ->
  quickProcessVoiceAudio decode1 blob = quickProcessVoiceAudio decode2 blob.
Proof.
  intros E1 E2 Hd H1 H2 Hf. unfold quickProcessVoiceAudio.
  rewrite E1, E2, Hd. cbv zeta.
  assert (L1 : (length (channelData buffer1) <? 512)%nat = false)
    by (apply Nat.ltb_ge; lia).
  assert (L2 : (length (channelData buffer2) <? 512)%nat = false)
    by (apply Nat.ltb_ge; lia).
  rewrite L1, L2, !Nat.min_l, Hf by lia. reflexivity.
Qed.

End QuickValidationReads.

Section QuickValidationReadsWitness.
Local Open Scope float_scope.

Lemma quick_validation_reads_leading_samples_witness :
  quickProcessVoiceAudio
    (fun _ => Returns {| duration := 1; sampleRate := 44100;
                         channelData := repeat 1 2048 |})
    {| size := 5000 |}
  = quickProcessVoiceAudio
      (fun _ => Returns {| duration := 1; sampleRate := 8000;
                           channelData := repeat 1 2048 ++ repeat 0 100 |})
      {| size := 5000 |}.
Proof.
  refine (@quick_validation_reads_leading_samples float _ _ _ _
            {| duration := 1; sampleRate := 44100;
               channelData := repeat 1 2048 |}
            {| duration := 1; sampleRate := 8000;
               channelData := repeat 1 2048 ++ repeat 0 100 |}
            eq_refl eq_refl eq_refl _ _ _); cbn [channelData].
  - rewrite repeat_length. lia.
  - rewrite length_app, !repeat_length. lia.
  - vm_compute. reflexivity.
Defined.

End QuickValidationReadsWitness.

(** ** The processing pipeline *)

Section PipelineGeneric.
Context {num : Type} {N : JsNumber num}.
Variable blobToAudioBuffer : Blob -> Outcome (AudioBuffer num).
Variable Meyda_extract_mfcc : list num -> Outcome (option (list num)).
Variable Meyda_extract : string -> list num -> Outcome (option num).

Let process := processVoiceAudio blobToAudioBuffer Meyda_extract_mfcc Meyda_extract.
Let extractFast :=
  extractFeaturesFromAudioBufferFast Meyda_extract_mfcc Meyda_extract.

Lemma on_last_frame_length (update : VoiceFeatures num -> VoiceFeatures num)
  (frames : list (VoiceFeatures num)) :
  length (on_last_frame update frames) = length frames.
Proof.
  induction frames as [|f [|f' rest] IH]; simpl in *; auto.
Qed.

(** What the pipeline returns, step by step. *)
Lemma processVoiceAudio_steps (blob : Blob) (g : RandomSource num)
  (audioBuffer : AudioBuffer num) :
  blobToAudioBuffer blob = Returns audioBuffer ->
  let raw := fst (extractFast audioBuffer 512 256 g) in
  let g1 := snd (extractFast audioBuffer 512 256 g) in
  let stats := fst (calculatePitchStatisticsFast audioBuffer g1) in
  let g2 := snd (calculatePitchStatisticsFast audioBuffer g1) in
  let js := fst (calculateJitterAndShimmerFast audioBuffer g2) in
  let g3 := snd (calculateJitterAndShimmerFast audioBuffer g2) in
  let raw' :=
    on_last_frame (with_pitch_jitter_shimmer stats (fst js) (snd js)) raw in
  process blob g
  = (match aggregateFeatures raw' with
     | Throws message =>
         Throws ("Failed to process voice audio: " ++ message)
     | Returns aggregatedFeatures =>
         Returns
           {| processedFeatures :=
                with_shimmer (Some (snd js))
                  (with_jitter (Some (fst js))
                     (with_pitchRange (Some (range stats))
                        (with_pitchVariance (Some (variance stats))
                           (with_pitchMean (Some (mean stats))
                                           aggregatedFeatures))));
              rawFeatures := raw' |}
     end, g3).
Proof.
  intros E. cbv zeta. subst process extractFast. unfold processVoiceAudio.
  rewrite E.
  destruct (extractFeaturesFromAudioBufferFast _ _ audioBuffer 512 256 g)
    as [raw g1].
  cbn [fst snd].
  destruct (calculatePitchStatisticsFast audioBuffer g1) as [stats g2].
  cbn [fst snd].
  destruct (calculateJitterAndShimmerFast audioBuffer g2) as [[jitter shimmer] g3].
  cbn [fst snd].
  destruct (aggregateFeatures _); reflexivity.
Qed.

(** The pipeline fails with the decoder's message when decoding throws, and
    with "No features to aggregate" when the recording has fewer than 768
    samples (a frame of 512 and one hop of 256); in both cases the message
    follows "Failed to process voice audio: ". *)
Theorem processVoiceAudio_failures (blob : Blob) (g : RandomSource num) :
  (forall message,
      blobToAudioBuffer blob = Throws message ->
      process blob g
      = (Throws ("Failed to process voice audio: " ++ message), g))
  /\ (forall audioBuffer,
         blobToAudioBuffer blob = Returns audioBuffer ->
         (length (channelData audioBuffer) < 768)%nat ->
         fst (process blob g)
         = Throws ("Failed to process voice audio: No features to aggregate")).
Proof.
  split.
  - intros message E. subst process. unfold processVoiceAudio. now rewrite E.
  - intros audioBuffer E Hn. rewrite (processVoiceAudio_steps g E).
    cbv zeta. cbn [fst].
    assert (Hraw : fst (extractFast audioBuffer 512 256 g) = []).
    { subst extractFast. unfold extractFeaturesFromAudioBufferFast. cbv zeta.
      destruct (@maxFramesOf_count
                  (Z.of_nat (length (channelData audioBuffer))) 512 256)
        as [_ H0]; [lia|].
      rewrite H0 by lia. reflexivity. }
    rewrite Hraw. reflexivity.
Qed.

(** A decoded recording of 768 samples or more is processed: between 1 and
    50 frames are returned, and the profile is the aggregate of these frames
    with a pitch mean, a jitter and a shimmer added. *)
Theorem processVoiceAudio_returns (blob : Blob) (g : RandomSource num)
  (audioBuffer : AudioBuffer num) :
  blobToAudioBuffer blob = Returns audioBuffer ->
  (768 <= length (channelData audioBuffer))%nat ->
  exists result aggregated,
    fst (process blob g) = Returns result
    /\ (1 <= length (rawFeatures result) <= 50)%nat
    /\ aggregateFeatures (rawFeatures result) = Returns aggregated
    /\ meanFields (processedFeatures result) = meanFields aggregated
    /\ varianceFields (processedFeatures result) = varianceFields aggregated
    /\ pitchMean (processedFeatures result) <> None
    /\ jitter (processedFeatures result) <> None
    /\ shimmer (processedFeatures result) <> None.
Proof.
  intros E Hn. rewrite (processVoiceAudio_steps g E). cbv zeta. cbn [fst].
  set (raw' := on_last_frame _ _).
  assert (Hlen : (1 <= length raw' <= 50)%nat).
  { subst raw'. rewrite on_last_frame_length.
    subst extractFast. unfold extractFeaturesFromAudioBufferFast. cbv zeta.
    rewrite fastFrames_length.
    split; [|apply maxFramesOf_at_most_50].
    destruct (@maxFramesOf_count
                (Z.of_nat (length (channelData audioBuffer))) 512 256)
      as [Hcount _]; [lia|].
    rewrite Hcount.
    assert (1 <= (Z.of_nat (length (channelData audioBuffer)) - 512) / 256)%Z.
    { apply Z.div_le_lower_bound; lia. }
    lia. }
  destruct raw' as [|first rest] eqn:Eraw; [simpl in Hlen; lia|].
  eexists. eexists. split; [reflexivity|].
  cbn [rawFeatures processedFeatures].
  split; [exact Hlen|]. split; [reflexivity|].
  repeat split; discriminate.
Qed.

End PipelineGeneric.

Section PipelineWitnesses.
Local Open Scope float_scope.

Lemma processVoiceAudio_failures_witness :
  fst (processVoiceAudio (fun _ => Returns silence)
                         (fun _ => Returns None) (fun _ _ => Returns None)
                         {| size := 5000 |} (always 0))
  = Throws ("Failed to process voice audio: No features to aggregate").
Proof.
  apply (proj2 (processVoiceAudio_failures
                  (fun _ => Returns silence)
                  (fun _ => Returns None) (fun _ _ => Returns None)
                  {| size := 5000 |} (always 0)) silence eq_refl).
  cbn [silence channelData]. rewrite repeat_length. lia.
Defined.

Lemma processVoiceAudio_returns_witness :
  exists result aggregated,
    fst (processVoiceAudio
           (fun _ => Returns {| duration := 1; sampleRate := 44100;
                                channelData := repeat 0 1024 |})
           (fun _ => Returns None) (fun _ _ => Returns None)
           {| size := 5000 |} (always 0)) = Returns result
    /\ (1 <= length (rawFeatures result) <= 50)%nat
    /\ aggregateFeatures (rawFeatures result) = Returns aggregated
    /\ meanFields (processedFeatures result) = meanFields aggregated
    /\ varianceFields (processedFeatures result) = varianceFields aggregated
    /\ pitchMean (processedFeatures result) <> None
    /\ jitter (processedFeatures result) <> None
    /\ shimmer (processedFeatures result) <> None.
Proof.
  apply (@processVoiceAudio_returns float _ _ _ _ _ _
           {| duration := 1; sampleRate := 44100;
              channelData := repeat 0 1024 |} eq_refl).
  cbn [channelData]. rewrite repeat_length. lia.
Defined.

End PipelineWitnesses.

Section PipelineExact.
Local Open Scope R_scope.
Variable blobToAudioBuffer : Blob -> Outcome (AudioBuffer exact).
Variable Meyda_extract_mfcc : list exact -> Outcome (option (list exact)).
Variable Meyda_extract : string -> list exact -> Outcome (option exact).

Let process := processVoiceAudio blobToAudioBuffer Meyda_extract_mfcc Meyda_extract.

Lemma or_zero_finite (value : option exact) :
  (forall v, value = Some v -> v <> PosInf /\ v <> NegInf) ->
  finite (or_zero value).
Proof.
  intros H. destruct value as [v|]; [|exact I].
  destruct (H v eq_refl) as [Hp Hn]. unfold or_zero, js_or.
  destruct v as [r| | |]; try contradiction.
  - destruct (truthy (Fin r)); exact I.
  - exact I.
Qed.

Lemma repeat_finite (x : exact) (n : nat) : finite x -> Forall finite (repeat x n).
Proof. intros H. induction n; simpl; constructor; auto. Qed.

Lemma extractFrameFast_pipeline (frame : list exact) (f : VoiceFeatures exact) :
  tame_mfcc Meyda_extract_mfcc -> tame_scalars Meyda_extract ->
  extractFrameFast Meyda_extract_mfcc Meyda_extract frame = Returns f ->
  pipeline_frame f.
Proof.
  intros Hm Hs. unfold extractFrameFast, bind.
  destruct (Meyda_extract_mfcc frame) as [mf|] eqn:Emf; [|discriminate].
  destruct (Meyda_extract "spectralCentroid" frame) as [c|] eqn:Ec; [|discriminate].
  destruct (Meyda_extract "spectralFlatness" frame) as [fl|] eqn:Efl; [|discriminate].
  destruct (Meyda_extract "zcr" frame) as [z|] eqn:Ez; [|discriminate].
  destruct (Meyda_extract "rms" frame) as [r|] eqn:Er; [|discriminate].
  destruct (Meyda_extract "energy" frame) as [e|] eqn:Ee; [|discriminate].
  intros H. injection H as <-.
  assert (Hz : forall name o, Meyda_extract name frame = Returns o ->
                              finite (or_zero o)).
  { intros name o E. apply or_zero_finite. intros v ->. eapply Hs; eauto. }
  unfold pipeline_frame, finite_frame, scalarMembers.
  cbn [mfcc spectralCentroid spectralFlatness spectralRolloff spectralFlux
       perceptualSpread perceptualSharpness spectralKurtosis zcr rms energy].
  destruct mf as [cs|].
  - destruct (Hm frame cs Emf) as [Hlen Hfin].
    split; [split|]; auto. repeat constructor; eauto.
  - split; [split|].
    + repeat constructor.
    + repeat constructor; eauto.
    + reflexivity.
Qed.

Lemma Math_random_unit (g : RandomSource exact) :
  unit_draws g ->
  (exists r, fst (Math_random g) = Fin r /\ 0 <= r < 1)
  /\ unit_draws (snd (Math_random g)).
Proof. intros H. split; [apply H | exact H]. Qed.

Lemma fallbackFrame_pipeline (g : RandomSource exact) :
  unit_draws g ->
  pipeline_frame (fst (fallbackFrame g)) /\ unit_draws (snd (fallbackFrame g)).
Proof.
  intros Hg. unfold fallbackFrame, Math_random. cbn [fst snd draws drawn].
  split; [|exact Hg].
  unfold pipeline_frame, finite_frame, scalarMembers.
  cbn [mfcc spectralCentroid spectralFlatness spectralRolloff spectralFlux
       perceptualSpread perceptualSharpness spectralKurtosis zcr rms energy].
  rewrite !dec_Fin by lra.
  assert (Hd : forall n c, finite (draws g n * Fin c)%js).
  { intros n c. destruct (Hg n) as [r [-> _]]. exact I. }
  assert (Hd' : forall n a c, finite (Fin a + draws g n * Fin c)%js).
  { intros n a c. destruct (Hg n) as [r [-> _]]. exact I. }
  split; [split|].
  - repeat constructor; apply Hd.
  - repeat constructor; first [apply Hd | apply Hd'].
  - reflexivity.
Qed.

Lemma fastFrames_pipeline (audioData : list exact) (count : nat) (i : Z)
  (g : RandomSource exact) :
  tame_mfcc Meyda_extract_mfcc -> tame_scalars Meyda_extract ->
  unit_draws g ->
  Forall pipeline_frame
         (fst (fastFrames Meyda_extract_mfcc Meyda_extract audioData
                          512 256 count i g))
  /\ unit_draws (snd (fastFrames Meyda_extract_mfcc Meyda_extract audioData
                                 512 256 count i g)).
Proof.
  intros Hm Hs. revert i g.
  induction count as [|count IH]; intros i g Hg; cbn [fastFrames].
  - split; [constructor | exact Hg].
  - destruct (extractFrameFast _ _ _) as [f|message] eqn:E.
    + destruct (IH (i + 1)%Z g Hg) as [Hrest Hg2].
      destruct (fastFrames _ _ _ _ _ count (i + 1)%Z g) as [rest g2].
      cbn [fst snd] in *. split; [|exact Hg2].
      constructor; [|exact Hrest]. eapply extractFrameFast_pipeline; eauto.
    + destruct (fallbackFrame_pipeline Hg) as [Hf Hg1].
      destruct (fallbackFrame g) as [f g1]. cbn [fst snd] in *.
      destruct (IH (i + 1)%Z g1 Hg1) as [Hrest Hg2].
      destruct (fastFrames _ _ _ _ _ count (i + 1)%Z g1) as [rest g2].
      cbn [fst snd] in *. split; [|exact Hg2]. constructor; assumption.
Qed.

Lemma on_last_frame_Forall (P : VoiceFeatures exact -> Prop)
  (update : VoiceFeatures exact -> VoiceFeatures exact) frames :
  (forall f, P f -> P (update f)) ->
  Forall P frames -> Forall P (on_last_frame update frames).
Proof.
  intros Hu H. induction H as [|f [|f' rest] Hf Hrest IH].
  - constructor.
  - simpl. constructor; auto.
  - change (on_last_frame update (f :: f' :: rest))
      with (f :: on_last_frame update (f' :: rest)).
    constructor; auto.
Qed.

Lemma with_pitch_pipeline stats (j sh : exact) (f : VoiceFeatures exact) :
  pipeline_frame f -> pipeline_frame (with_pitch_jitter_shimmer stats j sh f).
Proof.
  intros [[Hm Hs] Hl]. unfold pipeline_frame, finite_frame, scalarMembers in *.
  split; [split|]; auto.
  repeat (apply Forall_cons_iff in Hs; destruct Hs as [? Hs]).
  repeat constructor; assumption.
Qed.

End PipelineExact.

Section PipelineProfiles.
Local Open Scope R_scope.
Variable blobToAudioBuffer : Blob -> Outcome (AudioBuffer exact).
Variable Meyda_extract_mfcc : list exact -> Outcome (option (list exact)).
Variable Meyda_extract : string -> list exact -> Outcome (option exact).

Let process := processVoiceAudio blobToAudioBuffer Meyda_extract_mfcc Meyda_extract.

Lemma meanOf_finite (member : VoiceFeatures exact -> exact) frames :
  frames <> [] -> Forall (fun f => finite (member f)) frames ->
  finite (meanOf member frames).
Proof. intros Hne H. rewrite meanOf_exact by auto. exact I. Qed.

Lemma pipeline_member_finite frames member :
  Forall pipeline_frame frames -> In member scalarMembers ->
  Forall (fun f => finite (member f)) frames.
Proof.
  intros H Hin. eapply Forall_impl; [|exact H].
  intros f [[_ Hs] _]. rewrite Forall_forall in Hs. auto.
Qed.

Lemma pipeline_coefficient_finite frames (i : nat) :
  Forall pipeline_frame frames -> (i < 13)%nat ->
  Forall (fun f => finite (coefficient i f)) frames.
Proof.
  intros H Hi. eapply Forall_impl; [|exact H].
  intros f [[Hm _] Hl]. apply coefficient_finite; auto. lia.
Qed.

Lemma aggregateOf_well_formed (frames : list (VoiceFeatures exact)) :
  frames <> [] -> Forall pipeline_frame frames ->
  well_formed (aggregateOf 13 frames).
Proof.
  intros Hne H. unfold well_formed, scoredMembers.
  split; [discriminate|]. split; [|split; [|exact I]].
  - unfold aggregateOf. cbn [mfccMean]. apply Forall_map, Forall_forall.
    intros i Hi. apply in_seq in Hi. apply meanOf_finite; auto.
    apply pipeline_coefficient_finite; auto. lia.
  - unfold aggregateOf.
    repeat constructor;
      cbn [spectralCentroidMean spectralFlatnessMean spectralRolloffMean
           perceptualSpreadMean perceptualSharpnessMean zcrMean energyMean];
      apply meanOf_finite; auto;
      apply pipeline_member_finite; auto; simpl; auto 12.
Qed.

Lemma with_pitch_well_formed (P : AggregatedVoiceFeatures exact)
  (p v r j sh : exact) :
  well_formed P -> finite p ->
  well_formed
    (with_shimmer (Some sh)
       (with_jitter (Some j)
          (with_pitchRange (Some r)
             (with_pitchVariance (Some v) (with_pitchMean (Some p) P))))).
Proof.
  intros [H1 [H2 [H3 _]]] Hp. unfold well_formed, scoredMembers in *.
  split; [exact H1|]. split; [exact H2|]. split; [|exact Hp].
  repeat (apply Forall_cons_iff in H3; destruct H3 as [? H3]).
  repeat constructor; assumption.
Qed.

Lemma fast_pitch_mean (audioBuffer : AudioBuffer exact) (g : RandomSource exact) :
  unit_draws g ->
  within 90 150 (mean (fst (calculatePitchStatisticsFast audioBuffer g))).
Proof.
  intros Hg. unfold calculatePitchStatisticsFast, Math_random.
  cbn [fst mean drawn draws]. destruct (Hg (drawn g)) as [r [-> Hr]].
  rewrite dec_Fin by lra. simpl. eexists. split; [reflexivity|]. lra.
Qed.

Lemma fast_frames_nonempty (audioBuffer : AudioBuffer exact)
  (g : RandomSource exact) :
  (768 <= length (channelData audioBuffer))%nat ->
  fst (extractFeaturesFromAudioBufferFast Meyda_extract_mfcc Meyda_extract
         audioBuffer 512 256 g) <> [].
Proof.
  intros Hn. unfold extractFeaturesFromAudioBufferFast. cbv zeta.
  intros E. apply (f_equal (@length _)) in E.
  rewrite fastFrames_length in E. unfold maxFramesOf in E. cbn [Z.eqb] in E.
  assert (1 <= (Z.of_nat (length (channelData audioBuffer)) - 512) / 256)%Z.
  { apply Z.div_le_lower_bound; lia. }
  simpl length in E. lia.
Qed.

Lemma on_last_frame_nonempty (update : VoiceFeatures exact -> VoiceFeatures exact)
  frames : frames <> [] -> on_last_frame update frames <> [].
Proof. destruct frames as [|f [|f' rest]]; [contradiction| |]; discriminate. Qed.

(** In exact arithmetic a profile that the pipeline returns, compared with
    itself, has overall similarity exactly 1 and confidence exactly 1: the
    pitch placeholder always supplies a pitch mean from 90 up to 150.  The
    extractors may throw or return nothing; when the MFCC extractor returns
    coefficients they must be 13 finite numbers (no NaN, no infinity), the
    scalar extractors must return no infinity, and the random draws lie in
    [0, 1). *)
Theorem pipeline_profile_matches_itself (blob : Blob) (g : RandomSource exact)
  (audioBuffer : AudioBuffer exact) :
  blobToAudioBuffer blob = Returns audioBuffer ->
  (768 <= length (channelData audioBuffer))%nat ->
  tame_mfcc Meyda_extract_mfcc -> tame_scalars Meyda_extract ->
  unit_draws g ->
  exists result,
    fst (process blob g) = Returns result
    /\ overallSimilarity
         (calculateRobustSimilarityScore (processedFeatures result)
                                         (processedFeatures result)) = Fin 1
    /\ confidenceScore
         (calculateRobustSimilarityScore (processedFeatures result)
                                         (processedFeatures result)) = Fin 1.
Proof.
  intros E Hn Hm Hs Hg. subst process.
  rewrite (@processVoiceAudio_steps exact _ blobToAudioBuffer Meyda_extract_mfcc
             Meyda_extract blob g audioBuffer E).
  cbv zeta. cbn [fst].
  unfold extractFeaturesFromAudioBufferFast. cbv zeta.
  destruct (fastFrames_pipeline (channelData audioBuffer)
              (maxFramesOf (Z.of_nat (length (channelData audioBuffer))) 512 256)
              0 Hm Hs Hg) as [Hframes Hg1].
  pose proof (@fast_frames_nonempty audioBuffer g Hn) as Hne.
  unfold extractFeaturesFromAudioBufferFast in Hne. cbv zeta in Hne.
  set (run := fastFrames _ _ _ _ _ _ _ _) in *.
  set (stats := fst (calculatePitchStatisticsFast audioBuffer (snd run))).
  set (g2 := snd (calculatePitchStatisticsFast audioBuffer (snd run))).
  set (js := fst (calculateJitterAndShimmerFast audioBuffer g2)).
  set (raw' := on_last_frame _ (fst run)).
  assert (Hraw : Forall pipeline_frame raw').
  { apply on_last_frame_Forall; auto. intros f. apply with_pitch_pipeline. }
  assert (Hne' : raw' <> []) by now apply on_last_frame_nonempty.
  assert (Hd : mfcc_length 13 raw').
  { eapply Forall_impl; [|exact Hraw]. intros f [_ Hl]. exact Hl. }
  rewrite (aggregateFeatures_aggregateOf Hne' Hd).
  eexists. split; [reflexivity|]. cbn [processedFeatures].
  destruct (fast_pitch_mean audioBuffer Hg1) as [p [Ep Hp]].
  fold stats in Ep.
  set (P := with_shimmer _ _).
  assert (HP : well_formed P).
  { subst P. apply with_pitch_well_formed.
    - now apply aggregateOf_well_formed.
    - rewrite Ep. exact I. }
  assert (Epitch : pitchMean P = Some (Fin p)).
  { subst P. cbn [pitchMean with_shimmer with_jitter with_pitchRange
                  with_pitchVariance with_pitchMean]. now rewrite Ep. }
  destruct (self_comparison HP) as [Eo Ec].
  rewrite (carried_pitch_usable P Epitch) in Eo, Ec by lra.
  rewrite Eo, Ec. split; f_equal; [lra|].
  unfold variance5, mean5. cbv zeta.
  replace (1 - _) with 1 by field. apply Rmax_right. lra.
Qed.

End PipelineProfiles.

Section PipelineProfileWitness.
Local Open Scope R_scope.

Lemma pipeline_profile_matches_itself_witness :
  exists result,
    fst (processVoiceAudio
           (fun _ => Returns {| duration := Fin 1; sampleRate := Fin 768;
                                channelData := map Fin (repeat 0 768) |})
           (fun _ => Returns (Some (repeat (Fin 1) 13)))
           (fun _ _ => Returns (Some (Fin 2)))
           {| size := 5000 |} half_draws) = Returns result
    /\ overallSimilarity
         (calculateRobustSimilarityScore (processedFeatures result)
                                         (processedFeatures result)) = Fin 1
    /\ confidenceScore
         (calculateRobustSimilarityScore (processedFeatures result)
                                         (processedFeatures result)) = Fin 1.
Proof.
  apply (@pipeline_profile_matches_itself _ _ _ _ _
           {| duration := Fin 1; sampleRate := Fin 768;
              channelData := map Fin (repeat 0 768) |} eq_refl).
  - cbn [channelData]. rewrite length_map, repeat_length. lia.
  - intros frame cs H. injection H as <-.
    split; [reflexivity | repeat constructor].
  - intros name frame v H. injection H as <-. split; discriminate.
  - exact half_draws_unit.
Defined.

End PipelineProfileWitness.

Section PipelineVoiceQuality.
Local Open Scope R_scope.
Variable blobToAudioBuffer : Blob -> Outcome (AudioBuffer exact).
Variable Meyda_extract_mfcc : list exact -> Outcome (option (list exact)).
Variable Meyda_extract : string -> list exact -> Outcome (option exact).
Hypothesis extractors_return : never_throw Meyda_extract_mfcc Meyda_extract.

Let process := processVoiceAudio blobToAudioBuffer Meyda_extract_mfcc Meyda_extract.

(** Frames whose perceptual spread and sharpness are both 0. *)
Let flat_quality (f : VoiceFeatures exact) : Prop :=
  perceptualSpread f = Fin 0 /\ perceptualSharpness f = Fin 0.

Lemma extractFrameFast_quality (frame : list exact) :
  exists f, extractFrameFast Meyda_extract_mfcc Meyda_extract frame = Returns f
            /\ flat_quality f.
Proof.
  destruct extractors_return as [Hm Hs]. unfold extractFrameFast, bind.
  destruct (Hm frame) as [mf ->].
  destruct (Hs "spectralCentroid"%string frame) as [c ->].
  destruct (Hs "spectralFlatness"%string frame) as [fl ->].
  destruct (Hs "zcr"%string frame) as [z ->].
  destruct (Hs "rms"%string frame) as [r ->].
  destruct (Hs "energy"%string frame) as [e ->].
  eexists. split; [reflexivity|]. split; reflexivity.
Qed.

Lemma fastFrames_quality (audioData : list exact) (count : nat) (i : Z)
  (g : RandomSource exact) :
  Forall flat_quality
         (fst (fastFrames Meyda_extract_mfcc Meyda_extract audioData
                          512 256 count i g)).
Proof.
  revert i g. induction count as [|count IH]; intros i g; cbn [fastFrames].
  - constructor.
  - destruct (extractFrameFast_quality
                (slice audioData (i * 256) (i * 256 + 512))) as [f [-> Hf]].
    specialize (IH (i + 1)%Z g).
    destruct (fastFrames _ _ _ _ _ count (i + 1)%Z g) as [rest g2].
    cbn [fst] in *. constructor; assumption.
Qed.

Lemma meanOf_zero (member : VoiceFeatures exact -> exact) frames :
  frames <> [] -> Forall (fun f => member f = Fin 0) frames ->
  meanOf member frames = Fin 0.
Proof.
  intros Hne H. pose proof (count_positive Hne) as Hn.
  rewrite meanOf_exact; auto.
  2:{ eapply Forall_impl; [|exact H]. intros f ->. exact I. }
  f_equal.
  assert (E : Rsum (samplesOf member frames) = 0).
  { unfold samplesOf, Rsum. clear Hne Hn.
    induction H as [|f fs Hf Hfs IH]; cbn [map fold_right].
    - reflexivity.
    - rewrite Hf, IH. cbn [real_of]. lra. }
  rewrite E. field. lra.
Qed.

Lemma aggregate_quality (frames : list (VoiceFeatures exact)) agg :
  Forall flat_quality frames ->
  aggregateFeatures frames = Returns agg ->
  perceptualSpreadMean agg = Fin 0 /\ perceptualSharpnessMean agg = Fin 0.
Proof.
  intros H E. destruct frames as [|first rest] eqn:Ef; [discriminate|].
  unfold aggregateFeatures in E. cbv zeta in E. injection E as <-.
  cbn [perceptualSpreadMean perceptualSharpnessMean].
  split; apply meanOf_zero; try discriminate;
    (eapply Forall_impl; [|exact H]); intros f [H1 H2]; assumption.
Qed.

Lemma processed_quality (blob : Blob) (g : RandomSource exact) result :
  fst (process blob g) = Returns result ->
  perceptualSpreadMean (processedFeatures result) = Fin 0
  /\ perceptualSharpnessMean (processedFeatures result) = Fin 0.
Proof.
  subst process. intros H.
  destruct (blobToAudioBuffer blob) as [audioBuffer|message] eqn:E.
  2:{ unfold processVoiceAudio in H. rewrite E in H. discriminate. }
  rewrite (@processVoiceAudio_steps exact _ blobToAudioBuffer Meyda_extract_mfcc
             Meyda_extract blob g audioBuffer E) in H.
  cbv zeta in H. cbn [fst] in H.
  set (raw' := on_last_frame _ _) in H.
  assert (Hraw : Forall flat_quality raw').
  { subst raw'. apply on_last_frame_Forall.
    - intros f Hf. exact Hf.
    - unfold extractFeaturesFromAudioBufferFast. cbv zeta.
      apply fastFrames_quality. }
  destruct (aggregateFeatures raw') as [agg|message] eqn:Ea; [|discriminate].
  injection H as <-. cbn [processedFeatures].
  apply (aggregate_quality Hraw Ea).
Qed.

Lemma voiceQuality_of_flat (A B : AggregatedVoiceFeatures exact) :
  perceptualSpreadMean A = Fin 0 -> perceptualSharpnessMean A = Fin 0 ->
  perceptualSpreadMean B = Fin 0 -> perceptualSharpnessMean B = Fin 0 ->
  voiceQualitySimilarityOf A B = Fin 1.
Proof.
  intros A1 A2 B1 B2. unfold voiceQualitySimilarityOf. cbv zeta.
  rewrite A1, A2, B1, B2, !dec_Fin by lra.
  cbn [sub Math_abs mul exact_number Exact.sub Exact.abs Exact.mul Exact.add
       Exact.neg].
  rewrite !div_Fin by lra. simpl. f_equal.
  replace (0 + - 0) with 0 by lra. rewrite Rabs_R0.
  unfold Rmax. destruct (Rle_dec 0 _); lra.
Qed.

(** When the extractors never throw, the fast extraction leaves the
    perceptual spread and sharpness of every frame at 0, so two profiles that
    the pipeline returns always have voice-quality similarity exactly 1,
    whatever was recorded. *)
Theorem pipeline_voice_quality_is_constant
  (blob1 blob2 : Blob) (g1 g2 : RandomSource exact) result1 result2 :
  fst (process blob1 g1) = Returns result1 ->
  fst (process blob2 g2) = Returns result2 ->
  voiceQualitySimilarity
    (calculateRobustSimilarityScore (processedFeatures result1)
                                    (processedFeatures result2)) = Fin 1.
Proof.
  intros H1 H2.
  destruct (processed_quality _ _ H1) as [A1 A2].
  destruct (processed_quality _ _ H2) as [B1 B2].
  unfold calculateRobustSimilarityScore. cbv zeta. cbn [voiceQualitySimilarity].
  now apply voiceQuality_of_flat.
Qed.

End PipelineVoiceQuality.

Section PipelineVoiceQualityWitness.
Local Open Scope R_scope.

Lemma silent_recording_is_processed :
  exists result,
    fst (processVoiceAudio
           (fun _ => Returns {| duration := Fin 1; sampleRate := Fin 768;
                                channelData := map Fin (repeat 0 768) |})
           (fun _ => Returns None) (fun _ _ => Returns None)
           {| size := 5000 |} half_draws) = Returns result.
Proof.
  eexists. reflexivity.
Qed.

Lemma pipeline_voice_quality_is_constant_witness :
  exists result1 result2,
    fst (processVoiceAudio
           (fun _ => Returns {| duration := Fin 1; sampleRate := Fin 768;
                                channelData := map Fin (repeat 0 768) |})
           (fun _ => Returns None) (fun _ _ => Returns None)
           {| size := 5000 |} half_draws) = Returns result1
    /\ fst (processVoiceAudio
           (fun _ => Returns {| duration := Fin 1; sampleRate := Fin 768;
                                channelData := map Fin (repeat 0 768) |})
           (fun _ => Returns None) (fun _ _ => Returns None)
           {| size := 9000 |} half_draws) = Returns result2
    /\ voiceQualitySimilarity
         (calculateRobustSimilarityScore (processedFeatures result1)
                                         (processedFeatures result2)) = Fin 1.
Proof.
  destruct silent_recording_is_processed as [result H].
  exists result, result. split; [exact H|]. split; [exact H|].
  refine (@pipeline_voice_quality_is_constant _ _ _ _
            {| size := 5000 |} {| size := 9000 |} half_draws half_draws
            result result H H).
  split.
  - intros frame. eexists. reflexivity.
  - intros name frame. eexists. reflexivity.
Defined.

End PipelineVoiceQualityWitness.
